(** * Responsible RAG: a shallow embedding of the retrieval and critique core

    The development follows the Python sources
    [rag.py], [answer_pipeline.py], [planner.py], [critic.py], [revision.py],
    [app_new.py], [compare_systems.py] and
    [scripts/experiment_loan_approval.py].  Python values are modelled as
    follows.

    - [str] is a list of Unicode code points ([list N]);
    - [int] is [Z] (unbounded), list lengths and loop counters that never
      go negative are [nat];
    - float32 / float64 values are [spec_float] (IEEE 754, no payload),
      with the operations of [SpecFloat] at precision 24 / exponent 128;
    - a call that may raise returns an [outcome]; calls to the remote
      embedding and chat services go through the oracles of [Env] and
      are logged in a trace. *)

From Stdlib Require Import ZArith NArith Lia Ascii String DecimalNat.
From Stdlib Require Import Floats.SpecFloat.
From stdpp Require Import base tactics option list sorting.

Local Open Scope Z_scope.

(* ===================================================================== *)
(** * Part I — the model                                                  *)
(* ===================================================================== *)

(** ** Python strings *)

Module Py.

Abbreviation str := (list N).

(** A string literal of the source, as code points. *)
Definition lit (s : string) : str :=
  map N_of_ascii (list_ascii_of_string s).

Definition NL : N := 10%N.
Definition SPACE : N := 32%N.
Definition HASH : N := 35%N.
Definition LBRACE : N := 123%N.
Definition RBRACE : N := 125%N.

(** [str.isspace] on one code point: the whitespace set that [str.split()]
    and [str.strip()] share. *)
Definition is_space (c : N) : bool :=
  ((9 <=? c) && (c <=? 13) || (28 <=? c) && (c <=? 32)
   || (c =? 133) || (c =? 160) || (c =? 5760)
   || (8192 <=? c) && (c <=? 8202)
   || (c =? 8232) || (c =? 8233) || (c =? 8239) || (c =? 8287)
   || (c =? 12288))%N.

(** [s.split()] : maximal runs of non-whitespace. [acc] is the word being
    read, reversed. *)
Fixpoint split_go (acc : str) (s : str) : list str :=
  match s with
  | [] => match acc with [] => [] | _ => [rev acc] end
  | c :: r =>
      if is_space c then
        match acc with
        | [] => split_go [] r
        | _ => rev acc :: split_go [] r
        end
      else split_go (c :: acc) r
  end.

Definition split (s : str) : list str := split_go [] s.

Fixpoint lstrip (s : str) : str :=
  match s with
  | [] => []
  | c :: r => if is_space c then lstrip r else s
  end.

Fixpoint rstrip (s : str) : str :=
  match s with
  | [] => []
  | c :: r =>
      match rstrip r with
      | [] => if is_space c then [] else [c]
      | r' => c :: r'
      end
  end.

(** [s.strip()] *)
Definition strip (s : str) : str := lstrip (rstrip s).

(** [sep.join(l)] *)
Fixpoint join (sep : str) (l : list str) : str :=
  match l with
  | [] => []
  | [w] => w
  | w :: r => w ++ sep ++ join sep r
  end.

(** [s.split("\n\n")]: cut at every non-overlapping blank line, scanning
    from the left; the pieces may be empty. *)
Fixpoint split_blank_lines_go (acc : str) (s : str) : list str :=
  match s with
  | [] => [rev acc]
  | c :: r =>
      match r with
      | d :: r' =>
          if ((c =? NL) && (d =? NL))%N then rev acc :: split_blank_lines_go [] r'
          else split_blank_lines_go (c :: acc) r
      | [] => split_blank_lines_go (c :: acc) r
      end
  end.

Definition split_blank_lines (s : str) : list str := split_blank_lines_go [] s.

(** Slice bounds as CPython adjusts them (step 1): a negative bound counts
    from the end, then both are clamped to [0, len]. *)
Definition clamp (n : nat) (i : Z) : nat :=
  if i <? 0 then Z.to_nat (Z.max 0 (Z.of_nat n + i))
  else Z.to_nat (Z.min i (Z.of_nat n)).

(** [l[start:stop]] *)
Definition slice {A} (l : list A) (start stop : Z) : list A :=
  let lo := clamp (length l) start in
  let hi := clamp (length l) stop in
  take (hi - lo) (drop lo l).

(** [len(l)] as a Python int. *)
Definition len {A} (l : list A) : Z := Z.of_nat (length l).

(** [str(n)] for a non-negative int. *)
Fixpoint uint_chars (u : Decimal.uint) : str :=
  match u with
  | Decimal.Nil => []
  | Decimal.D0 u => 48%N :: uint_chars u
  | Decimal.D1 u => 49%N :: uint_chars u
  | Decimal.D2 u => 50%N :: uint_chars u
  | Decimal.D3 u => 51%N :: uint_chars u
  | Decimal.D4 u => 52%N :: uint_chars u
  | Decimal.D5 u => 53%N :: uint_chars u
  | Decimal.D6 u => 54%N :: uint_chars u
  | Decimal.D7 u => 55%N :: uint_chars u
  | Decimal.D8 u => 56%N :: uint_chars u
  | Decimal.D9 u => 57%N :: uint_chars u
  end.

Definition str_of_nat (n : nat) : str := uint_chars (Nat.to_uint n).

(** [needle in hay] for strings. *)
Fixpoint starts_with (p s : str) : bool :=
  match p, s with
  | [], _ => true
  | _ :: _, [] => false
  | a :: p', b :: s' => (a =? b)%N && starts_with p' s'
  end.

Fixpoint contains (needle hay : str) : bool :=
  starts_with needle hay ||
  match hay with
  | [] => false
  | _ :: r => contains needle r
  end.

(** [s.find(c)] and [s.rfind(c)] for a one-character needle: the index of
    the first / last occurrence, or -1. *)
Fixpoint find_from (c : N) (s : str) (i : Z) : Z :=
  match s with
  | [] => -1
  | d :: r => if (d =? c)%N then i else find_from c r (i + 1)
  end.

Definition find (s : str) (c : N) : Z := find_from c s 0.

Fixpoint rfind_from (c : N) (s : str) (i : Z) (last : Z) : Z :=
  match s with
  | [] => last
  | d :: r => rfind_from c r (i + 1) (if (d =? c)%N then i else last)
  end.

Definition rfind (s : str) (c : N) : Z := rfind_from c s 0 (-1).

(** Lexicographic order on code points: [a <= b] for strings. *)
Fixpoint str_leb (a b : str) : bool :=
  match a, b with
  | [], _ => true
  | _ :: _, [] => false
  | x :: a', y :: b' =>
      if (x <? y)%N then true
      else if (y <? x)%N then false
      else str_leb a' b'
  end.

Definition str_le (a b : str) : Prop := str_leb a b = true.

#[export] Instance str_le_dec a b : Decision (str_le a b).
Proof. unfold str_le. apply _. Defined.

(** [sorted(l)] for a list of strings. *)
Definition sorted (l : list str) : list str := merge_sort str_le l.

End Py.

(** ** rag.py: chunking *)

(** The [while] loop of [split_into_chunks]; [fuel] bounds the number of
    iterations, [None] means the bound was reached with the loop still
    running. *)
Fixpoint chunk_loop (fuel : nat) (words : list (list N))
    (max_words overlap start : Z) (chunks : list (list N))
  : option (list (list N)) :=
  if start <? Py.len words then
    match fuel with
    | O => None
    | S fuel' =>
        let end_ := start + max_words in
        let chunk_words := Py.slice words start end_ in
        chunk_loop fuel' words max_words overlap (end_ - overlap)
          (chunks ++ [Py.strip (Py.join [Py.SPACE] chunk_words)])
    end
  else Some chunks.

Definition split_into_chunks (fuel : nat) (text : list N)
    (max_words overlap : Z) : option (list (list N)) :=
  let words := Py.split text in
  match words with
  | [] => Some []
  | _ =>
      if Py.len words <=? max_words then Some [Py.strip text]
      else chunk_loop fuel words max_words overlap 0 []
  end.

(** Number of words of a text, [len(text.split())]. *)
Definition word_count (text : list N) : nat := length (Py.split text).

(** ** Outcomes of a call *)

(** The exception classes the modelled code raises or meets; all of them
    derive from Python's [Exception]. [OtherError] stands for whatever the
    environment raises (I/O, decoding, the remote services). *)
Inductive exn : Type :=
  | ValueError
  | FileNotFoundError
  | IndexError
  | AttributeError
  | AxisError
  | OtherError (name : string).

Inductive outcome (A : Type) : Type :=
  | Return (a : A)
  | Raise (e : exn)
  | Diverge.
Arguments Return {A} a.
Arguments Raise {A} e.
Arguments Diverge {A}.

Definition obind {A B} (m : outcome A) (k : A -> outcome B) : outcome B :=
  match m with
  | Return a => k a
  | Raise e => Raise e
  | Diverge => Diverge
  end.

(** What the environment answers: an exception or a value. *)
Definition of_env {A} (r : exn + A) : outcome A :=
  match r with
  | inl e => Raise e
  | inr a => Return a
  end.

Declare Scope outcome_scope.
Delimit Scope outcome_scope with outcome.
Notation "x <- m ;; k" := (obind m (fun x => k))
  (at level 100, m at next level, right associativity) : outcome_scope.

(** A [for] loop whose body may raise: the first exception ends it. *)
Fixpoint ofold {A S} (body : S -> A -> outcome S) (l : list A) (s : S)
  : outcome S :=
  match l with
  | [] => Return s
  | a :: r => obind (body s a) (ofold body r)
  end.

(** ** The environment *)

(** The directory tree as [load_corpus] sees it. *)
Record FileSystem := {
  (** [os.path.isdir(path)] *)
  isdir : list N -> bool;
  (** [glob(os.path.join(path, "*.txt"))], in the order the operating
      system lists the entries *)
  glob_txt : list N -> list (list N);
  (** [open(filepath, "r", encoding="utf-8").read()] *)
  read_text : list N -> exn + list N
}.

Record chat_request := {
  model : list N;
  temperature : option Z;
  top_p : option Z;
  system_content : list N;
  user_content : list N
}.

(** The function of the sources that issued a chat request. *)
Inductive stage := Planner | Draft | Critic | Revision | SafeRewrite.

Inductive event :=
  | EmbedCall (input : list (list N))
  | ChatCall (who : stage) (req : chat_request).

(** Python's [json] values. *)
Inductive json :=
  | JNull
  | JBool (b : bool)
  | JInt (z : Z)
  | JFloat (f : spec_float)
  | JStr (s : list N)
  | JList (l : list json)
  | JDict (d : list (list N * json)).

(** One entry of the list [retrieve] returns. *)
Record doc := {
  text : list N;
  similarity : spec_float;
  source : list N
}.

(** Everything outside the repository: the two remote services, whose
    answer may depend on all the calls made so far, the library functions
    of numpy and json the sources call, the Unicode upper-case table
    beyond ASCII, [str(d)] of a result dictionary, and the four prompt
    constants. *)
Record Env := {
  embeddings_create : list event -> list N -> list (list N) -> exn + list (list spec_float);
  chat_completions_create : list event -> chat_request -> exn + list N;
  np_argsort : list spec_float -> list nat;
  json_loads : list N -> exn + json;
  json_dumps : json -> list N;
  unicode_upper : N -> list N;
  str_of_doc : doc -> list N;
  PLANNER_SYSTEM_PROMPT : list N;
  DRAFT_SYSTEM_PROMPT : list N;
  CRITIC_SYSTEM_PROMPT : list N;
  REVISION_SYSTEM_PROMPT : list N
}.

(** config.py *)
Definition CHAT_MODEL : list N := Py.lit "gpt-4.1-mini".
Definition EMBED_MODEL : list N := Py.lit "text-embedding-3-small".

(** Computations that talk to the services: the trace of calls made so far
    goes in, the outcome and the extended trace come out. *)
Definition M (A : Type) : Type := list event -> outcome A * list event.

Definition mret {A} (a : A) : M A := fun tr => (Return a, tr).

Definition mbind {A B} (m : M A) (k : A -> M B) : M B :=
  fun tr =>
    match m tr with
    | (Return a, tr') => k a tr'
    | (Raise e, tr') => (Raise e, tr')
    | (Diverge, tr') => (Diverge, tr')
    end.

Definition mlift {A} (o : outcome A) : M A := fun tr => (o, tr).

Declare Scope M_scope.
Delimit Scope M_scope with M.
Notation "x <- m ;; k" := (mbind m (fun x => k))
  (at level 100, m at next level, right associativity) : M_scope.

Fixpoint mfold {A S} (body : S -> A -> M S) (l : list A) (s : S) : M S :=
  match l with
  | [] => mret s
  | a :: r => mbind (body s a) (mfold body r)
  end.

(** ** rag.py: loading the corpus *)

Definition SLASH : N := 47%N.

(** [os.path.basename] (POSIX): what follows the last slash. *)
Fixpoint basename_go (cur : list N) (p : list N) : list N :=
  match p with
  | [] => rev cur
  | c :: r => if (c =? SLASH)%N then basename_go [] r else basename_go (c :: cur) r
  end.

Definition basename (p : list N) : list N := basename_go [] p.

(** The three locals [load_corpus] updates in its loops. *)
Record corpus_state := {
  cs_texts : list (list N);
  cs_sources : list (list N);
  cs_chunk_index : nat
}.

(** [f"{filename}#{chunk_index}"] *)
Definition source_id (filename : list N) (chunk_index : nat) : list N :=
  filename ++ [Py.HASH] ++ Py.str_of_nat chunk_index.

(** Body of [for chunk in para_chunks]. *)
Definition add_chunk (filename : list N) (st : corpus_state) (chunk : list N)
  : corpus_state :=
  match chunk with
  | [] => st
  | _ =>
      {| cs_texts := cs_texts st ++ [chunk];
         cs_sources := cs_sources st ++ [source_id filename (cs_chunk_index st)];
         cs_chunk_index := S (cs_chunk_index st) |}
  end.

(** [split_into_chunks(para, max_words=200, overlap=40)] as called by
    [load_corpus]; the loop is given one iteration per word. *)
Definition para_chunks (para : list N) : option (list (list N)) :=
  split_into_chunks (word_count para) para 200 40.

(** Body of [for para in paragraphs]. *)
Definition add_paragraph (filename : list N) (st : corpus_state) (para : list N)
  : outcome corpus_state :=
  match para_chunks para with
  | None => Diverge
  | Some chunks => Return (fold_left (add_chunk filename) chunks st)
  end.

(** [[p.strip() for p in content.split("\n\n") if p.strip()]] *)
Definition paragraphs (content : list N) : list (list N) :=
  omap (fun p => match Py.strip p with [] => None | q => Some q end)
       (Py.split_blank_lines content).

(** Body of [for filepath in txt_files]. *)
Definition add_file (fs : FileSystem) (st : corpus_state) (filepath : list N)
  : outcome corpus_state :=
  let filename := basename filepath in
  (content <- of_env (read_text fs filepath) ;;
   ofold (add_paragraph filename) (paragraphs content) st)%outcome.

Definition load_corpus (fs : FileSystem) (path : list N)
  : outcome (list (list N) * list (list N)) :=
  if negb (isdir fs path) then Raise ValueError
  else
    let txt_files := Py.sorted (glob_txt fs path) in
    match txt_files with
    | [] => Raise FileNotFoundError
    | _ =>
        (st <- ofold (add_file fs) txt_files
                 {| cs_texts := []; cs_sources := []; cs_chunk_index := 0 |} ;;
         Return (cs_texts st, cs_sources st))%outcome
    end.

(** ** rag.py: embeddings *)

Definition f32_add : spec_float -> spec_float -> spec_float := SFadd 24 128.
Definition f32_mul : spec_float -> spec_float -> spec_float := SFmul 24 128.
Definition f32_div : spec_float -> spec_float -> spec_float := SFdiv 24 128.
Definition f32_sqrt : spec_float -> spec_float := SFsqrt 24 128.

(** Rounding a Python float to float32, as [dtype="float32"] does. *)
Definition to_f32 (x : spec_float) : spec_float := SFldexp 24 128 x 0.

Definition is_nan (x : spec_float) : bool :=
  match x with
  | S754_nan => true
  | _ => false
  end.

(** [range(0, n, step)] *)
Definition range0 (n : nat) (step : Z) : outcome (list Z) :=
  if step =? 0 then Raise ValueError
  else if step <? 0 then Return []
  else Return (map (fun i => Z.of_nat i * step)
                 (seq 0 (Z.to_nat ((Z.of_nat n + step - 1) / step)))).

(** [client.embeddings.create(model=EMBED_MODEL, input=batch)], read as
    [[item.embedding for item in response.data]]. *)
Definition call_embeddings (E : Env) (batch : list (list N))
  : M (list (list spec_float)) :=
  fun tr => (of_env (embeddings_create E tr EMBED_MODEL batch), tr ++ [EmbedCall batch]).

(** [np.array(rows, dtype="float32")]: the rows must have one length. *)
Definition np_array_f32 (rows : list (list spec_float))
  : outcome (list (list spec_float)) :=
  match rows with
  | [] => Return []
  | r0 :: _ =>
      if forallb (fun r => Nat.eqb (length r) (length r0)) rows
      then Return (map (map to_f32) rows)
      else Raise ValueError
  end.

Definition embed_texts (E : Env) (texts : list (list N)) (batch_size : Z)
  : M (list (list spec_float)) :=
  match texts with
  | [] => mlift (Raise ValueError)
  | _ =>
      (starts <- mlift (range0 (length texts) batch_size) ;;
       all_vectors <-
         mfold (fun all_vectors start =>
                  let end_ := start + batch_size in
                  let batch := Py.slice texts start end_ in
                  batch_vectors <- call_embeddings E batch ;;
                  mret (all_vectors ++ batch_vectors))
               starts [] ;;
       mlift (np_array_f32 all_vectors))%M
  end.

(** ** rag.py: cosine similarity *)

(** Sum of products, accumulated from the left starting at +0. numpy leaves
    the order of accumulation to its BLAS; no statement below depends on it
    beyond the propagation of NaN. *)
Definition dot (x y : list spec_float) : spec_float :=
  fold_left (fun acc p => f32_add acc (f32_mul (fst p) (snd p)))
            (zip x y) (S754_zero false).

(** [np.linalg.norm] of one row. *)
Definition norm (x : list spec_float) : spec_float := f32_sqrt (dot x x).

Definition cosine_similarity (query_vec : list spec_float)
    (doc_vecs : list (list spec_float)) : outcome (list spec_float) :=
  let q := map (fun x => f32_div x (norm query_vec)) query_vec in
  match doc_vecs with
  | [] => Raise AxisError
  | _ =>
      let d := map (fun row => map (fun x => f32_div x (norm row)) row) doc_vecs in
      if forallb (fun row => Nat.eqb (length row) (length q)) d
      then Return (map (fun row => dot row q) d)
      else Raise ValueError
  end.

(** ** rag.py: the retriever *)

Record SimpleRAG := {
  texts : list (list N);
  sources : list (list N);
  embeddings : list (list spec_float)
}.

(** [SimpleRAG.__init__] *)
Definition SimpleRAG_init (E : Env) (fs : FileSystem) (corpus_path : list N)
  : M SimpleRAG :=
  (loaded <- mlift (load_corpus fs corpus_path) ;;
   embs <- embed_texts E (fst loaded) 64 ;;
   mret {| texts := fst loaded; sources := snd loaded; embeddings := embs |})%M.

(** [l[idx]] for an index that is not negative. *)
Definition getitem {A} (l : list A) (idx : nat) : outcome A :=
  match l !! idx with
  | Some a => Return a
  | None => Raise IndexError
  end.

(** Body of [for idx in top_k_indices]. [float(sims[idx])] widens the
    float32 to a Python float without changing its value; the value is
    kept as it is. *)
Definition append_result (self : SimpleRAG) (sims : list spec_float)
    (results : list doc) (idx : nat) : outcome (list doc) :=
  (t <- getitem (texts self) idx ;;
   s <- getitem sims idx ;;
   src <- getitem (sources self) idx ;;
   Return (results ++ [{| text := t; similarity := s; source := src |}]))%outcome.

Definition retrieve (E : Env) (self : SimpleRAG) (query : list N) (k : Z)
  : M (list doc) :=
  (vectors <- embed_texts E [query] 64 ;;
   query_vec <- mlift (getitem vectors 0) ;;
   sims <- mlift (cosine_similarity query_vec (embeddings self)) ;;
   let top_k_indices := Py.slice (np_argsort E (map SFopp sims)) 0 k in
   mlift (ofold (append_result self sims) top_k_indices []))%M.

(** ** planner.py, critic.py, revision.py, answer_pipeline.py: the stages *)

(** [client.chat.completions.create(...)], read as
    [response.choices[0].message.content]. *)
Definition call_chat (E : Env) (who : stage) (req : chat_request) : M (list N) :=
  fun tr => (of_env (chat_completions_create E tr req), tr ++ [ChatCall who req]).

(** ["\n\n".join(f"Document {i+1}: {d}" for i, d in enumerate(retrieved_docs))] *)
Definition docs_text (retrieved_docs : list (list N)) : list N :=
  Py.join [Py.NL; Py.NL]
    (imap (fun i d => Py.lit "Document " ++ Py.str_of_nat (i + 1) ++ Py.lit ": " ++ d)
          retrieved_docs).

Definition generate_plan (E : Env) (query : list N) (retrieved_docs : list (list N))
  : M (list N) :=
  call_chat E Planner
    {| model := CHAT_MODEL; temperature := None; top_p := None;
       system_content := PLANNER_SYSTEM_PROMPT E;
       user_content :=
         Py.lit "User question:" ++ [Py.NL] ++ query ++ [Py.NL; Py.NL]
         ++ Py.lit "Retrieved documents:" ++ [Py.NL] ++ docs_text retrieved_docs |}.

Definition generate_draft_answer (E : Env) (query : list N)
    (retrieved_docs : list (list N)) (plan : list N) : M (list N) :=
  call_chat E Draft
    {| model := CHAT_MODEL; temperature := None; top_p := None;
       system_content := DRAFT_SYSTEM_PROMPT E;
       user_content :=
         Py.lit "User question:" ++ [Py.NL] ++ query ++ [Py.NL; Py.NL]
         ++ Py.lit "Retrieved documents:" ++ [Py.NL] ++ docs_text retrieved_docs
         ++ [Py.NL; Py.NL]
         ++ Py.lit "Plan:" ++ [Py.NL] ++ plan ++ [Py.NL; Py.NL]
         ++ Py.lit "Now follow the plan and write a draft answer grounded in the documents." |}.

Definition evaluate_answer (E : Env) (query : list N)
    (retrieved_docs : list (list N)) (draft_answer : list N) : M (list N) :=
  call_chat E Critic
    {| model := CHAT_MODEL; temperature := Some 0; top_p := Some 0;
       system_content := CRITIC_SYSTEM_PROMPT E;
       user_content :=
         Py.lit "User question:" ++ [Py.NL] ++ query ++ [Py.NL; Py.NL]
         ++ Py.lit "Retrieved documents:" ++ [Py.NL] ++ docs_text retrieved_docs
         ++ [Py.NL; Py.NL]
         ++ Py.lit "Draft answer:" ++ [Py.NL] ++ draft_answer |}.

Definition revise_answer (E : Env) (query : list N)
    (retrieved_docs : list (list N)) (draft_answer critic_feedback : list N)
  : M (list N) :=
  call_chat E Revision
    {| model := CHAT_MODEL; temperature := None; top_p := None;
       system_content := REVISION_SYSTEM_PROMPT E;
       user_content :=
         Py.lit "User question:" ++ [Py.NL] ++ query ++ [Py.NL; Py.NL]
         ++ Py.lit "Retrieved documents (ground truth):" ++ [Py.NL]
         ++ docs_text retrieved_docs ++ [Py.NL; Py.NL]
         ++ Py.lit "Draft answer:" ++ [Py.NL] ++ draft_answer ++ [Py.NL; Py.NL]
         ++ Py.lit "Critic feedback:" ++ [Py.NL] ++ critic_feedback ++ [Py.NL; Py.NL]
         ++ Py.lit "Please produce a revised final answer that follows the critic's feedback and stays grounded in the retrieved documents." |}.

(** [s.upper()]: ASCII letters shift by 32, other ASCII characters stay, the
    rest follows the Unicode table (one character may become several). *)
Definition upper_char (E : Env) (c : N) : list N :=
  if ((97 <=? c) && (c <=? 122))%N then [(c - 32)%N]
  else if (c <? 128)%N then [c]
  else unicode_upper E c.

Definition upper (E : Env) (s : list N) : list N := flat_map (upper_char E) s.

Definition VERDICT_REVISE : list N := Py.lit "VERDICT: REVISE".

(** [needs_revision = "VERDICT: REVISE" in critic_feedback.upper()] *)
Definition needs_revision (E : Env) (critic_feedback : list N) : bool :=
  let critic_upper := upper E critic_feedback in
  Py.contains VERDICT_REVISE critic_upper.

(** The dictionary [run_pipeline] returns. *)
Record pipeline_run := {
  pr_query : list N;
  pr_retrieved_docs : list (list N);
  pr_sources : list (list N);
  pr_plan : list N;
  pr_draft_answer : list N;
  pr_critic_feedback : list N;
  pr_final_answer : list N
}.

(** [run_pipeline(query, k)]; [RAG] is the module-level retriever. *)
Definition run_pipeline (E : Env) (RAG : SimpleRAG) (query : list N) (k : Z)
  : M pipeline_run :=
  (retrieved <- retrieve E RAG query k ;;
   let retrieved_texts := map text retrieved in
   let retrieved_sources := map source retrieved in
   plan <- generate_plan E query retrieved_texts ;;
   draft_answer <- generate_draft_answer E query retrieved_texts plan ;;
   critic_feedback <- evaluate_answer E query retrieved_texts draft_answer ;;
   final_answer <-
     (if needs_revision E critic_feedback
      then revise_answer E query retrieved_texts draft_answer critic_feedback
      else mret draft_answer) ;;
   mret {| pr_query := query;
           pr_retrieved_docs := retrieved_texts;
           pr_sources := retrieved_sources;
           pr_plan := plan;
           pr_draft_answer := draft_answer;
           pr_critic_feedback := critic_feedback;
           pr_final_answer := final_answer |})%M.

(** ** app_new.py: the critic parser and the responsible branch *)

(** [try: body except Exception: handler]. Every modelled exception derives
    from [Exception], so the handler takes them all. *)
Definition try_except {A} (body : outcome A) (handler : exn -> outcome A)
  : outcome A :=
  match body with
  | Raise e => handler e
  | other => other
  end.

(** [bool(v)] *)
Definition truthy (v : json) : bool :=
  match v with
  | JNull => false
  | JBool b => b
  | JInt z => negb (z =? 0)
  | JFloat (S754_zero _) => false
  | JFloat _ => true
  | JStr [] => false
  | JStr _ => true
  | JList [] => false
  | JList _ => true
  | JDict [] => false
  | JDict _ => true
  end.

(** The second tier of the parser: [text[start : end + 1]] when both braces
    are found in order, with [start = text.find("{")] and
    [end = text.rfind("}")]. *)
Definition brace_snippet (text : list N) : option (list N) :=
  let start := Py.find text Py.LBRACE in
  let end_ := Py.rfind text Py.RBRACE in
  if negb (start =? -1) && negb (end_ =? -1) && (start <? end_)
  then Some (Py.slice text start (end_ + 1))
  else None.

Definition parse_critic_json (E : Env) (text : list N) : outcome json :=
  match text with
  | [] => Return (JDict [])
  | _ =>
      try_except (of_env (json_loads E text)) (fun _ =>
        match brace_snippet text with
        | Some snippet =>
            try_except (of_env (json_loads E snippet)) (fun _ => Return (JDict []))
        | None => Return (JDict [])
        end)
  end.

(** [get_doc_text(doc)] on the dictionaries [retrieve] builds: they have no
    ["content"] key, so the text is used unless it is empty. *)
Definition get_doc_text (E : Env) (d : doc) : list N :=
  match text d with
  | [] => str_of_doc E d
  | t => t
  end.

(** ** app_new.py: the evidence score and the rendering of a response *)

(** The float32 [1.0]. *)
Definition f32_one : spec_float := S754_finite false 8388608 (-23).

(** [min(a, b)] and [max(a, b)] of Python on two floats: the first argument
    is kept unless the second is strictly smaller (larger). *)
Definition py_min2 (a b : spec_float) : spec_float := if SFltb b a then b else a.

Definition py_max2 (a b : spec_float) : spec_float := if SFltb a b then b else a.

(** [max(sims)] for a non-empty list: the items are compared from the left. *)
Definition py_max (first : spec_float) (rest : list spec_float) : spec_float :=
  fold_left py_max2 rest first.

(** [compute_evidence_score(docs)] on the dictionaries [retrieve] builds:
    each has a ["similarity"] that is a float, so every one is collected.
    The constants [0.0] and [1.0] are written in the representation of the
    similarities. *)
Definition compute_evidence_score (docs : list doc) : option spec_float :=
  match docs with
  | [] => None
  | _ =>
      let sims := map similarity docs in
      match sims with
      | [] => None
      | s0 :: rest =>
          let max_sim := py_max s0 rest in
          Some (py_max2 (S754_zero false) (py_min2 f32_one max_sim))
      end
  end.

(** A float JSON can hold: neither NaN nor infinite. *)
Definition is_finite (x : spec_float) : bool :=
  match x with
  | S754_zero _ | S754_finite _ _ _ => true
  | S754_infinity _ | S754_nan => false
  end.

(** A string UTF-8 can encode: no code point is a surrogate. *)
Definition encodable (s : list N) : bool :=
  forallb (fun c => negb ((55296 <=? c) && (c <=? 57343))%N) s.

(** Every float of a value is finite. *)
Fixpoint floats_finite (v : json) : bool :=
  match v with
  | JFloat f => is_finite f
  | JList l => forallb floats_finite l
  | JDict d => forallb (fun kv => floats_finite (snd kv)) d
  | _ => true
  end.

(** Every string of a value, keys included, is encodable. *)
Fixpoint strings_encodable (v : json) : bool :=
  match v with
  | JStr s => encodable s
  | JList l => forallb strings_encodable l
  | JDict d => forallb (fun kv => encodable (fst kv) && strings_encodable (snd kv)) d
  | _ => true
  end.

(** [JSONResponse(content)]. The constructor renders the body at once, as
    [json.dumps(content, ensure_ascii=False, allow_nan=False, ...).encode("utf-8")]:
    [json.dumps] raises ValueError on a float that is NaN or infinite, and
    the encoding of the text it made raises UnicodeEncodeError on a
    surrogate. *)
Definition JSONResponse (content : json) : outcome unit :=
  if negb (floats_finite content) then Raise ValueError
  else if negb (strings_encodable content) then Raise (OtherError "UnicodeEncodeError")
  else Return tt.

(** A result of [retrieve] as the dictionary it is. *)
Definition doc_json (d : doc) : json :=
  JDict [(Py.lit "text", JStr (text d));
         (Py.lit "similarity", JFloat (similarity d));
         (Py.lit "source", JStr (source d))].

(** The [evidence_score] entry of [meta]: a float or [None]. *)
Definition evidence_json (docs : list doc) : json :=
  match compute_evidence_score docs with
  | Some s => JFloat s
  | None => JNull
  end.

(** [v.get(key)]: only a dictionary has the method. *)
Definition py_get (v : json) (key : list N) : outcome json :=
  match v with
  | JDict d =>
      Return (match list_find (fun kv => fst kv = key) d with
              | Some (_, kv) => snd kv
              | None => JNull
              end)
  | _ => Raise AttributeError
  end.

(** The critic part of [meta]. *)
Record critic_meta := {
  overall_score : json;
  grounding_score : json;
  safety_score : json;
  hallucination_risk : json;
  issues : json;
  suggestions : json;
  critic_summary : json
}.

(** The content of the JSON response of the responsible branch. The
    [evidence_score] entry of [meta] is [compute_evidence_score] of the
    retrieved results and has no field of its own. *)
Record responsible_response := {
  rr_retrieved : list doc;
  rr_plan : list N;
  rr_critic : json + list N;
  rr_critic_raw : list N;
  rr_safe_answer : list N;
  rr_answer : list N;
  rr_num_sources : nat;
  rr_critic_meta : option critic_meta
}.

Definition SAFE_REWRITE_SYSTEM : list N :=
  Py.lit "You are a careful assistant. Rewrite the answer to be safe, factual, and grounded ONLY in the retrieved documents. Use the critic feedback to fix issues, remove or explicitly flag speculative claims, and clearly acknowledge uncertainties. Preserve useful content when it is supported by the documents. Never add new unsupported facts.".

Definition RESPONSIBLE_DRAFT_SYSTEM : list N :=
  Py.lit "You are a helpful assistant. Follow the plan and use the retrieved context when relevant. Do not invent facts beyond the context.".

(** The critic entries of [meta], present when the parsed output is truthy. *)
Definition critic_meta_items (m : option critic_meta) : list (list N * json) :=
  match m with
  | None => []
  | Some m =>
      [(Py.lit "overall_score", overall_score m);
       (Py.lit "grounding_score", grounding_score m);
       (Py.lit "safety_score", safety_score m);
       (Py.lit "hallucination_risk", hallucination_risk m);
       (Py.lit "issues", issues m);
       (Py.lit "suggestions", suggestions m);
       (Py.lit "critic_summary", critic_summary m)]
  end.

(** The dictionary the responsible branch hands to [JSONResponse]. *)
Definition responsible_content (r : responsible_response) : json :=
  JDict [(Py.lit "retrieved", JList (map doc_json (rr_retrieved r)));
         (Py.lit "plan", JStr (rr_plan r));
         (Py.lit "critic", match rr_critic r with inl v => v | inr t => JStr t end);
         (Py.lit "critic_raw", JStr (rr_critic_raw r));
         (Py.lit "safe_answer", JStr (rr_safe_answer r));
         (Py.lit "answer", JStr (rr_answer r));
         (Py.lit "meta",
          JDict ([(Py.lit "mode", JStr (Py.lit "responsible"));
                  (Py.lit "evidence_score", evidence_json (rr_retrieved r));
                  (Py.lit "num_sources", JInt (Z.of_nat (rr_num_sources r)))]
                 ++ critic_meta_items (rr_critic_meta r)))].

(** The request of the safe rewrite; [critic_json_str] is the parsed
    output serialised again when it is truthy, the raw text otherwise. *)
Definition safe_rewrite_request (E : Env) (query : list N) (texts : list (list N))
    (draft_text : list N) (critic_parsed : json) (critic_text : list N)
  : chat_request :=
  let critic_json_str :=
    if truthy critic_parsed then json_dumps E critic_parsed else critic_text in
  {| model := CHAT_MODEL; temperature := None; top_p := None;
     system_content := SAFE_REWRITE_SYSTEM;
     user_content :=
       Py.lit "User question:" ++ [Py.NL] ++ query ++ [Py.NL; Py.NL]
       ++ Py.lit "Retrieved documents:" ++ [Py.NL] ++ Py.join [Py.NL; Py.NL] texts
       ++ [Py.NL; Py.NL]
       ++ Py.lit "Original draft answer:" ++ [Py.NL] ++ draft_text ++ [Py.NL; Py.NL]
       ++ Py.lit "Critic feedback (JSON or text):" ++ [Py.NL] ++ critic_json_str |}.

(** [if critic_parsed: meta.update({...})]: seven lookups with [.get]. *)
Definition critic_fields (critic_parsed : json) : outcome (option critic_meta) :=
  if truthy critic_parsed then
    (a <- py_get critic_parsed (Py.lit "overall_score") ;;
     b <- py_get critic_parsed (Py.lit "grounding_score") ;;
     c <- py_get critic_parsed (Py.lit "safety_score") ;;
     d <- py_get critic_parsed (Py.lit "hallucination_risk") ;;
     e <- py_get critic_parsed (Py.lit "issues") ;;
     f <- py_get critic_parsed (Py.lit "suggestions") ;;
     g <- py_get critic_parsed (Py.lit "summary") ;;
     Return (Some {| overall_score := a; grounding_score := b;
                     safety_score := c; hallucination_risk := d;
                     issues := e; suggestions := f; critic_summary := g |}))%outcome
  else Return None.

(** The response built from the values of the run. *)
Definition responsible_result (docs : list doc) (texts : list (list N))
    (plan critic_text safe_answer : list N) (critic_parsed : json)
    (meta : option critic_meta) : responsible_response :=
  {| rr_retrieved := docs;
     rr_plan := plan;
     rr_critic := if truthy critic_parsed then inl critic_parsed else inr critic_text;
     rr_critic_raw := critic_text;
     rr_safe_answer := safe_answer;
     rr_answer := safe_answer;
     rr_num_sources := length texts;
     rr_critic_meta := meta |}.

(** The part of the responsible branch that follows the critic call: the
    parsing of its output, the safe rewrite, [meta] and the response, which
    [JSONResponse] renders before it is returned. *)
Definition respond_after_critic (E : Env) (query : list N) (docs : list doc)
    (texts : list (list N)) (plan draft_text critic_text : list N)
  : M responsible_response :=
  (critic_parsed <- mlift (parse_critic_json E critic_text) ;;
   safe_answer <- call_chat E SafeRewrite
     (safe_rewrite_request E query texts draft_text critic_parsed critic_text) ;;
   meta <- mlift (critic_fields critic_parsed) ;;
   let response :=
     responsible_result docs texts plan critic_text safe_answer critic_parsed meta in
   _ <- mlift (JSONResponse (responsible_content response)) ;;
   mret response)%M.

(** The request of the draft of the responsible branch. *)
Definition responsible_draft_request (query : list N) (texts : list (list N))
    (plan : list N) : chat_request :=
  {| model := CHAT_MODEL; temperature := None; top_p := None;
     system_content := RESPONSIBLE_DRAFT_SYSTEM;
     user_content :=
       Py.lit "Plan:" ++ [Py.NL] ++ plan ++ [Py.NL; Py.NL]
       ++ Py.lit "User question:" ++ [Py.NL] ++ query ++ [Py.NL; Py.NL]
       ++ Py.lit "Retrieved context:" ++ [Py.NL] ++ Py.join [Py.NL; Py.NL] texts |}.

(** [run_query] with [mode == "responsible"]; [rag] is the module-level
    retriever. *)
Definition run_query_responsible (E : Env) (rag : SimpleRAG) (query : list N)
  : M responsible_response :=
  (docs <- retrieve E rag query 3 ;;
   let texts := map (get_doc_text E) docs in
   plan <- generate_plan E query texts ;;
   draft_text <- call_chat E Draft (responsible_draft_request query texts plan) ;;
   critic_text <- evaluate_answer E query texts draft_text ;;
   respond_after_critic E query docs texts plan draft_text critic_text)%M.

(** ** Notions used in the statements *)

(** A word as [split] produces them: not empty, no whitespace inside. *)
Definition is_word (w : list N) : Prop :=
  w <> [] /\ Forall (fun c => Py.is_space c = false) w.

(** The chunks one paragraph contributes to the corpus: what
    [split_into_chunks] returns, empty strings skipped. *)
Definition para_chunk_list (para : list N) : list (list N) :=
  match para_chunks para with
  | Some chunks => filter (fun c => c <> []) chunks
  | None => []
  end.

(** The chunks of one file, in order. *)
Definition file_chunks (content : list N) : list (list N) :=
  flat_map para_chunk_list (paragraphs content).

(** Reading the files one after the other; the first failure ends it. *)
Fixpoint read_all (fs : FileSystem) (files : list (list N)) : outcome (list (list N)) :=
  match files with
  | [] => Return []
  | f :: r =>
      (c <- of_env (read_text fs f) ;;
       cs <- read_all fs r ;;
       Return (c :: cs))%outcome
  end.

(** For each chunk of the corpus, the name of the file it comes from. *)
Definition owners (files contents : list (list N)) : list (list N) :=
  flat_map (fun fc => replicate (length (file_chunks (snd fc))) (basename (fst fc)))
           (zip files contents).

(** The source ids of a corpus whose chunks have the given owners: the
    position in the whole corpus is the index. *)
Definition numbered (names : list (list N)) : list (list N) :=
  imap (fun i nm => source_id nm i) names.

(** The state of [load_corpus]'s loops after chunks with the given owners. *)
Definition state_of (chunks names : list (list N)) : corpus_state :=
  {| cs_texts := chunks; cs_sources := numbered names;
     cs_chunk_index := length names |}.

#[export] Instance spec_float_inhabited : Inhabited spec_float := populate S754_nan.

(** numpy's order on floats when sorting: [a < b], with NaN after
    everything else. *)
Definition np_lt (a b : spec_float) : bool :=
  SFltb a b || (is_nan b && negb (is_nan a)).

(** What numpy documents for [argsort] with the default [kind]: the indices
    of the array, each once, in an order that sorts it. The default sort is
    not stable, so nothing is promised on the order of equal keys. *)
Definition argsort_contract (argsort : list spec_float -> list nat) : Prop :=
  forall v : list spec_float,
    argsort v ≡ₚ seq 0 (length v) /\
    StronglySorted (fun i j => np_lt (v !!! j) (v !!! i) = false) (argsort v).

(** Two sorts that meet the contract: insertion of the indices taken in a
    given order, before the first strictly larger key. *)
Fixpoint insert_index (v : list spec_float) (i : nat) (l : list nat) : list nat :=
  match l with
  | [] => [i]
  | j :: r =>
      if np_lt (v !!! j) (v !!! i) then j :: insert_index v i r
      else i :: j :: r
  end.

Definition argsort_from (order : list nat) (v : list spec_float) : list nat :=
  foldr (insert_index v) [] order.

(** Equal keys keep their original order. *)
Definition argsort_stable (v : list spec_float) : list nat :=
  argsort_from (seq 0 (length v)) v.

(** *** numpy: the sort behind [np.argsort]

    [np.argsort(a)] with the default [kind] fills an index array with
    [0, 1, ..., n-1] and sorts it with [aquicksort_] of
    [numpy/_core/src/npysort/quicksort.cpp], the generic introsort numpy
    runs wherever it dispatches no vectorised sort: quicksort with a
    median-of-three pivot on ranges of more than 17 items, insertion sort
    on the others, and [aheapsort_] of [heapsort.cpp] on a range reached
    after too many partitions. Keys are compared with
    [npy::float_tag::less], which is [np_lt]. Pointers into the index array
    are offsets of type [Z]; the loops that the C code ends on a sentinel
    are given the length of the array as their bound. *)

Section npysort.

Variable v : list spec_float.

(** [*p] and [*p = x] *)
Definition deref (tosort : list nat) (p : Z) : nat := tosort !!! Z.to_nat p.

Definition assign (tosort : list nat) (p : Z) (x : nat) : list nat :=
  <[Z.to_nat p := x]> tosort.

(** [v[*p]] *)
Definition key_at (tosort : list nat) (p : Z) : spec_float :=
  v !!! deref tosort p.

(** [INTP_SWAP] of the items at [a] and [b] *)
Definition INTP_SWAP (tosort : list nat) (a b : Z) : list nat :=
  let tmp := deref tosort b in
  assign (assign tosort b (deref tosort a)) a tmp.

(** The three conditional swaps that put the median of [*pl], [*pm], [*pr]
    at [pm]. *)
Definition median_of_three (tosort : list nat) (pl pm pr : Z) : list nat :=
  let t1 := if np_lt (key_at tosort pm) (key_at tosort pl)
            then INTP_SWAP tosort pm pl else tosort in
  let t2 := if np_lt (key_at t1 pr) (key_at t1 pm)
            then INTP_SWAP t1 pr pm else t1 in
  if np_lt (key_at t2 pm) (key_at t2 pl) then INTP_SWAP t2 pm pl else t2.

(** [do { ++pi; } while (less(v[*pi], vp));] *)
Fixpoint scan_up (fuel : nat) (tosort : list nat) (vp : spec_float) (pi : Z) : Z :=
  match fuel with
  | O => pi + 1
  | S fuel' =>
      if np_lt (key_at tosort (pi + 1)) vp
      then scan_up fuel' tosort vp (pi + 1)
      else pi + 1
  end.

(** [do { --pj; } while (less(vp, v[*pj]));] *)
Fixpoint scan_down (fuel : nat) (tosort : list nat) (vp : spec_float) (pj : Z) : Z :=
  match fuel with
  | O => pj - 1
  | S fuel' =>
      if np_lt vp (key_at tosort (pj - 1))
      then scan_down fuel' tosort vp (pj - 1)
      else pj - 1
  end.

(** The [for (;;)] loop of the partition; it returns the array and [pi]. *)
Fixpoint partition_loop (fuel : nat) (tosort : list nat) (vp : spec_float)
    (pi pj : Z) : list nat * Z :=
  match fuel with
  | O => (tosort, pi)
  | S fuel' =>
      let pi' := scan_up (length tosort) tosort vp pi in
      let pj' := scan_down (length tosort) tosort vp pj in
      if pj' <=? pi' then (tosort, pi')
      else partition_loop fuel' (INTP_SWAP tosort pi' pj') vp pi' pj'
  end.

(** The state of [aquicksort_]: the index array, the current range, the
    stack of ranges left to sort with the depth allowance of each, and the
    current allowance. *)
Record qs_state := {
  qs_tosort : list nat;
  qs_pl : Z;
  qs_pr : Z;
  qs_stack : list (Z * Z * Z);
  qs_cdepth : Z
}.

Definition SMALL_QUICKSORT : Z := 16.

(** [while ((pr - pl) > SMALL_QUICKSORT) { ... }]: partition, push the
    larger part with the decremented allowance, go on with the smaller. *)
Fixpoint partition_while (fuel : nat) (st : qs_state) : qs_state :=
  match fuel with
  | O => st
  | S fuel' =>
      let pl := qs_pl st in
      let pr := qs_pr st in
      if SMALL_QUICKSORT <? pr - pl then
        let pm := pl + Z.shiftr (pr - pl) 1 in
        let t := median_of_three (qs_tosort st) pl pm pr in
        let vp := key_at t pm in
        let t := INTP_SWAP t pm (pr - 1) in
        let '(t, pi) := partition_loop (length t) t vp pl (pr - 1) in
        let t := INTP_SWAP t pi (pr - 1) in
        let cdepth := qs_cdepth st - 1 in
        if pi - pl <? pr - pi then
          partition_while fuel'
            {| qs_tosort := t; qs_pl := pl; qs_pr := pi - 1;
               qs_stack := (pi + 1, pr, cdepth) :: qs_stack st;
               qs_cdepth := cdepth |}
        else
          partition_while fuel'
            {| qs_tosort := t; qs_pl := pi + 1; qs_pr := pr;
               qs_stack := (pl, pi - 1, cdepth) :: qs_stack st;
               qs_cdepth := cdepth |}
      else st
  end.

(** [while (pj > pl && less(vp, v[*pk])) { *pj-- = *pk--; }] with
    [pk = pj - 1]; it returns the array and [pj]. *)
Fixpoint shift_right (fuel : nat) (tosort : list nat) (vp : spec_float)
    (pl pj : Z) : list nat * Z :=
  match fuel with
  | O => (tosort, pj)
  | S fuel' =>
      if (pl <? pj) && np_lt vp (key_at tosort (pj - 1))
      then shift_right fuel' (assign tosort pj (deref tosort (pj - 1))) vp pl (pj - 1)
      else (tosort, pj)
  end.

(** The insertion sort of the range from [pl] to [pr]. *)
Definition insertion_step (pl : Z) (tosort : list nat) (pi : Z) : list nat :=
  let vi := deref tosort pi in
  let vp := v !!! vi in
  let '(t, pj) := shift_right (length tosort) tosort vp pl pi in
  assign t pj vi.

Definition insertion_sort (tosort : list nat) (pl pr : Z) : list nat :=
  fold_left (insertion_step pl)
            (map (fun i => pl + 1 + Z.of_nat i) (seq 0 (Z.to_nat (pr - pl))))
            tosort.

(** The inner loop of [aheapsort_], with [a = tosort - 1]: the item [tmp]
    sinks from position [i] of a heap of [n] items. *)
Fixpoint sift_down (fuel : nat) (tosort : list nat) (a : Z) (tmp : nat)
    (i j n : Z) : list nat :=
  match fuel with
  | O => assign tosort (a + i) tmp
  | S fuel' =>
      if j <=? n then
        let j' := if (j <? n) && np_lt (key_at tosort (a + j)) (key_at tosort (a + j + 1))
                  then j + 1 else j in
        if np_lt (v !!! tmp) (key_at tosort (a + j'))
        then sift_down fuel' (assign tosort (a + i) (deref tosort (a + j')))
                       a tmp j' (j' + j') n
        else assign tosort (a + i) tmp
      else assign tosort (a + i) tmp
  end.

(** [aheapsort_(vv, pl, n)]: the heap is built for [l = n >> 1] down to 1,
    then the largest item is moved behind the heap [n - 1] times. *)
Definition aheapsort (tosort : list nat) (pl n : Z) : list nat :=
  let a := pl - 1 in
  let built :=
    fold_left (fun t l => sift_down (length t) t a (deref t (a + l)) l (Z.shiftl l 1) n)
              (map (fun i => Z.shiftr n 1 - Z.of_nat i)
                   (seq 0 (Z.to_nat (Z.shiftr n 1))))
              tosort in
  fold_left (fun t m =>
               let tmp := deref t (a + m) in
               let t := assign t (a + m) (deref t (a + 1)) in
               sift_down (length t) t a tmp 1 2 (m - 1))
            (map (fun i => n - Z.of_nat i) (seq 0 (Z.to_nat (n - 1))))
            built.

(** The outer [while (1)] of [aquicksort_]: one range per round, then the
    next range is taken from the stack, until it is empty. *)
Fixpoint aquicksort_loop (fuel : nat) (st : qs_state) : list nat :=
  match fuel with
  | O => qs_tosort st
  | S fuel' =>
      let st' :=
        if qs_cdepth st <? 0 then
          {| qs_tosort := aheapsort (qs_tosort st) (qs_pl st) (qs_pr st - qs_pl st + 1);
             qs_pl := qs_pl st; qs_pr := qs_pr st;
             qs_stack := qs_stack st; qs_cdepth := qs_cdepth st |}
        else
          let st1 := partition_while (length (qs_tosort st)) st in
          {| qs_tosort := insertion_sort (qs_tosort st1) (qs_pl st1) (qs_pr st1);
             qs_pl := qs_pl st1; qs_pr := qs_pr st1;
             qs_stack := qs_stack st1; qs_cdepth := qs_cdepth st1 |} in
      match qs_stack st' with
      | [] => qs_tosort st'
      | (pl, pr, cdepth) :: stack =>
          aquicksort_loop fuel'
            {| qs_tosort := qs_tosort st'; qs_pl := pl; qs_pr := pr;
               qs_stack := stack; qs_cdepth := cdepth |}
      end
  end.

(** [npy_get_msb(num) * 2]: twice the position of the highest bit. *)
Definition depth_limit (num : Z) : Z := Z.log2 num * 2.

(** [np.argsort(v)] for a one-dimensional array of floats. *)
Definition numpy_argsort : list nat :=
  let num := Py.len v in
  aquicksort_loop (S (length v))
    {| qs_tosort := seq 0 (length v); qs_pl := 0; qs_pr := num - 1;
       qs_stack := []; qs_cdepth := depth_limit num |}.

End npysort.

(** A position of the float order: class, then exponent, then mantissa. *)
Definition np_key (x : spec_float) : Z * Z * Z :=
  match x with
  | S754_nan => (3, 0, 0)
  | S754_infinity false => (2, 0, 0)
  | S754_infinity true => (-2, 0, 0)
  | S754_zero _ => (0, 0, 0)
  | S754_finite false m e => (1, e, Zpos m)
  | S754_finite true m e => (-1, - e, Zneg m)
  end.

Definition key_lt (a b : Z * Z * Z) : Prop :=
  a.1.1 < b.1.1 \/
  (a.1.1 = b.1.1 /\ (a.1.2 < b.1.2 \/ (a.1.2 = b.1.2 /\ a.2 < b.2))).

(** An embedding service with two answers (one for texts that start with
    a capital letter, one for the others), a chat service that echoes the
    user content, a parser that knows two inputs: an environment to run the
    model on. *)
Definition example_embedding (t : list N) : list spec_float :=
  match t with
  | c :: _ => if (c <? 97)%N then [f32_one; S754_zero false] else [f32_one; f32_one]
  | [] => [f32_one; f32_one]
  end.

Definition example_env : Env :=
  {| embeddings_create := fun _ _ batch => inr (map example_embedding batch);
     chat_completions_create := fun _ req => inr (user_content req);
     np_argsort := argsort_stable;
     json_loads := fun s =>
       if decide (s = Py.lit "{}") then inr (JDict [])
       else if decide (s = Py.lit "true") then inr (JBool true)
       else inl (OtherError "JSONDecodeError");
     json_dumps := fun _ => Py.lit "{}";
     unicode_upper := fun c => [c];
     str_of_doc := fun d => text d;
     PLANNER_SYSTEM_PROMPT := Py.lit "planner";
     DRAFT_SYSTEM_PROMPT := Py.lit "draft";
     CRITIC_SYSTEM_PROMPT := Py.lit "critic";
     REVISION_SYSTEM_PROMPT := Py.lit "revision" |}.

(** A corpus directory with two files. *)
Definition example_fs : FileSystem :=
  {| isdir := fun p => bool_decide (p = Py.lit "data");
     glob_txt := fun p =>
       if decide (p = Py.lit "data") then [Py.lit "data/b.txt"; Py.lit "data/a.txt"]
       else [];
     read_text := fun f =>
       if decide (f = Py.lit "data/a.txt")
       then inr (Py.lit "Responsible AI is safe." ++ [Py.NL; Py.NL] ++ Py.lit "OpenAI is a company.")
       else if decide (f = Py.lit "data/b.txt") then inr (Py.lit " fair and transparent ")
       else inl (OtherError "OSError") |}.

(** The same directory listed in the other order. *)
Definition example_fs_relisted : FileSystem :=
  {| isdir := isdir example_fs;
     glob_txt := fun p => rev (glob_txt example_fs p);
     read_text := read_text example_fs |}.

(** A directory whose only text file is blank. *)
Definition blank_fs : FileSystem :=
  {| isdir := fun _ => true;
     glob_txt := fun _ => [Py.lit "data/a.txt"];
     read_text := fun _ => inr [Py.SPACE; Py.NL] |}.

(** A zero of either sign. *)
Definition is_zero (x : spec_float) : bool :=
  match x with
  | S754_zero _ => true
  | _ => false
  end.

(** -1.0 as a float32. *)
Definition f32_minus_one : spec_float := S754_finite true 8388608 (-23).

(** The embedding service seen as a function of each text alone. *)
Definition pure_embedder (E : Env) (embed_one : list N -> list spec_float) : Prop :=
  forall tr m batch, embeddings_create E tr m batch = inr (map embed_one batch).

(** The embedding service answers a batch with one vector per text. *)
Definition one_vector_per_text (E : Env) : Prop :=
  forall tr m batch vs,
    embeddings_create E tr m batch = inr vs -> length vs = length batch.

(** Two results in the order [retrieve] lists them: the later one is not
    more similar, and a NaN similarity is never followed by a number. *)
Definition not_more_similar (earlier later : spec_float) : Prop :=
  SFltb earlier later = false /\ (is_nan earlier = true -> is_nan later = true).

(** The tie rule of the specification: of two results with the same
    similarity, the one listed first stands first in the corpus. *)
Definition ties_in_corpus_order (self : SimpleRAG) (results : list doc) : Prop :=
  forall i j d1 d2 p1 p2,
    (i < j)%nat ->
    results !! i = Some d1 -> results !! j = Some d2 ->
    similarity d1 = similarity d2 ->
    sources self !! p1 = Some (source d1) ->
    sources self !! p2 = Some (source d2) ->
    (p1 < p2)%nat.

(** The example environment with numpy's generic sort behind [np.argsort]. *)
Definition numpy_sort_env : Env :=
  {| embeddings_create := embeddings_create example_env;
     chat_completions_create := chat_completions_create example_env;
     np_argsort := numpy_argsort;
     json_loads := json_loads example_env;
     json_dumps := json_dumps example_env;
     unicode_upper := unicode_upper example_env;
     str_of_doc := str_of_doc example_env;
     PLANNER_SYSTEM_PROMPT := PLANNER_SYSTEM_PROMPT example_env;
     DRAFT_SYSTEM_PROMPT := DRAFT_SYSTEM_PROMPT example_env;
     CRITIC_SYSTEM_PROMPT := CRITIC_SYSTEM_PROMPT example_env;
     REVISION_SYSTEM_PROMPT := REVISION_SYSTEM_PROMPT example_env |}.

(** A corpus directory with one file of eighteen short paragraphs,
    [clause 1] to [clause 18]; the example embedding service gives all of
    them the same vector. *)
Definition clauses_fs : FileSystem :=
  {| isdir := fun p => bool_decide (p = Py.lit "data");
     glob_txt := fun p =>
       if decide (p = Py.lit "data") then [Py.lit "data/act.txt"] else [];
     read_text := fun f =>
       if decide (f = Py.lit "data/act.txt")
       then inr (Py.join [Py.NL; Py.NL]
                   (map (fun i => Py.lit "clause " ++ Py.str_of_nat i) (seq 1 18)))
       else inl (OtherError "OSError") |}.

(** The index built from the example directory. *)
Definition example_index : SimpleRAG :=
  {| texts := [Py.lit "Responsible AI is safe."; Py.lit "OpenAI is a company.";
               Py.lit "fair and transparent"];
     sources := [Py.lit "a.txt#0"; Py.lit "a.txt#1"; Py.lit "b.txt#2"];
     embeddings := [[f32_one; S754_zero false]; [f32_one; S754_zero false];
                    [f32_one; f32_one]] |}.

(** The result [d] is the chunk at position [idx] of the index, with its
    similarity. *)
Definition entry_of (self : SimpleRAG) (sims : list spec_float)
    (idx : nat) (d : doc) : Prop :=
  texts self !! idx = Some (text d)
  /\ sims !! idx = Some (similarity d)
  /\ sources self !! idx = Some (source d).

(** Counting the chat requests a given function of the sources issued. *)
Definition stage_eqb (a b : stage) : bool :=
  match a, b with
  | Planner, Planner | Draft, Draft | Critic, Critic
  | Revision, Revision | SafeRewrite, SafeRewrite => true
  | _, _ => false
  end.

Definition is_call_of (who : stage) (ev : event) : bool :=
  match ev with
  | ChatCall w _ => stage_eqb w who
  | EmbedCall _ => false
  end.

Definition calls_of (who : stage) (tr : list event) : nat :=
  length (List.filter (is_call_of who) tr).

(** The chat service never fails. *)
Definition chat_always_answers (E : Env) : Prop :=
  forall tr req, exists answer, chat_completions_create E tr req = inr answer.

(** A chat service whose critic always asks for a revision. *)
Definition revising_env : Env :=
  {| embeddings_create := embeddings_create example_env;
     chat_completions_create := fun _ req =>
       if decide (system_content req = Py.lit "critic")
       then inr (Py.lit "- Verdict: revise the second sentence")
       else inr (user_content req);
     np_argsort := np_argsort example_env;
     json_loads := json_loads example_env;
     json_dumps := json_dumps example_env;
     unicode_upper := unicode_upper example_env;
     str_of_doc := str_of_doc example_env;
     PLANNER_SYSTEM_PROMPT := PLANNER_SYSTEM_PROMPT example_env;
     DRAFT_SYSTEM_PROMPT := DRAFT_SYSTEM_PROMPT example_env;
     CRITIC_SYSTEM_PROMPT := CRITIC_SYSTEM_PROMPT example_env;
     REVISION_SYSTEM_PROMPT := REVISION_SYSTEM_PROMPT example_env |}.

(** The marker up to the case of ASCII letters: [mid] is a way of writing
    [marker] in upper and lower case. *)
Definition ascii_upper (c : N) : N :=
  if ((97 <=? c) && (c <=? 122))%N then (c - 32)%N else c.

Definition case_variant_of (marker mid : list N) : Prop :=
  Forall (fun c => (c < 128)%N) mid /\ map ascii_upper mid = marker.

(** The text contains the marker ["VERDICT: REVISE"] in some case. *)
Definition mentions_marker (critic : list N) : Prop :=
  exists pre mid post,
    critic = pre ++ mid ++ post /\ case_variant_of VERDICT_REVISE mid.

(** A critic that answers the JSON value [true]. *)
Definition true_critic_env : Env :=
  {| embeddings_create := embeddings_create example_env;
     chat_completions_create := fun _ req =>
       if decide (system_content req = Py.lit "critic")
       then inr (Py.lit "true")
       else inr (user_content req);
     np_argsort := np_argsort example_env;
     json_loads := json_loads example_env;
     json_dumps := json_dumps example_env;
     unicode_upper := unicode_upper example_env;
     str_of_doc := str_of_doc example_env;
     PLANNER_SYSTEM_PROMPT := PLANNER_SYSTEM_PROMPT example_env;
     DRAFT_SYSTEM_PROMPT := DRAFT_SYSTEM_PROMPT example_env;
     CRITIC_SYSTEM_PROMPT := CRITIC_SYSTEM_PROMPT example_env;
     REVISION_SYSTEM_PROMPT := REVISION_SYSTEM_PROMPT example_env |}.

(** The text [{"overall_score": 4}]; 34 is the code point of the double
    quote. *)
Definition score_object_text : list N :=
  [Py.LBRACE; 34%N] ++ Py.lit "overall_score" ++ [34%N] ++ Py.lit ": 4"
  ++ [Py.RBRACE].

(** A critic that wraps a JSON object in prose, with a parser and a
    serialiser that know this object. *)
Definition scoring_critic_env : Env :=
  {| embeddings_create := embeddings_create example_env;
     chat_completions_create := fun _ req =>
       if decide (system_content req = Py.lit "critic")
       then inr (Py.lit "Here is my review: " ++ score_object_text ++ Py.lit " Thanks.")
       else inr (user_content req);
     np_argsort := np_argsort example_env;
     json_loads := fun s =>
       if decide (s = score_object_text)
       then inr (JDict [(Py.lit "overall_score", JInt 4)])
       else json_loads example_env s;
     json_dumps := fun v =>
       match v with
       | JDict [(k, JInt 4)] =>
           [Py.LBRACE; 34%N] ++ k ++ [34%N] ++ Py.lit ": 4" ++ [Py.RBRACE]
       | _ => json_dumps example_env v
       end;
     unicode_upper := unicode_upper example_env;
     str_of_doc := str_of_doc example_env;
     PLANNER_SYSTEM_PROMPT := PLANNER_SYSTEM_PROMPT example_env;
     DRAFT_SYSTEM_PROMPT := DRAFT_SYSTEM_PROMPT example_env;
     CRITIC_SYSTEM_PROMPT := CRITIC_SYSTEM_PROMPT example_env;
     REVISION_SYSTEM_PROMPT := REVISION_SYSTEM_PROMPT example_env |}.

(** ** app_new.py: the branches of [run_query] *)

(** The content of the JSON response of [run_query], by branch. *)
Inductive query_response :=
  | ErrorResponse (error : list N) (status_code : Z)
  | BaselineResponse (answer : list N)
  | RagResponse (retrieved : list doc) (answer : list N)
      (evidence_score : option spec_float) (num_sources : nat)
  | ResponsibleResponse (r : responsible_response).

Definition BASELINE_SYSTEM : list N := Py.lit "You are a helpful assistant.".

Definition RAG_SYSTEM : list N :=
  Py.lit "Answer ONLY using the retrieved documents. If unsure, say you don't know.".

(** The dictionaries the other branches hand to [JSONResponse]. *)
Definition error_content (error : list N) : json :=
  JDict [(Py.lit "error", JStr error)].

Definition baseline_content (answer : list N) : json :=
  JDict [(Py.lit "answer", JStr answer);
         (Py.lit "meta", JDict [(Py.lit "mode", JStr (Py.lit "baseline"))]);
         (Py.lit "retrieved", JList [])].

Definition rag_content (docs : list doc) (answer : list N) (num_sources : nat) : json :=
  JDict [(Py.lit "retrieved", JList (map doc_json docs));
         (Py.lit "answer", JStr answer);
         (Py.lit "meta",
          JDict [(Py.lit "mode", JStr (Py.lit "rag"));
                 (Py.lit "evidence_score", evidence_json docs);
                 (Py.lit "num_sources", JInt (Z.of_nat num_sources))])].

(** [run_query] once the body of the request is read: [query] and [mode]
    are the two strings taken from it. [rag] is the module-level retriever.
    The request of the baseline and rag branches is tagged [Draft]: it
    writes the answer and no critic follows. Every branch ends in
    [JSONResponse], which renders the content or raises; the responsible
    branch does so inside [run_query_responsible]. *)
Definition run_query (E : Env) (rag : SimpleRAG) (query mode : list N)
  : M query_response :=
  match query with
  | [] =>
      (_ <- mlift (JSONResponse (error_content (Py.lit "Empty query"))) ;;
       mret (ErrorResponse (Py.lit "Empty query") 400))%M
  | _ =>
      if decide (mode = Py.lit "baseline") then
        (answer <- call_chat E Draft
           {| model := CHAT_MODEL; temperature := None; top_p := None;
              system_content := BASELINE_SYSTEM;
              user_content := query |} ;;
         _ <- mlift (JSONResponse (baseline_content answer)) ;;
         mret (BaselineResponse answer))%M
      else if decide (mode = Py.lit "rag") then
        (docs <- retrieve E rag query 3 ;;
         let texts := map (get_doc_text E) docs in
         let context := Py.join [Py.NL; Py.NL] texts in
         answer <- call_chat E Draft
           {| model := CHAT_MODEL; temperature := None; top_p := None;
              system_content := RAG_SYSTEM;
              user_content :=
                context ++ [Py.NL; Py.NL] ++ Py.lit "Question: " ++ query |} ;;
         _ <- mlift (JSONResponse (rag_content docs answer (length texts))) ;;
         mret (RagResponse docs answer (compute_evidence_score docs) (length texts)))%M
      else if decide (mode = Py.lit "responsible") then
        (r <- run_query_responsible E rag query ;;
         mret (ResponsibleResponse r))%M
      else
        (_ <- mlift (JSONResponse (error_content (Py.lit "Invalid mode specified"))) ;;
         mret (ErrorResponse (Py.lit "Invalid mode specified") 400))%M
  end.

(** ** compare_systems.py *)

Definition LLM_ONLY_SYSTEM : list N :=
  Py.lit "You are a helpful assistant answering questions about AI, responsible AI, AI regulations, and AI governance. Answer the user's question as best as you can, but you do NOT have access to any external documents.".

Definition SIMPLE_RAG_SYSTEM : list N :=
  Py.lit "You are an assistant that answers questions about responsible AI, AI principles, and AI regulations."
  ++ [Py.NL]
  ++ Py.lit "You are given a user question and several retrieved document chunks. Use ONLY the information in these documents to answer the question. If the documents are not sufficient, say that you are not sure instead of guessing.".

(** [answer_llm_only(query)] *)
Definition answer_llm_only (E : Env) (query : list N) : M (list N) :=
  call_chat E Draft
    {| model := CHAT_MODEL; temperature := None; top_p := None;
       system_content := LLM_ONLY_SYSTEM;
       user_content := query |}.

(** The [docs_text] of [answer_simple_rag]: [enumerate(..., start=1)] makes
    [i] start at 1, and the label is [i+1]. *)
Definition simple_rag_docs_text (docs sources : list (list N)) : list N :=
  Py.join [Py.NL; Py.NL]
    (imap (fun idx ds =>
             let i := (idx + 1)%nat in
             Py.lit "Document " ++ Py.str_of_nat (i + 1) ++ Py.lit " (source="
             ++ snd ds ++ Py.lit "):" ++ [Py.NL] ++ fst ds)
          (zip docs sources)).

(** The dictionary [answer_simple_rag] returns. *)
Record simple_rag_result := {
  sr_answer : list N;
  sr_retrieved_docs : list (list N);
  sr_sources : list (list N)
}.

(** [answer_simple_rag(query, k)]; [RAG] is the module-level retriever of
    [compare_systems.py]. *)
Definition answer_simple_rag (E : Env) (RAG : SimpleRAG) (query : list N) (k : Z)
  : M simple_rag_result :=
  (retrieved <- retrieve E RAG query k ;;
   let docs := map text retrieved in
   let sources := map source retrieved in
   answer <- call_chat E Draft
     {| model := CHAT_MODEL; temperature := None; top_p := None;
        system_content := SIMPLE_RAG_SYSTEM;
        user_content :=
          Py.lit "User question:" ++ [Py.NL] ++ query ++ [Py.NL; Py.NL]
          ++ Py.lit "Retrieved documents:" ++ [Py.NL]
          ++ simple_rag_docs_text docs sources ++ [Py.NL; Py.NL]
          ++ Py.lit "Now answer the user's question based on the documents above." |} ;;
   mret {| sr_answer := answer; sr_retrieved_docs := docs; sr_sources := sources |})%M.

(** What [compare_systems(query, k)] computes before it prints. [RAG] is
    the retriever of [compare_systems.py]; [run_pipeline] uses the one of
    [answer_pipeline.py], built by a separate call of the constructor. *)
Record comparison := {
  cmp_llm_only : list N;
  cmp_simple_rag : simple_rag_result;
  cmp_full : pipeline_run
}.

Definition compare_systems (E : Env) (RAG pipeline_RAG : SimpleRAG)
    (query : list N) (k : Z) : M comparison :=
  (llm_only_answer <- answer_llm_only E query ;;
   simple_rag_result <- answer_simple_rag E RAG query k ;;
   full_result <- run_pipeline E pipeline_RAG query k ;;
   mret {| cmp_llm_only := llm_only_answer;
           cmp_simple_rag := simple_rag_result;
           cmp_full := full_result |})%M.

(** ** scripts/experiment_loan_approval.py *)

Record TrustMetrics := {
  source_verifiability : list N;
  risk_visibility : list N;
  actionability : list N;
  user_confidence : list N
}.

(** [d.get(key, default)] on a dictionary. *)
Definition dict_get (d : list (list N * json)) (key : list N) (default : json)
  : json :=
  match list_find (fun kv => fst kv = key) d with
  | Some (_, kv) => snd kv
  | None => default
  end.

(** The marks of the report: the letter X, U+25B3 and U+2713. *)
Definition CROSS_MARK : list N := [88%N].

Definition TRIANGLE_MARK : list N := [9651%N].

Definition TICK_MARK : list N := [10003%N].

(** [simple_trust_metrics(mode, artifacts)]; [artifacts] is a dictionary of
    JSON-like values. The three [has_...] locals are computed and not used. *)
Definition simple_trust_metrics (mode : list N) (artifacts : list (list N * json))
  : outcome TrustMetrics :=
  let has_sources := truthy (dict_get artifacts (Py.lit "retrieved_docs") JNull) in
  let has_critic := truthy (dict_get artifacts (Py.lit "critic") JNull) in
  (suggestions <- py_get (dict_get artifacts (Py.lit "critic") (JDict []))
                         (Py.lit "suggestions") ;;
   let has_suggestions := truthy suggestions in
   if decide (mode = Py.lit "baseline") then
     Return {| source_verifiability := CROSS_MARK; risk_visibility := CROSS_MARK;
               actionability := TRIANGLE_MARK; user_confidence := CROSS_MARK |}
   else if decide (mode = Py.lit "rag") then
     Return {| source_verifiability := TICK_MARK; risk_visibility := TRIANGLE_MARK;
               actionability := TICK_MARK; user_confidence := TRIANGLE_MARK |}
   else
     Return {| source_verifiability := TICK_MARK ++ TICK_MARK;
               risk_visibility := TICK_MARK ++ TICK_MARK ++ TICK_MARK;
               actionability := TICK_MARK ++ TICK_MARK ++ TICK_MARK;
               user_confidence := TICK_MARK ++ TICK_MARK ++ TICK_MARK |})%outcome.

(** ** Notions used in the further statements *)

(** The words of the [i]-th iteration of the loop of [split_into_chunks]:
    [words[start : start + max_words]] with [start = i * (max_words - overlap)]. *)
Definition window (words : list (list N)) (max_words overlap : Z) (i : nat)
  : list (list N) :=
  Py.slice words (Z.of_nat i * (max_words - overlap))
                 (Z.of_nat i * (max_words - overlap) + max_words).

(** The number of starts [0, s, 2s, ...] below [n], for [s = max_words - overlap]. *)
Definition window_count (n : nat) (max_words overlap : Z) : nat :=
  Z.to_nat ((Z.of_nat n + (max_words - overlap) - 1) / (max_words - overlap)).

(** A list cut into consecutive pieces of [batch_size] items, the last one
    possibly shorter. *)
Definition batches {A} (l : list A) (batch_size : Z) : list (list A) :=
  map (fun i => take (Z.to_nat batch_size) (drop (i * Z.to_nat batch_size) l))
      (seq 0 (Z.to_nat ((Z.of_nat (length l) + batch_size - 1) / batch_size))).

(** The three modes [run_query] knows. *)
Definition known_mode (mode : list N) : Prop :=
  mode = Py.lit "baseline" \/ mode = Py.lit "rag" \/ mode = Py.lit "responsible".

(** The example environment with a chat service that is down. *)
Definition failing_chat_env : Env :=
  {| embeddings_create := embeddings_create example_env;
     chat_completions_create := fun _ _ => inl (OtherError "APIError");
     np_argsort := np_argsort example_env;
     json_loads := json_loads example_env;
     json_dumps := json_dumps example_env;
     unicode_upper := unicode_upper example_env;
     str_of_doc := str_of_doc example_env;
     PLANNER_SYSTEM_PROMPT := PLANNER_SYSTEM_PROMPT example_env;
     DRAFT_SYSTEM_PROMPT := DRAFT_SYSTEM_PROMPT example_env;
     CRITIC_SYSTEM_PROMPT := CRITIC_SYSTEM_PROMPT example_env;
     REVISION_SYSTEM_PROMPT := REVISION_SYSTEM_PROMPT example_env |}.

(** The example environment with an embedding service that answers the
    first call and refuses the later ones. *)
Definition flaky_embedding_env : Env :=
  {| embeddings_create := fun tr _ batch =>
       match tr with
       | [] => inr (map example_embedding batch)
       | _ => inl (OtherError "RateLimitError")
       end;
     chat_completions_create := chat_completions_create example_env;
     np_argsort := np_argsort example_env;
     json_loads := json_loads example_env;
     json_dumps := json_dumps example_env;
     unicode_upper := unicode_upper example_env;
     str_of_doc := str_of_doc example_env;
     PLANNER_SYSTEM_PROMPT := PLANNER_SYSTEM_PROMPT example_env;
     DRAFT_SYSTEM_PROMPT := DRAFT_SYSTEM_PROMPT example_env;
     CRITIC_SYSTEM_PROMPT := CRITIC_SYSTEM_PROMPT example_env;
     REVISION_SYSTEM_PROMPT := REVISION_SYSTEM_PROMPT example_env |}.

(** The artifacts [main] of the experiment script builds for the baseline
    system. *)
Definition baseline_artifacts : list (list N * json) :=
  [(Py.lit "retrieved_docs", JList []); (Py.lit "critic", JNull);
   (Py.lit "plan", JNull)].

(** A result whose similarity is NaN. *)
Definition nan_doc : doc :=
  {| text := Py.lit "chunk"; similarity := S754_nan; source := Py.lit "a.txt#0" |}.

(** An index whose only chunk was given the zero vector as its embedding. *)
Definition zero_row_index : SimpleRAG :=
  {| texts := [Py.lit "chunk"];
     sources := [Py.lit "a.txt#0"];
     embeddings := [[S754_zero false; S754_zero false]] |}.

(** A retrieved result [JSONResponse] can render. *)
Definition doc_renders (d : doc) : Prop :=
  is_finite (similarity d) = true
  /\ encodable (text d) = true /\ encodable (source d) = true.

(** A JSON value [JSONResponse] can render. *)
Definition json_renders (v : json) : Prop :=
  floats_finite v = true /\ strings_encodable v = true.

(* ===================================================================== *)
(** * Part II — properties                                                *)
(* ===================================================================== *)

(** ** Words, joining and stripping *)

Lemma split_go_word w acc rest :
  Forall (fun c => Py.is_space c = false) w ->
  Py.split_go acc (w ++ rest) = Py.split_go (rev w ++ acc) rest.
Proof.
  intros Hw. revert acc.
  induction Hw as [|c w Hc _ IH]; intros acc; simpl; [done|].
  rewrite Hc, IH. by rewrite <- app_assoc.
Qed.

Lemma split_join_words ws :
  Forall is_word ws -> Py.split (Py.join [Py.SPACE] ws) = ws.
Proof.
  unfold Py.split.
  induction 1 as [|w ws [Hne Hw] Hws IH]; [done|].
  destruct ws as [|w' ws'].
  - simpl. rewrite <- (app_nil_r w) at 1.
    rewrite split_go_word by done. simpl.
    rewrite app_nil_r, rev_involutive.
    destruct (rev w) eqn:Hr; [|done].
    apply (f_equal (@rev N)) in Hr. rewrite rev_involutive in Hr. done.
  - change (Py.join [Py.SPACE] (w :: w' :: ws'))
      with (w ++ [Py.SPACE] ++ Py.join [Py.SPACE] (w' :: ws')).
    remember (Py.join [Py.SPACE] (w' :: ws')) as j eqn:Hj.
    rewrite split_go_word by done.
    rewrite app_nil_r.
    change ([Py.SPACE] ++ j) with (Py.SPACE :: j).
    cbn [Py.split_go].
    change (Py.is_space Py.SPACE) with true. cbv iota.
    rewrite IH.
    destruct (rev w) eqn:Hr.
    + apply (f_equal (@rev N)) in Hr. rewrite rev_involutive in Hr. done.
    + rewrite <- Hr, rev_involutive. done.
Qed.

Lemma split_go_words acc s :
  Forall (fun c => Py.is_space c = false) acc ->
  Forall is_word (Py.split_go acc s).
Proof.
  revert acc. induction s as [|c s IH]; intros acc Hacc; simpl.
  - destruct acc as [|a acc']; [constructor|].
    constructor; [|constructor]. split.
    + intros Hr. apply (f_equal (@length N)) in Hr.
      rewrite length_rev in Hr. done.
    + apply Forall_rev. done.
  - destruct (Py.is_space c) eqn:Hc.
    + destruct acc as [|a acc']; [by apply IH|].
      constructor; [|by apply IH]. split.
      * intros Hr. apply (f_equal (@length N)) in Hr.
        rewrite length_rev in Hr. done.
      * apply Forall_rev. done.
    + apply IH. by constructor.
Qed.

Lemma split_words s : Forall is_word (Py.split s).
Proof. apply split_go_words. constructor. Qed.

Lemma split_lstrip s : Py.split (Py.lstrip s) = Py.split s.
Proof.
  unfold Py.split. induction s as [|c s IH]; simpl; [done|].
  destruct (Py.is_space c) eqn:Hc; [done|]. simpl. by rewrite Hc.
Qed.

Lemma split_go_cons acc c r :
  Py.split_go acc (c :: r) =
  if Py.is_space c then
    match acc with
    | [] => Py.split_go [] r
    | _ => rev acc :: Py.split_go [] r
    end
  else Py.split_go (c :: acc) r.
Proof. reflexivity. Qed.

Lemma split_go_rstrip acc s :
  Py.split_go acc (Py.rstrip s) = Py.split_go acc s.
Proof.
  revert acc. induction s as [|c s IH]; intros acc; [done|].
  cbn [Py.rstrip].
  destruct (Py.rstrip s) as [|d r'] eqn:Hr.
  - rewrite (split_go_cons acc c s).
    destruct (Py.is_space c) eqn:Hc.
    + destruct acc; by rewrite <- IH.
    + rewrite (split_go_cons acc c []), Hc. by rewrite <- IH.
  - rewrite (split_go_cons acc c s), (split_go_cons acc c (d :: r')).
    destruct (Py.is_space c); [destruct acc|]; by rewrite IH.
Qed.

Lemma split_strip s : Py.split (Py.strip s) = Py.split s.
Proof.
  unfold Py.strip. rewrite split_lstrip. apply split_go_rstrip.
Qed.

Lemma word_count_strip s : word_count (Py.strip s) = word_count s.
Proof. unfold word_count. by rewrite split_strip. Qed.

(** ** Slices *)

Lemma slice_Forall {A} (P : A -> Prop) (l : list A) a b :
  Forall P l -> Forall P (Py.slice l a b).
Proof. intros H. unfold Py.slice. by apply Forall_take, Forall_drop. Qed.

Lemma slice_window_length {A} (l : list A) start width :
  0 <= width -> Z.of_nat (length (Py.slice l start (start + width))) <= width.
Proof.
  intros Hw. unfold Py.slice, Py.clamp.
  rewrite length_take, length_drop.
  destruct (start <? 0) eqn:H1, (start + width <? 0) eqn:H2; lia.
Qed.

Lemma slice_prefix {A} (l : list A) (k : Z) :
  0 <= k -> Py.slice l 0 k = take (Z.to_nat k) l.
Proof.
  intros Hk. unfold Py.slice, Py.clamp.
  replace (0 <? 0) with false by done.
  destruct (Z.ltb_spec k 0); [lia|].
  replace (Z.to_nat (Z.min 0 (Z.of_nat (length l)))) with 0%nat by lia.
  rewrite drop_0, Nat.sub_0_r.
  destruct (decide (k <= Z.of_nat (length l))).
  - by replace (Z.min k (Z.of_nat (length l))) with k by lia.
  - replace (Z.min k (Z.of_nat (length l))) with (Z.of_nat (length l)) by lia.
    rewrite Nat2Z.id. rewrite !take_ge; [done|lia|lia].
Qed.

(** ** The chunking loop *)

Lemma chunk_loop_unfold fuel words max_words overlap start chunks :
  chunk_loop fuel words max_words overlap start chunks =
  if start <? Py.len words then
    match fuel with
    | O => None
    | S fuel' =>
        chunk_loop fuel' words max_words overlap (start + max_words - overlap)
          (chunks ++ [Py.strip (Py.join [Py.SPACE]
                                  (Py.slice words start (start + max_words)))])
    end
  else Some chunks.
Proof. destruct fuel; reflexivity. Qed.

(** With a positive stride, one unit of fuel per remaining word is enough. *)
Lemma chunk_loop_returns words max_words overlap :
  overlap < max_words ->
  forall fuel start chunks,
    Py.len words - start <= Z.of_nat fuel ->
    exists r, chunk_loop fuel words max_words overlap start chunks = Some r.
Proof.
  intros Hstride. induction fuel as [|fuel IH]; intros start chunks Hfuel;
    rewrite chunk_loop_unfold; destruct (start <? Py.len words) eqn:Hlt;
    try (eexists; reflexivity).
  - lia.
  - apply IH. lia.
Qed.

(** With a stride that is zero or negative, the window start never passes
    the end, whatever the fuel. *)
Lemma chunk_loop_stuck words max_words overlap :
  max_words <= overlap ->
  forall fuel start chunks,
    start < Py.len words ->
    chunk_loop fuel words max_words overlap start chunks = None.
Proof.
  intros Hstride. induction fuel as [|fuel IH]; intros start chunks Hstart;
    rewrite chunk_loop_unfold; destruct (start <? Py.len words) eqn:Hlt;
    try lia; [done|].
  apply IH. lia.
Qed.

Lemma chunk_word_count words start width :
  Forall is_word words -> 0 <= width ->
  Z.of_nat (word_count (Py.strip (Py.join [Py.SPACE]
                                   (Py.slice words start (start + width))))) <= width.
Proof.
  intros Hw Hwidth. rewrite word_count_strip. unfold word_count.
  rewrite split_join_words by by apply slice_Forall.
  by apply slice_window_length.
Qed.

Lemma chunk_loop_bounded words max_words overlap :
  Forall is_word words -> 0 <= max_words ->
  forall fuel start chunks r,
    Forall (fun c => Z.of_nat (word_count c) <= max_words) chunks ->
    chunk_loop fuel words max_words overlap start chunks = Some r ->
    Forall (fun c => Z.of_nat (word_count c) <= max_words) r.
Proof.
  intros Hw Hmax. induction fuel as [|fuel IH]; intros start chunks r Hchunks;
    rewrite chunk_loop_unfold; destruct (start <? Py.len words);
    intros Hr; try (by inversion Hr; subst); try done.
  eapply IH; [|exact Hr].
  apply Forall_app. split; [done|].
  constructor; [|constructor]. by apply chunk_word_count.
Qed.

Lemma split_into_chunks_returns text max_words overlap :
  overlap < max_words ->
  exists chunks,
    split_into_chunks (word_count text) text max_words overlap = Some chunks.
Proof.
  intros Hstride. unfold split_into_chunks, word_count.
  destruct (Py.split text) as [|w ws] eqn:Hsplit; [by eexists|].
  destruct (Py.len (w :: ws) <=? max_words); [by eexists|].
  apply chunk_loop_returns; [done|]. unfold Py.len. lia.
Qed.

Lemma split_into_chunks_stuck text max_words overlap :
  max_words <= overlap ->
  (0 < word_count text)%nat ->
  max_words < Z.of_nat (word_count text) ->
  forall fuel, split_into_chunks fuel text max_words overlap = None.
Proof.
  intros Hstride Hne Hlong fuel. unfold split_into_chunks, word_count in *.
  destruct (Py.split text) as [|w ws] eqn:Hsplit; [simpl in Hne; lia|].
  destruct (Py.len (w :: ws) <=? max_words) eqn:Hshort;
    [unfold Py.len in Hshort; lia|].
  apply chunk_loop_stuck; [done|]. unfold Py.len. simpl. lia.
Qed.

Lemma split_into_chunks_word_bound fuel text max_words overlap chunks :
  0 <= overlap ->
  split_into_chunks fuel text max_words overlap = Some chunks ->
  Forall (fun c => Z.of_nat (word_count c) <= max_words) chunks.
Proof.
  intros Hov. unfold split_into_chunks.
  pose proof (split_words text) as Hw.
  destruct (Py.split text) as [|w ws] eqn:Hsplit.
  { intros [= <-]. constructor. }
  destruct (Py.len (w :: ws) <=? max_words) eqn:Hshort.
  { intros [= <-]. constructor; [|constructor].
    rewrite word_count_strip. unfold word_count. rewrite Hsplit.
    unfold Py.len in Hshort. lia. }
  intros Hloop.
  destruct (decide (max_words <= overlap)) as [Hstuck|Hgo].
  - rewrite chunk_loop_stuck in Hloop; [done|done|unfold Py.len; simpl; lia].
  - eapply chunk_loop_bounded; [exact Hw| | |exact Hloop]; [lia|constructor].
Qed.

Lemma split_into_chunks_short fuel text max_words overlap :
  (0 < word_count text)%nat ->
  Z.of_nat (word_count text) <= max_words ->
  split_into_chunks fuel text max_words overlap = Some [Py.strip text].
Proof.
  intros Hne Hshort. unfold split_into_chunks, word_count in *.
  destruct (Py.split text) as [|w ws] eqn:Hsplit; [simpl in Hne; lia|].
  destruct (Py.len (w :: ws) <=? max_words) eqn:Hle; [done|].
  unfold Py.len in Hle. lia.
Qed.

(** ** Stripping twice *)

Lemma rstrip_idemp s : Py.rstrip (Py.rstrip s) = Py.rstrip s.
Proof.
  induction s as [|c s IH]; [done|]. cbn [Py.rstrip].
  destruct (Py.rstrip s) as [|d r'] eqn:Hr.
  - destruct (Py.is_space c) eqn:Hc; [done|]. simpl. by rewrite Hc.
  - cbn [Py.rstrip]. cbn [Py.rstrip] in IH. rewrite IH. done.
Qed.

Lemma lstrip_idemp s : Py.lstrip (Py.lstrip s) = Py.lstrip s.
Proof.
  induction s as [|c s IH]; [done|]. simpl.
  destruct (Py.is_space c) eqn:Hc; [done|]. simpl. by rewrite Hc.
Qed.

Lemma rstrip_lstrip s : Py.rstrip (Py.lstrip s) = Py.lstrip (Py.rstrip s).
Proof.
  induction s as [|c s IH]; [done|]. cbn [Py.lstrip Py.rstrip].
  destruct (Py.is_space c) eqn:Hc.
  - rewrite IH. destruct (Py.rstrip s) as [|d r']; [done|].
    cbn [Py.lstrip]. by rewrite Hc.
  - cbn [Py.rstrip]. destruct (Py.rstrip s) as [|d r'];
      rewrite ?Hc; cbn [Py.lstrip]; by rewrite ?Hc.
Qed.

Lemma strip_idemp s : Py.strip (Py.strip s) = Py.strip s.
Proof.
  unfold Py.strip.
  by rewrite rstrip_lstrip, rstrip_idemp, lstrip_idemp.
Qed.

(** ** The loops of [load_corpus] *)

Lemma para_chunks_returns para : exists chunks, para_chunks para = Some chunks.
Proof. apply split_into_chunks_returns. lia. Qed.

Lemma numbered_app names1 names2 :
  numbered (names1 ++ names2) =
  numbered names1 ++ imap (fun i nm => source_id nm (length names1 + i)) names2.
Proof. unfold numbered. rewrite imap_app. done. Qed.

Lemma add_chunk_state filename chunks names chunk :
  chunk <> [] ->
  add_chunk filename (state_of chunks names) chunk =
  state_of (chunks ++ [chunk]) (names ++ [filename]).
Proof.
  intros Hne. destruct chunk as [|c chunk]; [done|].
  unfold add_chunk, state_of. cbn [cs_texts cs_sources cs_chunk_index].
  f_equal.
  - rewrite numbered_app. simpl. by rewrite Nat.add_0_r.
  - rewrite length_app. simpl. lia.
Qed.

Lemma fold_add_chunk filename new chunks names :
  fold_left (add_chunk filename) new (state_of chunks names) =
  state_of (chunks ++ filter (fun c => c <> []) new)
           (names ++ replicate (length (filter (fun c => c <> []) new)) filename).
Proof.
  revert chunks names. induction new as [|c new IH]; intros chunks names.
  - simpl. by rewrite !app_nil_r.
  - cbn [fold_left]. destruct (decide (c = [])) as [->|Hne].
    + cbn [add_chunk]. rewrite IH. rewrite filter_cons_False by (intros H; by apply H).
      done.
    + rewrite add_chunk_state by done. rewrite IH.
      rewrite filter_cons_True by done. cbn [length replicate].
      by rewrite <- !app_assoc.
Qed.

Lemma fold_add_paragraph filename paras chunks names :
  ofold (add_paragraph filename) paras (state_of chunks names) =
  Return (state_of (chunks ++ flat_map para_chunk_list paras)
                   (names ++ replicate (length (flat_map para_chunk_list paras)) filename)).
Proof.
  revert chunks names. induction paras as [|p paras IH]; intros chunks names.
  - simpl. by rewrite !app_nil_r.
  - cbn [ofold flat_map]. unfold add_paragraph at 1, para_chunk_list at 1 3.
    destruct (para_chunks_returns p) as [cs ->]. cbn [obind].
    rewrite fold_add_chunk, IH.
    rewrite length_app, replicate_add. by rewrite <- !app_assoc.
Qed.

Lemma fold_add_file fs files chunks names :
  ofold (add_file fs) files (state_of chunks names) =
  (contents <- read_all fs files ;;
   Return (state_of (chunks ++ flat_map file_chunks contents)
                    (names ++ owners files contents)))%outcome.
Proof.
  revert chunks names. induction files as [|f files IH]; intros chunks names.
  - simpl. unfold owners. simpl. by rewrite !app_nil_r.
  - cbn [ofold read_all]. unfold add_file at 1.
    destruct (read_text fs f) as [e|content]; [done|].
    cbn [of_env obind]. rewrite fold_add_paragraph. cbn [obind]. rewrite IH.
    destruct (read_all fs files) as [contents|e|]; [|done|done].
    cbn [obind]. unfold owners. cbn [zip zip_with flat_map fst snd].
    fold (file_chunks content). by rewrite <- !app_assoc.
Qed.

(** [load_corpus] in closed form. *)
Lemma load_corpus_closed_form fs path :
  load_corpus fs path =
  if negb (isdir fs path) then Raise ValueError
  else
    match Py.sorted (glob_txt fs path) with
    | [] => Raise FileNotFoundError
    | files =>
        (contents <- read_all fs files ;;
         Return (flat_map file_chunks contents, numbered (owners files contents)))%outcome
    end.
Proof.
  unfold load_corpus. destruct (negb (isdir fs path)); [done|].
  destruct (Py.sorted (glob_txt fs path)) as [|f files] eqn:Hs; [done|].
  change {| cs_texts := []; cs_sources := []; cs_chunk_index := 0 |}
    with (state_of [] []).
  rewrite fold_add_file.
  destruct (read_all fs (f :: files)) as [contents|e|]; done.
Qed.

(** ** Source identifiers *)

Lemma uint_chars_digits u : Forall (fun c => c <> Py.HASH) (Py.uint_chars u).
Proof. induction u; simpl; constructor; done. Qed.

Lemma uint_chars_inj u v : Py.uint_chars u = Py.uint_chars v -> u = v.
Proof.
  revert v. induction u; intros v; destruct v; simpl; intros H;
    try discriminate; try reflexivity;
    injection H as H; f_equal; by apply IHu.
Qed.

Lemma str_of_nat_inj i j : Py.str_of_nat i = Py.str_of_nat j -> i = j.
Proof.
  unfold Py.str_of_nat. intros H. apply uint_chars_inj in H.
  rewrite <- (DecimalNat.Unsigned.of_to i), <- (DecimalNat.Unsigned.of_to j).
  by rewrite H.
Qed.

(** The text after the last [#] of a string decides the suffix. *)
Lemma hash_suffix_inj (a b d1 d2 : list N) :
  Forall (fun c => c <> Py.HASH) d1 ->
  Forall (fun c => c <> Py.HASH) d2 ->
  a ++ Py.HASH :: d1 = b ++ Py.HASH :: d2 ->
  d1 = d2.
Proof.
  intros H1 H2. revert b. induction a as [|x a IH]; intros [|y b] Heq; simpl in Heq.
  - by injection Heq.
  - injection Heq as <- ->. apply Forall_app in H1 as [_ H1].
    by inversion H1.
  - injection Heq as -> <-. apply Forall_app in H2 as [_ H2].
    by inversion H2.
  - injection Heq as _ Heq. by apply (IH b).
Qed.

Lemma source_id_index_inj n1 n2 i j :
  source_id n1 i = source_id n2 j -> i = j.
Proof.
  unfold source_id. simpl. intros H.
  apply hash_suffix_inj in H; [|apply uint_chars_digits..].
  by apply str_of_nat_inj.
Qed.

Lemma numbered_lookup names i :
  numbered names !! i = (fun nm => source_id nm i) <$> names !! i.
Proof. unfold numbered. by rewrite list_lookup_imap. Qed.

Lemma numbered_length names : length (numbered names) = length names.
Proof. unfold numbered. by rewrite length_imap. Qed.

Lemma numbered_NoDup names : NoDup (numbered names).
Proof.
  apply NoDup_alt. intros i j x Hi Hj.
  rewrite numbered_lookup in Hi, Hj.
  destruct (names !! i) as [a|]; [|done].
  destruct (names !! j) as [b|]; [|done].
  simpl in Hi, Hj. injection Hi as <-. injection Hj as Hj.
  symmetry in Hj. by apply source_id_index_inj in Hj.
Qed.

Lemma owners_length files contents :
  length files = length contents ->
  length (owners files contents) = length (flat_map file_chunks contents).
Proof.
  revert contents. induction files as [|f files IH]; intros [|c contents] Hlen;
    try done.
  unfold owners in *. cbn [zip zip_with flat_map fst snd].
  rewrite !length_app, length_replicate. f_equal. apply IH. simpl in Hlen. lia.
Qed.

Lemma read_all_length fs files contents :
  read_all fs files = Return contents -> length files = length contents.
Proof.
  revert contents. induction files as [|f files IH]; intros contents; simpl.
  - by intros [= <-].
  - destruct (read_text fs f) as [e|c]; [done|]. simpl.
    destruct (read_all fs files) as [cs|e|]; [|done|done]. simpl.
    intros [= <-]. simpl. f_equal. by apply IH.
Qed.

Lemma read_all_Forall2 fs files contents :
  read_all fs files = Return contents <->
  Forall2 (fun f c => read_text fs f = inr c) files contents.
Proof.
  revert contents. induction files as [|f files IH]; intros contents; simpl.
  - split; [intros [= <-]; constructor|by inversion 1].
  - split.
    + destruct (read_text fs f) as [e|c] eqn:Hr; [done|]. simpl.
      destruct (read_all fs files) as [cs|e|]; [|done|done]. simpl.
      intros [= <-]. constructor; [done|]. by apply IH.
    + inversion 1 as [|? c ? cs Hr Hrest]; subst. rewrite Hr. simpl.
      apply IH in Hrest. rewrite Hrest. done.
Qed.

(** ** The order on file names *)

Lemma str_leb_refl a : Py.str_leb a a = true.
Proof.
  induction a as [|x a IH]; [done|]. simpl.
  rewrite N.ltb_irrefl. done.
Qed.

#[local] Instance str_le_total : Total Py.str_le.
Proof.
  intros a. unfold Py.str_le. induction a as [|x a IH]; intros [|y b]; simpl; auto.
  destruct (N.ltb_spec x y), (N.ltb_spec y x); auto; lia.
Qed.

#[local] Instance str_le_trans : Transitive Py.str_le.
Proof.
  intros a. unfold Py.str_le.
  induction a as [|x a IH]; intros [|y b] [|z c]; simpl; try done.
  destruct (N.ltb_spec x y), (N.ltb_spec y x), (N.ltb_spec y z),
    (N.ltb_spec z y), (N.ltb_spec x z), (N.ltb_spec z x);
    try done; try lia.
  apply IH.
Qed.

#[local] Instance str_le_antisymm : AntiSymm (=) Py.str_le.
Proof.
  intros a. unfold Py.str_le.
  induction a as [|x a IH]; intros [|y b]; simpl; try done.
  destruct (N.ltb_spec x y), (N.ltb_spec y x); try done; try lia.
  intros H1 H2. f_equal; [lia|]. by apply IH.
Qed.

Lemma sorted_Permutation l : Py.sorted l ≡ₚ l.
Proof. apply merge_sort_Permutation. Qed.

(** The sorted list does not depend on the order in which the operating
    system lists the directory. *)
Lemma sorted_perm_eq l1 l2 : l1 ≡ₚ l2 -> Py.sorted l1 = Py.sorted l2.
Proof.
  intros Hp. apply (Sorted_unique Py.str_le).
  - apply Sorted_merge_sort. apply _.
  - apply Sorted_merge_sort. apply _.
  - unfold Py.sorted. by rewrite !merge_sort_Permutation.
Qed.

Lemma read_all_ext fs1 fs2 files :
  Forall (fun f => read_text fs1 f = read_text fs2 f) files ->
  read_all fs1 files = read_all fs2 files.
Proof.
  induction 1 as [|f files Hf _ IH]; [done|]. simpl. by rewrite Hf, IH.
Qed.

(** ** Termination of the chunking loop *)

Lemma chunk_loop_more_fuel words max_words overlap fuel extra :
  forall start chunks r,
    chunk_loop fuel words max_words overlap start chunks = Some r ->
    chunk_loop (fuel + extra) words max_words overlap start chunks = Some r.
Proof.
  induction fuel as [|fuel IH]; intros start chunks r.
  - rewrite (chunk_loop_unfold 0), (chunk_loop_unfold (0 + extra)).
    destruct (start <? Py.len words); done.
  - rewrite (chunk_loop_unfold (S fuel)), (chunk_loop_unfold (S fuel + extra)).
    destruct (start <? Py.len words); [|done]. simpl. apply IH.
Qed.

(** C10. The loop of [split_into_chunks] ends whenever
    [0 <= overlap < max_words]: one iteration per word of the text is
    enough, and more fuel gives the same chunks. When instead
    [overlap >= max_words] and the text has more than [max_words] words, the
    loop is entered and never left: no amount of fuel gives a result. *)
Theorem split_into_chunks_termination (text : list N) (max_words overlap : Z) :
  (0 <= overlap < max_words ->
   exists chunks, forall extra,
     split_into_chunks (word_count text + extra) text max_words overlap = Some chunks)
  /\
  (max_words <= overlap ->
   (0 < word_count text)%nat ->
   max_words < Z.of_nat (word_count text) ->
   forall fuel, split_into_chunks fuel text max_words overlap = None).
Proof.
  split.
  - intros [_ Hstride].
    destruct (split_into_chunks_returns text max_words overlap Hstride) as [chunks Hc].
    exists chunks. intros extra. revert Hc. unfold split_into_chunks.
    destruct (Py.split text) as [|w ws]; [done|].
    destruct (Py.len (w :: ws) <=? max_words); [done|].
    apply chunk_loop_more_fuel.
  - intros Hstride Hne Hlong fuel. by apply split_into_chunks_stuck.
Qed.

Lemma split_into_chunks_termination_witness :
  (exists chunks, forall extra,
      split_into_chunks (word_count (Py.lit "a b c d e") + extra)
        (Py.lit "a b c d e") 2 1 = Some chunks)
  /\ (forall fuel, split_into_chunks fuel (Py.lit "a b c d e") 2 2 = None).
Proof.
  split.
  - apply (proj1 (split_into_chunks_termination (Py.lit "a b c d e") 2 1)). lia.
  - apply (proj2 (split_into_chunks_termination (Py.lit "a b c d e") 2 2)).
    + lia.
    + vm_compute. lia.
    + vm_compute. reflexivity.
Defined.

(** ** Chunk sizes *)

Lemma paragraphs_stripped content para :
  para ∈ paragraphs content -> Py.strip para = para /\ (0 < word_count para)%nat.
Proof.
  unfold paragraphs. rewrite list_elem_of_omap. intros (p & _ & Hp).
  destruct (Py.strip p) as [|c q] eqn:Hs; [done|]. injection Hp as <-.
  split; [by rewrite <- Hs, strip_idemp|].
  rewrite <- Hs, word_count_strip. unfold word_count.
  destruct (Py.split p) as [|w ws] eqn:Hsp; [|simpl; lia].
  exfalso. assert (Hall : forall s acc, Py.split_go acc s = [] ->
                                   acc = [] /\ Forall (fun c => Py.is_space c = true) s).
  { clear. induction s as [|c s IH]; intros acc; simpl.
    - destruct acc; [done|discriminate].
    - destruct (Py.is_space c) eqn:Hc.
      + destruct acc; [|discriminate]. intros H. apply IH in H as [_ H].
        split; [done|]. by constructor.
      + intros H. apply IH in H as [H _]. discriminate. }
  apply Hall in Hsp as [_ Hsp].
  assert (Hrs : forall s, Forall (fun c => Py.is_space c = true) s -> Py.rstrip s = []).
  { clear. induction 1 as [|c s Hc _ IH]; [done|]. simpl. by rewrite IH, Hc. }
  unfold Py.strip in Hs. rewrite Hrs in Hs by done. done.
Qed.


Lemma para_chunk_list_bounded para :
  Forall (fun c => (word_count c <= 200)%nat) (para_chunk_list para).
Proof.
  unfold para_chunk_list, para_chunks.
  destruct (split_into_chunks (word_count para) para 200 40) as [cs|] eqn:Hc;
    [|constructor].
  apply split_into_chunks_word_bound in Hc; [|lia].
  apply Forall_forall. intros c Hin. apply list_elem_of_filter in Hin as [_ Hin].
  rewrite Forall_forall in Hc. specialize (Hc c Hin). lia.
Qed.

Lemma file_chunks_bounded content :
  Forall (fun c => (word_count c <= 200)%nat) (file_chunks content).
Proof.
  unfold file_chunks. apply Forall_flat_map, Forall_forall. intros p _.
  apply para_chunk_list_bounded.
Qed.

Lemma load_corpus_returns_inv fs path chunks ids :
  load_corpus fs path = Return (chunks, ids) ->
  isdir fs path = true /\
  exists contents,
    read_all fs (Py.sorted (glob_txt fs path)) = Return contents /\
    chunks = flat_map file_chunks contents /\
    ids = numbered (owners (Py.sorted (glob_txt fs path)) contents).
Proof.
  rewrite load_corpus_closed_form.
  destruct (isdir fs path); cbn [negb]; [|done].
  destruct (Py.sorted (glob_txt fs path)) as [|f files]; [done|]. cbv beta iota.
  destruct (read_all fs (f :: files)) as [contents|e|]; cbn [obind]; [|done|done].
  intros [= <- <-]. split; [done|]. by exists contents.
Qed.

Lemma short_paragraph_whole content para :
  para ∈ paragraphs content ->
  (word_count para <= 200)%nat ->
  para_chunk_list para = [para].
Proof.
  intros Hin Hshort. apply paragraphs_stripped in Hin as [Hstrip Hne].
  unfold para_chunk_list, para_chunks.
  rewrite split_into_chunks_short by lia. rewrite Hstrip.
  rewrite filter_cons_True; [done|].
  intros ->. unfold word_count in Hne. simpl in Hne. lia.
Qed.

Lemma flat_map_flat_map {A B C} (f : B -> list C) (g : A -> list B) (l : list A) :
  flat_map f (flat_map g l) = flat_map (fun x => flat_map f (g x)) l.
Proof.
  induction l as [|x l IH]; [done|]. simpl. by rewrite flat_map_app, IH.
Qed.

Lemma load_corpus_returns fs path :
  isdir fs path = true ->
  glob_txt fs path <> [] ->
  (forall f, f ∈ glob_txt fs path -> exists c, read_text fs f = inr c) ->
  exists chunks ids, load_corpus fs path = Return (chunks, ids).
Proof.
  intros Hdir Hne Hread. rewrite load_corpus_closed_form, Hdir. cbn [negb].
  destruct (Py.sorted (glob_txt fs path)) as [|f files] eqn:Hs.
  { exfalso. apply Hne. apply Permutation_nil_r.
    rewrite <- Hs. symmetry. apply sorted_Permutation. }
  cbv beta iota.
  assert (Hreads : forall l, Forall (fun g => exists c, read_text fs g = inr c) l ->
                             exists contents, read_all fs l = Return contents).
  { induction 1 as [|g gs [c Hc] _ [cs IH]]; [by eexists|].
    simpl. rewrite Hc. simpl. rewrite IH. by eexists. }
  assert (Hall : exists contents, read_all fs (f :: files) = Return contents).
  { apply Hreads, Forall_forall. intros g Hg. apply Hread.
    rewrite <- Hs in Hg. by rewrite sorted_Permutation in Hg. }
  destruct Hall as [contents ->]. cbn [obind]. by eexists _, _.
Qed.

Lemma load_corpus_pieces fs path chunks ids :
  load_corpus fs path = Return (chunks, ids) ->
  exists contents pieces,
    Forall2 (fun f c => read_text fs f = inr c) (Py.sorted (glob_txt fs path)) contents
    /\ Forall2 (fun para piece =>
                  Forall (fun c => (word_count c <= 200)%nat) piece
                  /\ ((word_count para <= 200)%nat -> piece = [para]))
               (flat_map paragraphs contents) pieces
    /\ chunks = concat pieces.
Proof.
  intros Hload.
  apply load_corpus_returns_inv in Hload as (_ & contents & Hread & -> & _).
  exists contents, (map para_chunk_list (flat_map paragraphs contents)).
  split; [by apply read_all_Forall2|]. split.
  - apply Forall2_fmap_r, Forall_Forall2_diag, Forall_forall.
    intros para Hin. split; [apply para_chunk_list_bounded|].
    apply list_elem_of_In, in_flat_map in Hin as (content & _ & Hin).
    apply list_elem_of_In in Hin. by apply (short_paragraph_whole content).
  - rewrite <- flat_map_concat_map, flat_map_flat_map. done.
Qed.

Lemma load_corpus_short_paragraph fs path chunks ids f content p :
  load_corpus fs path = Return (chunks, ids) ->
  f ∈ glob_txt fs path ->
  read_text fs f = inr content ->
  p ∈ Py.split_blank_lines content ->
  Py.strip p <> [] ->
  (word_count (Py.strip p) <= 200)%nat ->
  Py.strip p ∈ chunks.
Proof.
  intros Hload Hf Hread Hp Hne Hshort.
  apply load_corpus_returns_inv in Hload as (_ & contents & Hall & -> & _).
  apply read_all_Forall2 in Hall.
  rewrite <- sorted_Permutation in Hf.
  apply list_elem_of_lookup in Hf as [i Hi].
  destruct (Forall2_lookup_l _ _ _ _ _ Hall Hi) as (c & Hc & Hrc).
  assert (c = content) as -> by congruence.
  assert (Hpara : Py.strip p ∈ paragraphs content).
  { unfold paragraphs. apply list_elem_of_omap. exists p. split; [done|].
    by destruct (Py.strip p). }
  apply list_elem_of_In, in_flat_map. exists content. split.
  - apply list_elem_of_In. by apply list_elem_of_lookup_2 in Hc.
  - unfold file_chunks. apply in_flat_map. exists (Py.strip p).
    split; [by apply list_elem_of_In|].
    rewrite (short_paragraph_whole content) by done. by left.
Qed.

(** C5. With overlap 40, whatever the configured maximum: every chunk that
    [split_into_chunks] returns has at most [max_words] words; it does
    return when the maximum exceeds the overlap (the default 200 does); a
    text with at least one and at most [max_words] words comes back as the
    single chunk [text.strip()]. For a corpus: [load_corpus] returns when
    the path is a directory that lists at least one text file and every
    listed file can be read; every chunk it returns has at most 200 words;
    the chunks it returns are the pieces of the paragraphs of the files,
    file after file in sorted order and paragraph after paragraph, where
    the piece of a paragraph of at most 200 words is the paragraph itself,
    as one chunk; so every stripped, non-empty piece between blank lines of
    a listed file that has at most 200 words is a chunk of the corpus. *)
Theorem chunk_word_count_bounded :
  (forall (max_words : Z) (text : list N) (fuel : nat) (chunks : list (list N)),
      split_into_chunks fuel text max_words 40 = Some chunks ->
      Forall (fun c => Z.of_nat (word_count c) <= max_words) chunks)
  /\ (forall (max_words : Z) (text : list N),
         40 < max_words ->
         exists chunks,
           split_into_chunks (word_count text) text max_words 40 = Some chunks)
  /\ (forall (max_words : Z) (text : list N) (fuel : nat),
         (0 < word_count text)%nat ->
         Z.of_nat (word_count text) <= max_words ->
         split_into_chunks fuel text max_words 40 = Some [Py.strip text])
  /\ (forall (fs : FileSystem) (path : list N) (chunks ids : list (list N)),
         load_corpus fs path = Return (chunks, ids) ->
         Forall (fun c => (word_count c <= 200)%nat) chunks)
  /\ (forall (content para : list N),
         para ∈ paragraphs content ->
         (word_count para <= 200)%nat ->
         para_chunk_list para = [para])
  /\ (forall (fs : FileSystem) (path : list N),
         isdir fs path = true ->
         glob_txt fs path <> [] ->
         (forall f, f ∈ glob_txt fs path -> exists c, read_text fs f = inr c) ->
         exists chunks ids, load_corpus fs path = Return (chunks, ids))
  /\ (forall (fs : FileSystem) (path : list N) (chunks ids : list (list N)),
         load_corpus fs path = Return (chunks, ids) ->
         exists contents pieces,
           Forall2 (fun f c => read_text fs f = inr c)
                   (Py.sorted (glob_txt fs path)) contents
           /\ Forall2 (fun para piece =>
                         Forall (fun c => (word_count c <= 200)%nat) piece
                         /\ ((word_count para <= 200)%nat -> piece = [para]))
                      (flat_map paragraphs contents) pieces
           /\ chunks = concat pieces)
  /\ (forall (fs : FileSystem) (path : list N) (chunks ids : list (list N))
             (f content p : list N),
         load_corpus fs path = Return (chunks, ids) ->
         f ∈ glob_txt fs path ->
         read_text fs f = inr content ->
         p ∈ Py.split_blank_lines content ->
         Py.strip p <> [] ->
         (word_count (Py.strip p) <= 200)%nat ->
         Py.strip p ∈ chunks).
Proof.
  split; [|split; [|split; [|split; [|split; [|split; [|split]]]]]].
  - intros max_words text fuel chunks. apply split_into_chunks_word_bound. lia.
  - intros max_words text Hmax. by apply split_into_chunks_returns.
  - intros max_words text fuel. apply split_into_chunks_short.
  - intros fs path chunks ids Hload.
    apply load_corpus_returns_inv in Hload as (_ & contents & _ & -> & _).
    apply Forall_flat_map, Forall_forall. intros c _. apply file_chunks_bounded.
  - apply short_paragraph_whole.
  - apply load_corpus_returns.
  - apply load_corpus_pieces.
  - apply load_corpus_short_paragraph.
Qed.

Lemma chunk_word_count_bounded_witness :
  (exists chunks,
      split_into_chunks 50 (flat_map (fun _ => [97%N; 32%N]) (seq 0 50)) 41 40
        = Some chunks
      /\ length chunks = 50%nat
      /\ Forall (fun c => Z.of_nat (word_count c) <= 41) chunks
      /\ split_into_chunks 0 (Py.lit " a b ") 41 40 = Some [Py.lit "a b"])
  /\ (exists chunks ids,
         load_corpus example_fs (Py.lit "data") = Return (chunks, ids)
         /\ Py.lit "fair and transparent" ∈ chunks
         /\ Py.lit "OpenAI is a company." ∈ chunks).
Proof.
  destruct chunk_word_count_bounded
    as (Hbound & _ & Hshort & _ & _ & Hreturns & _ & Hwhole).
  split.
  - eexists. split; [vm_compute; reflexivity|].
    split; [reflexivity|]. split.
    + apply (Hbound 41 (flat_map (fun _ => [97%N; 32%N]) (seq 0 50)) 50%nat).
      vm_compute. reflexivity.
    + apply (Hshort 41 (Py.lit " a b ") 0%nat); vm_compute; [lia|discriminate].
  - destruct (Hreturns example_fs (Py.lit "data")) as (chunks & ids & Hload).
    + reflexivity.
    + discriminate.
    + intros f Hf. vm_compute in Hf.
      apply elem_of_cons in Hf as [->|Hf]; [by eexists|].
      apply elem_of_cons in Hf as [->|Hf]; [by eexists|].
      by apply elem_of_nil in Hf.
    + exists chunks, ids. split; [exact Hload|]. split.
      * apply (Hwhole example_fs (Py.lit "data") chunks ids (Py.lit "data/b.txt")
                 (Py.lit " fair and transparent ") (Py.lit " fair and transparent "));
          [exact Hload|vm_compute; apply list_elem_of_here|reflexivity
          |vm_compute; apply list_elem_of_here|discriminate|vm_compute; lia].
      * apply (Hwhole example_fs (Py.lit "data") chunks ids (Py.lit "data/a.txt")
                 (Py.lit "Responsible AI is safe." ++ [Py.NL; Py.NL]
                  ++ Py.lit "OpenAI is a company.")
                 (Py.lit "OpenAI is a company."));
          [exact Hload|vm_compute; apply list_elem_of_further, list_elem_of_here
          |reflexivity
          |vm_compute; apply list_elem_of_further, list_elem_of_here
          |discriminate|vm_compute; lia].
Defined.

(** ** Source ids of a loaded corpus *)

Lemma owners_from_files files contents nm :
  nm ∈ owners files contents -> exists f, f ∈ files /\ nm = basename f.
Proof.
  unfold owners. rewrite list_elem_of_In, in_flat_map.
  intros ([f c] & Hin & Hnm). simpl in Hnm.
  apply list_elem_of_In, elem_of_replicate_inv in Hnm.
  exists f. split; [|done].
  apply list_elem_of_In in Hin. apply elem_of_zip_l in Hin. done.
Qed.

(** C6. After a load, the source ids are pairwise distinct; there is one
    per chunk; the id at position [i] of the corpus is
    [<name>#<i>] with [<name>] the base name of one of the directory's text
    files, so the index is the position in the whole corpus and never
    restarts at a new document; and the names follow the files in sorted
    order, each repeated once per chunk of that file. *)
Theorem source_ids_unique_and_numbered
    (fs : FileSystem) (path : list N) (chunks ids : list (list N)) :
  load_corpus fs path = Return (chunks, ids) ->
  NoDup ids
  /\ length ids = length chunks
  /\ (forall (i : nat) (s : list N),
         ids !! i = Some s ->
         exists f, f ∈ glob_txt fs path /\
                   s = basename f ++ [Py.HASH] ++ Py.str_of_nat i)
  /\ (exists contents,
         read_all fs (Py.sorted (glob_txt fs path)) = Return contents /\
         chunks = flat_map file_chunks contents /\
         ids = numbered (owners (Py.sorted (glob_txt fs path)) contents)).
Proof.
  intros Hload.
  apply load_corpus_returns_inv in Hload as (_ & contents & Hread & -> & ->).
  split; [apply numbered_NoDup|].
  split.
  { rewrite numbered_length. apply owners_length. by eapply read_all_length. }
  split; [|by exists contents].
  intros i s Hi. rewrite numbered_lookup in Hi.
  destruct (owners (Py.sorted (glob_txt fs path)) contents !! i) as [nm|] eqn:Hnm;
    [|done].
  injection Hi as <-.
  apply list_elem_of_lookup_2 in Hnm. apply owners_from_files in Hnm as (f & Hf & ->).
  exists f. split; [|done]. by rewrite sorted_Permutation in Hf.
Qed.

Lemma source_ids_unique_and_numbered_witness :
  NoDup [Py.lit "a.txt#0"; Py.lit "a.txt#1"; Py.lit "b.txt#2"].
Proof.
  apply (source_ids_unique_and_numbered example_fs (Py.lit "data")
           [Py.lit "Responsible AI is safe."; Py.lit "OpenAI is a company.";
            Py.lit "fair and transparent"]
           [Py.lit "a.txt#0"; Py.lit "a.txt#1"; Py.lit "b.txt#2"]).
  vm_compute. reflexivity.
Defined.

(** ** Two loads of the same directory *)

(** C9. Two loads agree whenever the two directory states agree: the path
    is a directory in both, the same text files are listed (in whatever
    order the operating system gives them) and each file reads the same.
    The chunk texts, their order and the source ids are then identical, and
    so is the error when the load fails. *)
Theorem load_corpus_deterministic (fs1 fs2 : FileSystem) (path : list N) :
  isdir fs1 path = isdir fs2 path ->
  glob_txt fs1 path ≡ₚ glob_txt fs2 path ->
  (forall f, f ∈ glob_txt fs1 path -> read_text fs1 f = read_text fs2 f) ->
  load_corpus fs1 path = load_corpus fs2 path.
Proof.
  intros Hdir Hglob Hread. rewrite !load_corpus_closed_form.
  rewrite <- Hdir, <- (sorted_perm_eq _ _ Hglob).
  destruct (negb (isdir fs1 path)); [done|].
  destruct (Py.sorted (glob_txt fs1 path)) as [|f files] eqn:Hs; [done|].
  cbv beta match zeta.
  rewrite (read_all_ext fs1 fs2); [done|].
  apply Forall_forall. intros g Hg. apply Hread.
  rewrite <- sorted_Permutation, Hs. done.
Qed.

Lemma load_corpus_deterministic_witness :
  load_corpus example_fs (Py.lit "data")
  = load_corpus example_fs_relisted (Py.lit "data").
Proof.
  apply (load_corpus_deterministic example_fs example_fs_relisted (Py.lit "data")).
  - reflexivity.
  - vm_compute. apply perm_swap.
  - intros f _. reflexivity.
Defined.

(** ** Failures of index construction *)

Lemma read_all_returns_iff fs files :
  (exists contents, read_all fs files = Return contents) <->
  Forall (fun f => exists c, read_text fs f = inr c) files.
Proof.
  induction files as [|f files IH]; simpl.
  - split; [constructor|by eexists].
  - split.
    + intros [contents H]. destruct (read_text fs f) as [e|c] eqn:Hr; [done|].
      simpl in H. destruct (read_all fs files) as [cs|e|] eqn:Hall; [|done|done].
      constructor; [by eexists|]. apply IH. by eexists.
    + inversion 1 as [|? ? [c Hc] Hrest]; subst. rewrite Hc. simpl.
      apply IH in Hrest as [cs ->]. by eexists.
Qed.

Lemma read_all_not_diverge fs files : read_all fs files <> Diverge.
Proof.
  induction files as [|f files IH]; simpl; [done|].
  destruct (read_text fs f) as [e|c]; [done|]. simpl.
  destruct (read_all fs files) as [cs|e|]; done.
Qed.

Lemma sorted_nil_iff l : Py.sorted l = [] <-> l = [].
Proof.
  split.
  - intros H. apply Permutation_nil_r. rewrite <- H. by rewrite sorted_Permutation.
  - by intros ->.
Qed.

Lemma SimpleRAG_init_load_raises E fs path tr e :
  load_corpus fs path = Raise e ->
  SimpleRAG_init E fs path tr = (Raise e, tr).
Proof. intros H. unfold SimpleRAG_init, mbind, mlift. by rewrite H. Qed.

Lemma SimpleRAG_init_empty E fs path tr ids :
  load_corpus fs path = Return ([], ids) ->
  SimpleRAG_init E fs path tr = (Raise ValueError, tr).
Proof. intros H. unfold SimpleRAG_init, mbind, mlift. by rewrite H. Qed.

(** C7, as the code has it. Loading fails with [ValueError] when the path is
    not a directory and with [FileNotFoundError] when the directory lists no
    text file, and index construction fails the same way, before any call to
    the embedding service. Loading returns the two lists exactly when the
    path is a directory, lists at least one text file, and every listed
    file can be read; it never hangs. Index construction fails in one more
    case: when loading returns no chunk, [embed_texts] refuses the empty
    list with [ValueError]. *)
Theorem index_construction_failures
    (E : Env) (fs : FileSystem) (path : list N) (tr : list event) :
  (isdir fs path = false ->
   load_corpus fs path = Raise ValueError /\
   SimpleRAG_init E fs path tr = (Raise ValueError, tr))
  /\ (isdir fs path = true -> glob_txt fs path = [] ->
      load_corpus fs path = Raise FileNotFoundError /\
      SimpleRAG_init E fs path tr = (Raise FileNotFoundError, tr))
  /\ ((exists loaded, load_corpus fs path = Return loaded) <->
      (isdir fs path = true /\ glob_txt fs path <> [] /\
       Forall (fun f => exists c, read_text fs f = inr c) (glob_txt fs path)))
  /\ load_corpus fs path <> Diverge
  /\ (forall ids, load_corpus fs path = Return ([], ids) ->
                  SimpleRAG_init E fs path tr = (Raise ValueError, tr)).
Proof.
  split; [|split; [|split; [|split]]].
  - intros Hdir.
    assert (Hl : load_corpus fs path = Raise ValueError)
      by (unfold load_corpus; by rewrite Hdir).
    split; [done|]. by apply SimpleRAG_init_load_raises.
  - intros Hdir Hglob.
    assert (Hl : load_corpus fs path = Raise FileNotFoundError)
      by (unfold load_corpus; by rewrite Hdir, Hglob).
    split; [done|]. by apply SimpleRAG_init_load_raises.
  - rewrite load_corpus_closed_form.
    destruct (isdir fs path); cbn [negb].
    2:{ split.
        - intros [? H]. discriminate H.
        - intros [H _]. discriminate H. }
    destruct (Py.sorted (glob_txt fs path)) as [|f files] eqn:Hs.
    + apply (proj1 (sorted_nil_iff _)) in Hs. split; [intros [? H]; discriminate H|intros (_ & Hne & _); exfalso; apply Hne; exact Hs].
    + cbv beta match zeta.
      assert (Hne : glob_txt fs path <> []).
      { intros Hnil. apply (proj2 (sorted_nil_iff _)) in Hnil. congruence. }
      assert (Hall : Forall (fun f => exists c, read_text fs f = inr c) (glob_txt fs path)
                     <-> Forall (fun f => exists c, read_text fs f = inr c) (f :: files)).
      { rewrite <- Hs. by rewrite sorted_Permutation. }
      rewrite Hall, <- read_all_returns_iff.
      split.
      * intros [loaded H].
        destruct (read_all fs (f :: files)) as [cs|e|]; [|done|done].
        split; [done|]. split; [done|]. by eexists.
      * intros (_ & _ & [cs ->]). by eexists.
  - rewrite load_corpus_closed_form.
    destruct (negb (isdir fs path)); [done|].
    destruct (Py.sorted (glob_txt fs path)) as [|f files]; [done|].
    cbv beta match zeta.
    pose proof (read_all_not_diverge fs (f :: files)) as Hnd.
    destruct (read_all fs (f :: files)); done.
  - intros ids. apply SimpleRAG_init_empty.
Qed.

Lemma index_construction_failures_witness :
  SimpleRAG_init example_env example_fs (Py.lit "nowhere") [] = (Raise ValueError, [])
  /\ SimpleRAG_init example_env blank_fs (Py.lit "data") [] = (Raise ValueError, []).
Proof.
  split.
  - apply (proj1 (index_construction_failures example_env example_fs (Py.lit "nowhere") [])).
    reflexivity.
  - destruct (index_construction_failures example_env blank_fs (Py.lit "data") [])
      as (_ & _ & _ & _ & H).
    apply (H []). vm_compute. reflexivity.
Defined.

(** C7 as first stated fails: a directory with one blank text file is a
    directory and lists a text file, yet index construction raises. *)
Lemma blank_corpus_fails_index_construction :
  ~ (forall (E : Env) (fs : FileSystem) (path : list N) (tr : list event),
        (exists e tr', SimpleRAG_init E fs path tr = (Raise e, tr')) <->
        (isdir fs path = false \/ glob_txt fs path = [])).
Proof.
  intros H.
  destruct (H example_env blank_fs (Py.lit "data") []) as [Hfail _].
  destruct Hfail as [Hdir|Hglob].
  - exists ValueError, []. vm_compute. reflexivity.
  - discriminate Hdir.
  - discriminate Hglob.
Qed.

(** ** Batching of the embedding requests *)

Lemma slice_nat {A} (l : list A) (lo hi : nat) :
  Py.slice l (Z.of_nat lo) (Z.of_nat hi) =
  take (Nat.min hi (length l) - Nat.min lo (length l)) (drop (Nat.min lo (length l)) l).
Proof.
  unfold Py.slice, Py.clamp.
  destruct (Z.ltb_spec (Z.of_nat lo) 0); [lia|].
  destruct (Z.ltb_spec (Z.of_nat hi) 0); [lia|].
  rewrite <- !Nat2Z.inj_min, !Nat2Z.id. done.
Qed.

Lemma slice_batch {A} (l : list A) (i : nat) (b : Z) :
  0 < b ->
  Py.slice l (Z.of_nat i * b) (Z.of_nat i * b + b) =
  take (Z.to_nat b) (drop (i * Z.to_nat b) l).
Proof.
  intros Hb. destruct (Z_of_nat_complete b) as [b' ->]; [lia|].
  rewrite Nat2Z.id, <- Nat2Z.inj_mul, <- Nat2Z.inj_add, slice_nat.
  destruct (decide (i * b' <= length l)%nat) as [Hin|Hout].
  - rewrite (Nat.min_l (i * b')) by done.
    destruct (decide (i * b' + b' <= length l)%nat) as [Hfull|Hpart].
    + f_equal. lia.
    + rewrite !take_ge; [done|rewrite length_drop; lia..].
  - rewrite (drop_ge l (i * b')) by lia.
    rewrite take_nil, drop_ge by lia. by rewrite take_nil.
Qed.

Lemma take_add_drop {A} (l : list A) (a c : nat) :
  take (a + c) l = take a l ++ take c (drop a l).
Proof.
  revert l. induction a as [|a IH]; intros [|x l]; simpl; try done.
  - by rewrite take_nil.
  - by rewrite IH.
Qed.

Lemma concat_batches {A} (l : list A) (b m : nat) :
  concat (map (fun i => take b (drop (i * b) l)) (seq 0 m)) = take (m * b) l.
Proof.
  induction m as [|m IH]; [done|].
  rewrite seq_S, map_app, concat_app, IH. simpl.
  rewrite app_nil_r. rewrite (Nat.add_comm b (m * b)). by rewrite take_add_drop.
Qed.

(** The batches that [range(0, len(texts), batch_size)] cuts cover the
    list, in order. *)
Lemma batches_cover {A} (l : list A) (b : Z) starts :
  0 < b ->
  range0 (length l) b = Return starts ->
  concat (map (fun s => Py.slice l s (s + b)) starts) = l.
Proof.
  intros Hb. unfold range0.
  destruct (Z.eqb_spec b 0); [lia|]. destruct (Z.ltb_spec b 0); [lia|].
  intros [= <-]. rewrite map_map.
  erewrite map_ext; [|intros i; by apply slice_batch].
  rewrite concat_batches. apply take_ge.
  pose proof (Z.div_mod (Z.of_nat (length l) + b - 1) b ltac:(lia)) as Hdm.
  pose proof (Z.mod_pos_bound (Z.of_nat (length l) + b - 1) b Hb) as Hmod.
  assert (0 <= (Z.of_nat (length l) + b - 1) / b) by (apply Z.div_pos; lia).
  nia.
Qed.

Lemma embed_loop_pure E embed_one texts (b : Z) :
  pure_embedder E embed_one ->
  forall starts acc tr,
    mfold (fun all_vectors start =>
             (batch_vectors <- call_embeddings E (Py.slice texts start (start + b)) ;;
              mret (all_vectors ++ batch_vectors))%M)
          starts acc tr
    = (Return (acc ++ map embed_one
                 (concat (map (fun s => Py.slice texts s (s + b)) starts))),
       tr ++ map (fun s => EmbedCall (Py.slice texts s (s + b))) starts).
Proof.
  intros Hpure. induction starts as [|s starts IH]; intros acc tr.
  - simpl. unfold mret. by rewrite !app_nil_r.
  - cbn [mfold]. unfold mbind at 1. unfold mbind at 1, call_embeddings at 1.
    rewrite Hpure. cbn [of_env]. unfold mret at 1.
    rewrite IH. cbn [map concat]. rewrite map_app.
    by rewrite <- !app_assoc.
Qed.

Lemma embed_texts_pure E embed_one texts (b : Z) tr :
  pure_embedder E embed_one ->
  texts <> [] -> 0 < b ->
  exists calls,
    embed_texts E texts b tr = (np_array_f32 (map embed_one texts), tr ++ calls).
Proof.
  intros Hpure Hne Hb. unfold embed_texts.
  destruct texts as [|t texts]; [done|].
  destruct (range0 (length (t :: texts)) b) as [starts|e|] eqn:Hrange.
  - unfold mbind at 1, mlift at 1.
    unfold mbind at 1.
    rewrite (embed_loop_pure E embed_one (t :: texts) b Hpure).
    rewrite (batches_cover (t :: texts) b starts Hb Hrange).
    rewrite app_nil_l. unfold mlift. by eexists.
  - unfold range0 in Hrange. destruct (Z.eqb_spec b 0); [lia|].
    destruct (b <? 0); done.
  - unfold range0 in Hrange. destruct (b =? 0); [done|].
    destruct (b <? 0); done.
Qed.

Lemma np_array_f32_rows rows M :
  np_array_f32 rows = Return M -> M = map (map to_f32) rows.
Proof.
  unfold np_array_f32. destruct rows as [|r0 rows]; [by intros [= <-]|].
  destruct (forallb _ _); [by intros [= <-]|done].
Qed.

(** C8. For a non-empty list of texts and an embedding service that is a
    pure function of each text, [embed_texts] gives the same outcome for any
    two positive batch sizes: the outcome is that of converting the
    unbatched list of vectors, and when it is a matrix, it has one row per
    text, row [i] being the float32 image of the vector of [texts[i]]. *)
Theorem embed_texts_batch_independent
    (E : Env) (embed_one : list N -> list spec_float)
    (texts : list (list N)) (b1 b2 : Z) (tr1 tr2 : list event) :
  pure_embedder E embed_one ->
  texts <> [] -> 0 < b1 -> 0 < b2 ->
  fst (embed_texts E texts b1 tr1) = fst (embed_texts E texts b2 tr2)
  /\ fst (embed_texts E texts b1 tr1) = np_array_f32 (map embed_one texts)
  /\ (forall rows,
         fst (embed_texts E texts b1 tr1) = Return rows ->
         length rows = length texts /\
         forall i t, texts !! i = Some t ->
                     rows !! i = Some (map to_f32 (embed_one t))).
Proof.
  intros Hpure Hne Hb1 Hb2.
  destruct (embed_texts_pure E embed_one texts b1 tr1 Hpure Hne Hb1) as [c1 H1].
  destruct (embed_texts_pure E embed_one texts b2 tr2 Hpure Hne Hb2) as [c2 H2].
  rewrite H1, H2. cbn [fst]. split; [done|]. split; [done|].
  intros rows Hrows. apply np_array_f32_rows in Hrows as ->.
  split; [by rewrite !length_map|].
  intros i t Hi.
  change (map (map to_f32) (map embed_one texts))
    with ((map to_f32) <$> (embed_one <$> texts)).
  by rewrite !list_lookup_fmap, Hi.
Qed.

Lemma embed_texts_batch_independent_witness :
  fst (embed_texts example_env [Py.lit "a"; Py.lit "b"; Py.lit "c"] 1 [])
  = fst (embed_texts example_env [Py.lit "a"; Py.lit "b"; Py.lit "c"] 64 []).
Proof.
  apply (embed_texts_batch_independent example_env example_embedding
           [Py.lit "a"; Py.lit "b"; Py.lit "c"] 1 64 [] []).
  - intros tr m batch. reflexivity.
  - discriminate.
  - lia.
  - lia.
Defined.

(** ** The order numpy sorts floats by *)

Lemma np_lt_key a b : np_lt a b = true <-> key_lt (np_key a) (np_key b).
Proof.
  unfold np_lt, SFltb, key_lt.
  destruct a as [sa|sa| |sa ma ea], b as [sb|sb| |sb mb eb];
    try destruct sa; try destruct sb; cbn; try (split; [done|lia]);
    try (split; [lia|done]); try (split; intros; lia).
  - (* both negative *)
    rewrite Pos.compare_cont_spec. cbn.
    destruct (Z.compare_spec ea eb); destruct (Pos.compare_spec ma mb);
      cbn; split; try done; try lia.
  - (* both positive *)
    rewrite Pos.compare_cont_spec. cbn.
    destruct (Z.compare_spec ea eb); destruct (Pos.compare_spec ma mb);
      cbn; split; try done; try lia.
Qed.

Lemma np_lt_false_key a b :
  np_lt a b = false <-> ~ key_lt (np_key a) (np_key b).
Proof. rewrite <- np_lt_key. destruct (np_lt a b); split; congruence. Qed.

Lemma np_lt_asym a b : np_lt a b = true -> np_lt b a = false.
Proof. rewrite np_lt_key, np_lt_false_key. unfold key_lt. lia. Qed.

Lemma np_lt_neg_trans a b c :
  np_lt b a = false -> np_lt c b = false -> np_lt c a = false.
Proof. rewrite !np_lt_false_key. unfold key_lt. lia. Qed.

(** ** Insertion sorts meet the contract of argsort *)

Lemma insert_index_Permutation v i l : insert_index v i l ≡ₚ i :: l.
Proof.
  induction l as [|j l IH]; simpl; [done|].
  destruct (np_lt (v !!! j) (v !!! i)); [|done].
  rewrite IH. apply perm_swap.
Qed.

Lemma insert_index_sorted v i l :
  StronglySorted (fun i j => np_lt (v !!! j) (v !!! i) = false) l ->
  StronglySorted (fun i j => np_lt (v !!! j) (v !!! i) = false) (insert_index v i l).
Proof.
  induction 1 as [|j l Hl IH Hj]; simpl.
  - repeat constructor.
  - destruct (np_lt (v !!! j) (v !!! i)) eqn:Hlt.
    + constructor; [done|].
      rewrite insert_index_Permutation. constructor; [|done].
      by apply np_lt_asym.
    + constructor; [by constructor|].
      constructor; [done|].
      eapply Forall_impl; [exact Hj|]. intros x Hx. cbn beta in *.
      by eapply np_lt_neg_trans.
Qed.

Lemma argsort_from_contract order v :
  order ≡ₚ seq 0 (length v) ->
  argsort_from order v ≡ₚ seq 0 (length v) /\
  StronglySorted (fun i j => np_lt (v !!! j) (v !!! i) = false) (argsort_from order v).
Proof.
  intros Hp. unfold argsort_from. split.
  - rewrite <- Hp. clear Hp. induction order as [|i order IH]; [done|].
    simpl. by rewrite insert_index_Permutation, IH.
  - clear Hp. induction order as [|i order IH]; [constructor|].
    simpl. by apply insert_index_sorted.
Qed.

Lemma argsort_stable_contract : argsort_contract argsort_stable.
Proof. intros v. by apply argsort_from_contract. Qed.

(** ** Cosine similarity on zero-norm vectors *)

Lemma f32_mul_nan_r x : f32_mul x S754_nan = S754_nan.
Proof. by destruct x. Qed.

Lemma f32_mul_nan_l x : f32_mul S754_nan x = S754_nan.
Proof. done. Qed.

Lemma f32_add_nan_r x : f32_add x S754_nan = S754_nan.
Proof. by destruct x. Qed.

Lemma f32_add_nan_l x : f32_add S754_nan x = S754_nan.
Proof. done. Qed.

Lemma fold_dot_nan l :
  fold_left (fun acc p => f32_add acc (f32_mul (fst p) (snd p))) l S754_nan
  = S754_nan.
Proof.
  induction l as [|p l IH]; [done|]. cbn [fold_left].
  by rewrite f32_add_nan_l, IH.
Qed.

(** A product with a NaN factor makes the whole sum NaN. *)
Lemma dot_nan x y :
  Exists (fun p => is_nan (fst p) = true \/ is_nan (snd p) = true) (zip x y) ->
  dot x y = S754_nan.
Proof.
  unfold dot. generalize (S754_zero false) as acc.
  induction (zip x y) as [|p l IH]; intros acc; [by inversion 1|].
  intros Hex. cbn [fold_left]. inversion Hex as [? ? Hp|? ? Hl]; subst.
  - assert (f32_mul p.1 p.2 = S754_nan) as ->.
    { destruct Hp as [Hp|Hp].
      - destruct (p.1); try done.
      - destruct (p.2); try done. apply f32_mul_nan_r. }
    rewrite f32_add_nan_r. apply fold_dot_nan.
  - by apply IH.
Qed.

Lemma dot_zero_vector x :
  Forall (fun c => is_zero c = true) x -> dot x x = S754_zero false.
Proof.
  unfold dot.
  assert (H : forall l,
             Forall (fun p => is_zero (fst p) = true /\ snd p = fst p) l ->
             fold_left (fun acc p => f32_add acc (f32_mul (fst p) (snd p))) l
                       (S754_zero false) = S754_zero false).
  { induction 1 as [|[a b] l [Ha Hb] _ IH]; [done|]. simpl in *. subst b.
    destruct a as [[]| | |]; try done. }
  intros Hx. apply H. clear H.
  induction Hx as [|c x Hc _ IH]; constructor; done.
Qed.

Lemma norm_zero_vector x :
  Forall (fun c => is_zero c = true) x -> norm x = S754_zero false.
Proof. intros H. unfold norm. by rewrite dot_zero_vector. Qed.

(** Dividing a zero vector by its norm gives NaN in every component. *)
Lemma normalise_zero_vector x :
  Forall (fun c => is_zero c = true) x ->
  Forall (fun c => is_nan c = true) (map (fun c => f32_div c (norm x)) x).
Proof.
  intros H. rewrite norm_zero_vector by done.
  induction H as [|c x Hc _ IH]; constructor; [|done].
  by destruct c.
Qed.

Lemma cosine_similarity_shape query_vec doc_vecs :
  doc_vecs <> [] ->
  Forall (fun row => length row = length query_vec) doc_vecs ->
  cosine_similarity query_vec doc_vecs =
  Return (map (fun row => dot (map (fun x => f32_div x (norm row)) row)
                              (map (fun x => f32_div x (norm query_vec)) query_vec))
              doc_vecs).
Proof.
  intros Hne Hshape. unfold cosine_similarity.
  destruct doc_vecs as [|r0 rows]; [done|].
  rewrite map_map.
  destruct (forallb _ _) eqn:Hall; [done|].
  apply not_true_iff_false in Hall. exfalso. apply Hall.
  apply forallb_forall. intros row Hin. apply in_map_iff in Hin as (r & <- & Hin).
  rewrite !length_map. apply Nat.eqb_eq.
  rewrite Forall_forall in Hshape. apply Hshape. by apply list_elem_of_In.
Qed.

(** C3, as the code has it. [cosine_similarity] has no guard for a zero
    norm. On inputs of matching shape it raises nothing and returns one
    similarity per row; when the query vector or a row is a zero vector (of
    at least one component), the division 0/0 gives NaN, and the similarity
    of that row is NaN. *)
Theorem cosine_similarity_zero_norm
    (query_vec : list spec_float) (doc_vecs : list (list spec_float)) :
  doc_vecs <> [] ->
  Forall (fun row => length row = length query_vec) doc_vecs ->
  query_vec <> [] ->
  exists sims,
    cosine_similarity query_vec doc_vecs = Return sims
    /\ length sims = length doc_vecs
    /\ forall i row,
         doc_vecs !! i = Some row ->
         Forall (fun c => is_zero c = true) query_vec
         \/ Forall (fun c => is_zero c = true) row ->
         sims !! i = Some S754_nan.
Proof.
  intros Hne Hshape Hq. eexists. split; [by apply cosine_similarity_shape|].
  split; [by rewrite length_map|].
  intros i row Hrow Hzero.
  change (map ?f doc_vecs) with (f <$> doc_vecs).
  rewrite list_lookup_fmap, Hrow. cbn [fmap option_fmap option_map]. f_equal.
  apply dot_nan.
  assert (Hlen : length row = length query_vec).
  { rewrite Forall_forall in Hshape. apply Hshape.
    by eapply list_elem_of_lookup_2. }
  destruct query_vec as [|q0 qs]; [done|].
  destruct row as [|r0 rs]; [done|].
  cbn [map zip zip_with]. apply Exists_cons_hd. cbn [fst snd].
  destruct Hzero as [Hz|Hz].
  - right. rewrite norm_zero_vector by done.
    inversion Hz as [|? ? H0 _]; subst. by destruct q0.
  - left. rewrite norm_zero_vector by done.
    inversion Hz as [|? ? H0 _]; subst. by destruct r0.
Qed.

Lemma cosine_similarity_zero_norm_witness :
  exists sims,
    cosine_similarity [S754_zero false; S754_zero true] [[f32_one; f32_one]]
      = Return sims
    /\ length sims = 1%nat
    /\ sims !! 0%nat = Some S754_nan.
Proof.
  destruct (cosine_similarity_zero_norm
              [S754_zero false; S754_zero true] [[f32_one; f32_one]])
    as (sims & Hs & Hlen & Hnan).
  - discriminate.
  - repeat constructor.
  - discriminate.
  - exists sims. split; [exact Hs|]. split; [exact Hlen|].
    apply (Hnan 0%nat [f32_one; f32_one]); [reflexivity|].
    left. repeat constructor.
Defined.

(** C3 as first stated fails: the similarity of a zero query vector against
    the unit vector is NaN, not -1. *)
Lemma zero_vector_similarity_is_not_minus_one :
  ~ (forall (query_vec : list spec_float) (doc_vecs : list (list spec_float))
            (sims : list spec_float),
        Forall (fun c => is_zero c = true) query_vec ->
        cosine_similarity query_vec doc_vecs = Return sims ->
        Forall (fun s => s = f32_minus_one) sims).
Proof.
  intros H.
  specialize (H [S754_zero false] [[f32_one]] [S754_nan]).
  assert (Hall : Forall (fun s => s = f32_minus_one) [S754_nan]).
  { apply H; [repeat constructor|]. vm_compute. reflexivity. }
  inversion Hall as [|? ? Hnan _]. discriminate Hnan.
Qed.

(** ** The index [SimpleRAG.__init__] builds *)

Lemma map_fmap {A B} (f : A -> B) (l : list A) : map f l = f <$> l.
Proof. reflexivity. Qed.

Lemma embed_loop_length E texts (b : Z) :
  one_vector_per_text E ->
  forall starts acc tr res tr',
    mfold (fun all_vectors start =>
             (batch_vectors <- call_embeddings E (Py.slice texts start (start + b)) ;;
              mret (all_vectors ++ batch_vectors))%M)
          starts acc tr = (Return res, tr') ->
    length res =
    (length acc + length (concat (map (fun s => Py.slice texts s (s + b)) starts)))%nat.
Proof.
  intros Hone. induction starts as [|s starts IH]; intros acc tr res tr'.
  - simpl. unfold mret. intros [= <- <-]. lia.
  - cbn [mfold]. unfold mbind at 1. unfold mbind at 1, call_embeddings at 1.
    destruct (embeddings_create E tr EMBED_MODEL (Py.slice texts s (s + b)))
      as [e|vs] eqn:Hcall; cbn [of_env]; [intros [=]|].
    unfold mret at 1. intros Hrest. apply IH in Hrest. rewrite Hrest.
    apply Hone in Hcall. cbn [map concat]. rewrite !length_app. lia.
Qed.

Lemma np_array_f32_length rows M :
  np_array_f32 rows = Return M -> length M = length rows.
Proof. intros H. apply np_array_f32_rows in H as ->. by rewrite length_map. Qed.

Lemma embed_texts_length E texts (b : Z) tr M tr' :
  one_vector_per_text E -> 0 < b ->
  embed_texts E texts b tr = (Return M, tr') ->
  length M = length texts.
Proof.
  intros Hone Hb. unfold embed_texts.
  destruct texts as [|t texts]; [done|].
  unfold mbind at 1, mlift at 1.
  destruct (range0 (length (t :: texts)) b) as [starts|e|] eqn:Hrange;
    [|intros [=]..].
  unfold mbind at 1.
  match goal with
  | |- context [mfold ?body starts [] tr] =>
      destruct (mfold body starts [] tr) as [[all|e|] tr2] eqn:Hloop;
        [|intros [=]..]
  end.
  unfold mlift. intros [= Harr <-].
  apply np_array_f32_length in Harr. rewrite Harr.
  apply (embed_loop_length E (t :: texts) b Hone) in Hloop. rewrite Hloop.
  by rewrite (batches_cover (t :: texts) b starts Hb Hrange).
Qed.

Lemma SimpleRAG_init_inv E fs path tr0 tr1 self :
  SimpleRAG_init E fs path tr0 = (Return self, tr1) ->
  load_corpus fs path = Return (texts self, sources self) /\
  embed_texts E (texts self) 64 tr0 = (Return (embeddings self), tr1).
Proof.
  unfold SimpleRAG_init, mbind, mlift, mret.
  destruct (load_corpus fs path) as [[ts ss]|e|]; [|intros [=]..]. cbn [fst snd].
  destruct (embed_texts E ts 64 tr0) as [[embs|e|] tr2] eqn:Hemb; [|intros [=]..].
  intros [= <- <-]. split; [reflexivity|exact Hemb].
Qed.

(** What the rest needs of a built index: distinct source ids, and the
    three lists aligned. *)
Lemma built_index_aligned E fs path tr0 tr1 self :
  one_vector_per_text E ->
  SimpleRAG_init E fs path tr0 = (Return self, tr1) ->
  NoDup (sources self)
  /\ length (sources self) = length (texts self)
  /\ length (embeddings self) = length (texts self).
Proof.
  intros Hone Hinit. apply SimpleRAG_init_inv in Hinit as [Hload Hemb].
  apply load_corpus_returns_inv in Hload as (_ & contents & Hread & Ht & Hs).
  rewrite Hs, Ht. split; [apply numbered_NoDup|].
  split; [rewrite numbered_length; apply owners_length; by eapply read_all_length|].
  rewrite <- Ht.
  eapply embed_texts_length; [done| |exact Hemb]. lia.
Qed.

(** ** The loop of [retrieve] *)

Lemma append_result_inv self sims results idx res :
  append_result self sims results idx = Return res ->
  exists d, res = results ++ [d] /\ entry_of self sims idx d.
Proof.
  unfold append_result, getitem, entry_of.
  destruct (texts self !! idx) as [t|]; [|done]. cbn [obind].
  destruct (sims !! idx) as [s|]; [|done]. cbn [obind].
  destruct (sources self !! idx) as [src|]; [|done]. cbn [obind].
  intros [= <-]. by eexists.
Qed.

Lemma result_loop_inv self sims idxs acc res :
  ofold (append_result self sims) idxs acc = Return res ->
  exists new, res = acc ++ new /\ Forall2 (entry_of self sims) idxs new.
Proof.
  revert acc. induction idxs as [|idx idxs IH]; intros acc; cbn [ofold].
  - intros [= <-]. exists []. split; [by rewrite app_nil_r|constructor].
  - destruct (append_result self sims acc idx) as [acc'|e|] eqn:Hstep; [|done|done].
    cbn [obind]. intros Hrest.
    apply append_result_inv in Hstep as (d & -> & Hd).
    apply IH in Hrest as (new & -> & Hnew).
    exists (d :: new). split; [by rewrite <- app_assoc|by constructor].
Qed.

Lemma result_loop_returns self sims idxs acc :
  Forall (fun idx => (idx < length (texts self))%nat
                     /\ (idx < length sims)%nat
                     /\ (idx < length (sources self))%nat) idxs ->
  exists res, ofold (append_result self sims) idxs acc = Return res.
Proof.
  intros Hidx. revert acc.
  induction Hidx as [|idx idxs (Ht & Hs & Hsrc) _ IH]; intros acc; cbn [ofold].
  - by eexists.
  - unfold append_result at 1, getitem.
    apply lookup_lt_is_Some_2 in Ht as [t ->].
    apply lookup_lt_is_Some_2 in Hs as [s ->].
    apply lookup_lt_is_Some_2 in Hsrc as [src ->].
    cbn [obind]. apply IH.
Qed.

Lemma cosine_similarity_length query_vec doc_vecs sims :
  cosine_similarity query_vec doc_vecs = Return sims ->
  length sims = length doc_vecs.
Proof.
  unfold cosine_similarity. destruct doc_vecs as [|r0 rows]; [done|].
  destruct (forallb _ _); [|done]. intros [= <-]. simpl. by rewrite !length_map.
Qed.

Lemma retrieve_inv E self query k tr res tr' :
  retrieve E self query k tr = (Return res, tr') ->
  exists vectors query_vec sims,
    embed_texts E [query] 64 tr = (Return vectors, tr')
    /\ vectors !! 0%nat = Some query_vec
    /\ cosine_similarity query_vec (embeddings self) = Return sims
    /\ ofold (append_result self sims)
             (Py.slice (np_argsort E (map SFopp sims)) 0 k) [] = Return res.
Proof.
  unfold retrieve. unfold mbind at 1.
  destruct (embed_texts E [query] 64 tr) as [[vectors|e|] tr2]; [|intros [=]..].
  unfold mbind at 1, mlift at 1, getitem.
  destruct (vectors !! 0%nat) as [query_vec|] eqn:Hq; [|intros [=]].
  unfold mbind at 1, mlift at 1.
  destruct (cosine_similarity query_vec (embeddings self)) as [sims|e|] eqn:Hc;
    [|intros [=]..].
  unfold mlift. intros [= Hloop <-].
  by exists vectors, query_vec, sims.
Qed.

Lemma StronglySorted_lookup_lt {A} (R : A -> A -> Prop) l i j x y :
  StronglySorted R l -> (i < j)%nat ->
  l !! i = Some x -> l !! j = Some y -> R x y.
Proof.
  intros Hs. revert i j. induction Hs as [|a l Hs IH Ha]; intros i j Hij Hi Hj.
  - done.
  - destruct i as [|i], j as [|j]; try lia; simpl in *.
    + injection Hi as <-. rewrite Forall_forall in Ha. apply Ha.
      by eapply list_elem_of_lookup_2.
    + eapply (IH i j); [lia|done..].
Qed.

Lemma SFcompare_opp a b : SFcompare (SFopp b) (SFopp a) = SFcompare a b.
Proof.
  destruct a as [sa|sa| |sa ma ea], b as [sb|sb| |sb mb eb];
    try destruct sa; try destruct sb; cbn; try reflexivity;
    f_equal; rewrite (Z.compare_antisym ea eb);
    destruct (ea ?= eb); cbn; try reflexivity.
  - by rewrite (Pos.compare_cont_antisym ma mb Eq).
  - by rewrite (Pos.compare_cont_antisym mb ma Eq).
Qed.

Lemma np_lt_opp_not_more_similar a b :
  np_lt (SFopp b) (SFopp a) = false -> not_more_similar a b.
Proof.
  unfold np_lt, not_more_similar, SFltb. rewrite SFcompare_opp.
  intros H. apply orb_false_iff in H as [H1 H2]. split; [done|].
  intros Ha. destruct a; try done. destruct b; done.
Qed.

(** ** The result of [retrieve] *)

Lemma zip_by_position {A B} `{!Inhabited A, !Inhabited B} (l1 : list A) (l2 : list B) :
  length l1 = length l2 ->
  (fun p => (l1 !!! p, l2 !!! p)) <$> seq 0 (length l1) = zip l1 l2.
Proof.
  intros Hlen. apply list_eq. intros i.
  rewrite list_lookup_fmap, lookup_zip_with.
  destruct (decide (i < length l1)%nat) as [Hi|Hi].
  - rewrite lookup_seq_lt by done. simpl.
    destruct (lookup_lt_is_Some_2 l1 i Hi) as [a Ha].
    destruct (lookup_lt_is_Some_2 l2 i ltac:(lia)) as [b Hb].
    rewrite Ha, Hb. simpl.
    by rewrite (list_lookup_total_correct _ _ _ Ha), (list_lookup_total_correct _ _ _ Hb).
  - rewrite lookup_seq_ge by lia. simpl.
    by rewrite (lookup_ge_None_2 l1 i) by lia.
Qed.

Lemma entries_by_position self sims idxs res :
  Forall2 (entry_of self sims) idxs res ->
  (fun d => (text d, source d)) <$> res =
  (fun p => (texts self !!! p, sources self !!! p)) <$> idxs.
Proof.
  induction 1 as [|idx d idxs res (Ht & _ & Hs) _ IH]; [done|].
  cbn [fmap list_fmap]. f_equal; [|exact IH].
  by rewrite (list_lookup_total_correct _ _ _ Ht), (list_lookup_total_correct _ _ _ Hs).
Qed.

(** The properties of a returned result list, from the contract of argsort
    and the alignment of the index. *)
Lemma retrieve_result_properties E self query (k : Z) tr res tr' :
  argsort_contract (np_argsort E) ->
  NoDup (sources self) ->
  length (sources self) = length (texts self) ->
  length (embeddings self) = length (texts self) ->
  0 <= k ->
  retrieve E self query k tr = (Return res, tr') ->
  length res = Nat.min (Z.to_nat k) (length (texts self))
  /\ NoDup (map source res)
  /\ (forall i j d1 d2,
         (i < j)%nat -> res !! i = Some d1 -> res !! j = Some d2 ->
         not_more_similar (similarity d1) (similarity d2))
  /\ (forall d, d ∈ res ->
                exists p, texts self !! p = Some (text d)
                          /\ sources self !! p = Some (source d))
  /\ (Z.of_nat (length (texts self)) <= k ->
      map (fun d => (text d, source d)) res ≡ₚ zip (texts self) (sources self)).
Proof.
  intros Hsort Hnd Hlen_src Hlen_emb Hk Hret.
  apply retrieve_inv in Hret as (vectors & query_vec & sims & _ & _ & Hcos & Hloop).
  apply cosine_similarity_length in Hcos.
  rewrite slice_prefix in Hloop by done.
  apply result_loop_inv in Hloop as (new & -> & Hent). rewrite app_nil_l.
  set (keys := map SFopp sims) in *.
  destruct (Hsort keys) as [Hperm Hsorted].
  assert (Hkeys : length keys = length (texts self)).
  { unfold keys. rewrite length_map. lia. }
  rewrite Hkeys in Hperm.
  set (order := np_argsort E keys) in *.
  assert (Horder_nd : NoDup order) by (rewrite Hperm; apply NoDup_seq).
  assert (Hidx_nd : NoDup (take (Z.to_nat k) order))
    by (eapply sublist_NoDup; [exact Horder_nd|apply sublist_take]).
  split; [|split; [|split; [|split]]].
  - rewrite <- (Forall2_length _ _ _ Hent), length_take, Hperm, length_seq. done.
  - rewrite map_fmap. apply NoDup_alt. intros i j s Hi Hj.
    rewrite list_lookup_fmap in Hi, Hj.
    destruct (new !! i) as [d1|] eqn:Hd1; [|done].
    destruct (new !! j) as [d2|] eqn:Hd2; [|done].
    simpl in Hi, Hj. injection Hi as <-. injection Hj as Hj.
    destruct (Forall2_lookup_r _ _ _ _ _ Hent Hd1) as (p1 & Hp1 & _ & _ & Hs1).
    destruct (Forall2_lookup_r _ _ _ _ _ Hent Hd2) as (p2 & Hp2 & _ & _ & Hs2).
    rewrite Hj in Hs2.
    assert (p1 = p2) as ->
        by (eapply (NoDup_lookup (sources self)); [exact Hnd|exact Hs1|exact Hs2]).
    eapply (NoDup_lookup (take (Z.to_nat k) order)); [exact Hidx_nd|exact Hp1|exact Hp2].
  - intros i j d1 d2 Hij Hd1 Hd2.
    destruct (Forall2_lookup_r _ _ _ _ _ Hent Hd1) as (p1 & Hp1 & _ & Hs1 & _).
    destruct (Forall2_lookup_r _ _ _ _ _ Hent Hd2) as (p2 & Hp2 & _ & Hs2 & _).
    apply lookup_take_Some in Hp1 as [Hp1 _]. apply lookup_take_Some in Hp2 as [Hp2 _].
    pose proof (StronglySorted_lookup_lt _ _ _ _ _ _ Hsorted Hij Hp1 Hp2) as Hle.
    cbn beta in Hle. apply np_lt_opp_not_more_similar.
    assert (Hkey : forall p s, sims !! p = Some s -> keys !!! p = SFopp s).
    { intros p s Hp. apply list_lookup_total_correct. unfold keys.
      rewrite map_fmap, list_lookup_fmap, Hp. done. }
    by rewrite <- (Hkey _ _ Hs1), <- (Hkey _ _ Hs2).
  - intros d Hd. apply list_elem_of_lookup in Hd as [i Hd].
    destruct (Forall2_lookup_r _ _ _ _ _ Hent Hd) as (p & _ & Ht & _ & Hs).
    by exists p.
  - intros Hall. rewrite map_fmap, (entries_by_position _ _ _ _ Hent).
    rewrite take_ge by (rewrite Hperm, length_seq; lia).
    rewrite Hperm. by rewrite zip_by_position.
Qed.

Lemma pure_embedder_one_vector E embed_one :
  pure_embedder E embed_one -> one_vector_per_text E.
Proof.
  intros Hpure tr m batch vs. rewrite Hpure. intros [= <-]. by rewrite length_map.
Qed.

Lemma np_array_f32_uniform rows n :
  Forall (fun r => length r = n) rows ->
  np_array_f32 rows = Return (map (map to_f32) rows).
Proof.
  intros Hrows. unfold np_array_f32. destruct rows as [|r0 rows]; [done|].
  destruct (forallb _ _) eqn:Hall; [done|].
  apply not_true_iff_false in Hall. exfalso. apply Hall.
  apply forallb_forall. intros r Hin. apply Nat.eqb_eq.
  rewrite Forall_forall in Hrows.
  rewrite (Hrows r) by by apply list_elem_of_In.
  symmetry. apply Hrows. left.
Qed.

(** With an embedding service that is a function of the text and gives
    vectors of one dimension, [retrieve] on a built index returns. *)
Lemma retrieve_returns E fs path tr0 tr1 self embed_one query (k : Z) tr :
  argsort_contract (np_argsort E) ->
  pure_embedder E embed_one ->
  (forall t1 t2, length (embed_one t1) = length (embed_one t2)) ->
  SimpleRAG_init E fs path tr0 = (Return self, tr1) ->
  exists res tr', retrieve E self query k tr = (Return res, tr').
Proof.
  intros Hsort Hpure Hdim Hinit.
  pose proof (pure_embedder_one_vector _ _ Hpure) as Hone.
  destruct (built_index_aligned _ _ _ _ _ _ Hone Hinit) as (_ & Hlen_src & Hlen_emb).
  apply SimpleRAG_init_inv in Hinit as [_ Hemb].
  assert (Hne : texts self <> []).
  { intros Hnil. rewrite Hnil in Hemb. discriminate Hemb. }
  destruct (embed_texts_pure E embed_one (texts self) 64 tr0 Hpure Hne ltac:(lia))
    as [calls0 Hemb'].
  rewrite Hemb' in Hemb. injection Hemb as Harr _.
  rewrite (np_array_f32_uniform _ (length (embed_one query))) in Harr.
  2:{ apply Forall_forall. intros r Hr. rewrite map_fmap in Hr.
      apply list_elem_of_fmap in Hr as (t & -> & _). apply Hdim. }
  injection Harr as Harr.
  destruct (embed_texts_pure E embed_one [query] 64 tr Hpure ltac:(done) ltac:(lia))
    as [calls Hq].
  rewrite (np_array_f32_uniform _ (length (embed_one query))) in Hq
    by (repeat constructor).
  unfold retrieve. unfold mbind at 1. rewrite Hq.
  unfold mbind at 1, mlift at 1. cbn [map getitem lookup list_lookup].
  unfold mbind at 1, mlift at 1.
  rewrite cosine_similarity_shape.
  - unfold mlift.
    match goal with
    | |- context [ofold (append_result self ?sims) ?idxs []] =>
        destruct (result_loop_returns self sims idxs []) as [res Hres]
    end.
    2:{ rewrite Hres. by eexists _, _. }
    apply slice_Forall.
    match goal with |- Forall _ (np_argsort E ?keys) => destruct (Hsort keys) as [Hperm _] end.
    rewrite Hperm. apply Forall_forall. intros idx Hidx.
    apply elem_of_seq in Hidx. rewrite !length_map in Hidx.
    rewrite !length_map. lia.
  - intros Hnil. rewrite Hnil in Hlen_emb. simpl in Hlen_emb.
    destruct (texts self); [done|discriminate].
  - rewrite <- Harr. apply Forall_forall. intros r Hr.
    rewrite !map_fmap in Hr.
    apply list_elem_of_fmap in Hr as (r' & -> & Hr).
    apply list_elem_of_fmap in Hr as (t & -> & _).
    rewrite !length_map. apply Hdim.
Qed.

(** What [retrieve] ranks: the similarities are the cosine similarities
    of the rows of the index with the vector of the query, each result
    carries the one of its own chunk, and no chunk left out is more similar
    than a chunk returned. *)
Lemma retrieve_ranking E self query (k : Z) tr res tr' :
  argsort_contract (np_argsort E) ->
  0 <= k ->
  retrieve E self query k tr = (Return res, tr') ->
  exists vectors query_vec sims idxs,
    embed_texts E [query] 64 tr = (Return vectors, tr')
    /\ vectors !! 0%nat = Some query_vec
    /\ cosine_similarity query_vec (embeddings self) = Return sims
    /\ length sims = length (embeddings self)
    /\ Forall2 (entry_of self sims) idxs res
    /\ NoDup idxs
    /\ (forall p s d,
           sims !! p = Some s -> p ∉ idxs -> d ∈ res ->
           not_more_similar (similarity d) s).
Proof.
  intros Hsort Hk Hret.
  apply retrieve_inv in Hret as (vectors & query_vec & sims & Hemb & Hq & Hcos & Hloop).
  pose proof (cosine_similarity_length _ _ _ Hcos) as Hlen.
  rewrite slice_prefix in Hloop by done.
  apply result_loop_inv in Hloop as (new & -> & Hent). rewrite app_nil_l.
  set (keys := map SFopp sims) in *.
  destruct (Hsort keys) as [Hperm Hsorted].
  set (order := np_argsort E keys) in *.
  assert (Hkeys : length keys = length sims) by (unfold keys; by rewrite length_map).
  assert (Horder_nd : NoDup order) by (rewrite Hperm; apply NoDup_seq).
  exists vectors, query_vec, sims, (take (Z.to_nat k) order).
  split_and!; try done.
  - eapply sublist_NoDup; [exact Horder_nd|apply sublist_take].
  - intros p s d Hp Hout Hd.
    apply list_elem_of_lookup in Hd as [i Hd].
    destruct (Forall2_lookup_r _ _ _ _ _ Hent Hd) as (q & Hq' & _ & Hs & _).
    apply lookup_take_Some in Hq' as [Hq' Hi].
    assert (Hin : p ∈ order).
    { rewrite Hperm. apply elem_of_seq. apply lookup_lt_Some in Hp. lia. }
    apply list_elem_of_lookup in Hin as [j Hj].
    assert (Hij : (i < j)%nat).
    { destruct (decide (j < Z.to_nat k)%nat) as [Hlt|Hge]; [|lia].
      exfalso. apply Hout. apply list_elem_of_lookup. exists j.
      by apply lookup_take_Some. }
    pose proof (StronglySorted_lookup_lt _ _ _ _ _ _ Hsorted Hij Hq' Hj) as Hle.
    cbn beta in Hle. apply np_lt_opp_not_more_similar.
    assert (Hkey : forall p s, sims !! p = Some s -> keys !!! p = SFopp s).
    { intros p0 s0 Hp0. apply list_lookup_total_correct. unfold keys.
      rewrite map_fmap, list_lookup_fmap, Hp0. done. }
    by rewrite <- (Hkey _ _ Hp), <- (Hkey _ _ Hs).
Qed.

(** C2, as the code has it. On an index built by [SimpleRAG.__init__], with
    an embedding service that answers one vector per text and [np.argsort]
    as numpy documents it, for every query and every [k >= 0]: a returned
    list has [min(k, corpus size)] results, so at most [k]; their source
    ids are pairwise distinct; no result is followed by one with a larger
    similarity, NaN similarities standing last; every result is a chunk of
    the index with its own source id; and when [k] is at least the corpus
    size every chunk is returned. The ranking is by cosine similarity: the
    similarities are those of the rows of the index with the first vector
    that [embed_texts] gives for the query, every result is the chunk at
    one position of the index with the text, the source id and the
    similarity of that position, no position is used twice, and no chunk
    left out is more similar than a chunk returned. Nothing is promised on
    the order of equal similarities. With a service that is a function of
    the text and gives vectors of one dimension, [retrieve] does return. *)
Theorem retrieve_top_k
    (E : Env) (fs : FileSystem) (path : list N) (tr0 tr1 : list event)
    (self : SimpleRAG) (query : list N) (k : Z) (tr : list event) :
  argsort_contract (np_argsort E) ->
  one_vector_per_text E ->
  SimpleRAG_init E fs path tr0 = (Return self, tr1) ->
  0 <= k ->
  (forall res tr',
      retrieve E self query k tr = (Return res, tr') ->
      length res = Nat.min (Z.to_nat k) (length (texts self))
      /\ Z.of_nat (length res) <= k
      /\ NoDup (map source res)
      /\ (forall i j d1 d2,
             (i < j)%nat -> res !! i = Some d1 -> res !! j = Some d2 ->
             not_more_similar (similarity d1) (similarity d2))
      /\ (forall d, d ∈ res ->
                    exists p, texts self !! p = Some (text d)
                              /\ sources self !! p = Some (source d))
      /\ (Z.of_nat (length (texts self)) <= k ->
          map (fun d => (text d, source d)) res ≡ₚ zip (texts self) (sources self))
      /\ (exists vectors query_vec sims idxs,
             embed_texts E [query] 64 tr = (Return vectors, tr')
             /\ vectors !! 0%nat = Some query_vec
             /\ cosine_similarity query_vec (embeddings self) = Return sims
             /\ length sims = length (texts self)
             /\ Forall2 (fun idx d =>
                           texts self !! idx = Some (text d)
                           /\ sims !! idx = Some (similarity d)
                           /\ sources self !! idx = Some (source d)) idxs res
             /\ NoDup idxs
             /\ (forall p s d,
                    sims !! p = Some s -> p ∉ idxs -> d ∈ res ->
                    not_more_similar (similarity d) s)))
  /\ (forall embed_one,
         pure_embedder E embed_one ->
         (forall t1 t2, length (embed_one t1) = length (embed_one t2)) ->
         exists res tr', retrieve E self query k tr = (Return res, tr')).
Proof.
  intros Hsort Hone Hinit Hk. split.
  - intros res tr' Hret.
    destruct (built_index_aligned _ _ _ _ _ _ Hone Hinit) as (Hnd & Hlen_src & Hlen_emb).
    destruct (retrieve_result_properties E self query k tr res tr'
                Hsort Hnd Hlen_src Hlen_emb Hk Hret)
      as (Hlen & Hdistinct & Hdesc & Hchunks & Hall).
    split; [exact Hlen|]. split; [lia|].
    split; [exact Hdistinct|]. split; [exact Hdesc|]. split; [exact Hchunks|].
    split; [exact Hall|].
    destruct (retrieve_ranking E self query k tr res tr' Hsort Hk Hret)
      as (vectors & query_vec & sims & idxs & H1 & H2 & H3 & H4 & H5 & H6 & H7).
    exists vectors, query_vec, sims, idxs.
    split_and!; try done. by rewrite H4.
  - intros embed_one Hpure Hdim. by eapply retrieve_returns.
Qed.

Lemma retrieve_top_k_witness :
  exists res tr',
    retrieve example_env example_index (Py.lit "fair?") 2 [] = (Return res, tr')
    /\ length res = 2%nat
    /\ NoDup (map source res)
    /\ nth_error (map source res) 0 = Some (Py.lit "b.txt#2").
Proof.
  destruct (retrieve_top_k example_env example_fs (Py.lit "data") []
              (snd (SimpleRAG_init example_env example_fs (Py.lit "data") []))
              example_index (Py.lit "fair?") 2 [])
    as [Hprops Hreturns].
  - apply argsort_stable_contract.
  - intros tr m batch vs [= <-]. by rewrite length_map.
  - vm_compute. reflexivity.
  - lia.
  - destruct (Hreturns example_embedding) as (res & tr' & Hret).
    + intros tr m batch. reflexivity.
    + intros [|c1 t1] [|c2 t2]; simpl;
        repeat match goal with |- context [if ?b then _ else _] => destruct b end;
        reflexivity.
    + exists res, tr'. split; [exact Hret|].
      destruct (Hprops res tr' Hret) as (Hlen & _ & Hnd & _).
      split; [exact Hlen|]. split; [exact Hnd|].
      vm_compute in Hret. injection Hret as <- _. reflexivity.
Defined.

(** C2 as first stated fails on the tie rule. With numpy's generic sort
    behind [np.argsort], on the index built from a file of eighteen short
    paragraphs to which the embedding service gives one and the same
    vector, [retrieve] with [k = 3] returns the chunks at positions 0, 15
    and 14 of the corpus, in this order: three results of equal similarity,
    the second and the third in the opposite of their corpus order. *)
Lemma retrieve_ties_not_in_corpus_order :
  ~ (forall (E : Env) (fs : FileSystem) (path : list N) (tr0 tr1 : list event)
            (self : SimpleRAG) (query : list N) (k : Z) (tr : list event)
            (res : list doc) (tr' : list event),
        np_argsort E = numpy_argsort ->
        one_vector_per_text E ->
        SimpleRAG_init E fs path tr0 = (Return self, tr1) ->
        0 <= k ->
        retrieve E self query k tr = (Return res, tr') ->
        ties_in_corpus_order self res).
Proof.
  intros H.
  pose (init := SimpleRAG_init numpy_sort_env clauses_fs (Py.lit "data") []).
  pose (self := match fst init with Return r => r | _ => example_index end).
  pose (run := retrieve numpy_sort_env self (Py.lit "fair?") 3 []).
  pose (res := match fst run with Return r => r | _ => [] end).
  assert (Hties : ties_in_corpus_order self res).
  { apply (H numpy_sort_env clauses_fs (Py.lit "data") [] (snd init)
             self (Py.lit "fair?") 3 [] res (snd run)).
    - reflexivity.
    - intros tr m batch vs [= <-]. by rewrite length_map.
    - vm_compute. reflexivity.
    - lia.
    - vm_compute. reflexivity. }
  assert (Hlt : (15 < 14)%nat); [|lia].
  eapply (Hties 1%nat 2%nat _ _ 15%nat 14%nat); [lia|vm_compute; reflexivity..].
Qed.

(** On a small corpus the same sort keeps ties in corpus order, since it
    sorts a range of at most 17 items by insertion: here the example
    index, whose first two chunks have the same embedding. *)
Lemma small_corpus_ties_in_corpus_order :
  exists res,
    fst (retrieve numpy_sort_env example_index (Py.lit "Fair?") 3 []) = Return res
    /\ map source res = [Py.lit "a.txt#0"; Py.lit "a.txt#1"; Py.lit "b.txt#2"]
    /\ ties_in_corpus_order example_index res.
Proof.
  eexists. split; [vm_compute; reflexivity|]. split; [reflexivity|].
  intros i j d1 d2 p1 p2 Hij Hd1 Hd2 Hsim Hp1 Hp2.
  destruct i as [|[|[|i]]], j as [|[|[|j]]]; try lia; try discriminate Hd2;
    injection Hd1 as <-; injection Hd2 as <-; try discriminate Hsim;
    destruct p1 as [|[|[|p1]]]; try discriminate Hp1;
    destruct p2 as [|[|[|p2]]]; try discriminate Hp2; lia.
Qed.

(** ** The calls a run makes *)

Lemma calls_of_app who tr1 tr2 :
  calls_of who (tr1 ++ tr2) = (calls_of who tr1 + calls_of who tr2)%nat.
Proof. unfold calls_of. by rewrite List.filter_app, length_app. Qed.

Lemma calls_of_embed who calls :
  Forall (fun ev => exists batch, ev = EmbedCall batch) calls ->
  calls_of who calls = 0%nat.
Proof.
  unfold calls_of. induction 1 as [|ev calls [batch ->] _ IH]; [done|]. exact IH.
Qed.

Lemma embed_loop_trace E texts (b : Z) starts :
  forall acc tr o tr',
    mfold (fun all_vectors start =>
             (batch_vectors <- call_embeddings E (Py.slice texts start (start + b)) ;;
              mret (all_vectors ++ batch_vectors))%M)
          starts acc tr = (o, tr') ->
    exists calls, tr' = tr ++ calls
                  /\ Forall (fun ev => exists batch, ev = EmbedCall batch) calls.
Proof.
  induction starts as [|s starts IH]; intros acc tr o tr'.
  - simpl. unfold mret. intros [= <- <-]. exists []. by rewrite app_nil_r.
  - cbn [mfold]. unfold mbind at 1. unfold mbind at 1, call_embeddings at 1.
    destruct (embeddings_create E tr EMBED_MODEL (Py.slice texts s (s + b)))
      as [e|vs]; cbn [of_env].
    + intros [= <- <-]. eexists. split; [done|]. repeat constructor. by eexists.
    + unfold mret at 1. intros Hrest. apply IH in Hrest as (calls & -> & Hcalls).
      eexists. rewrite <- app_assoc. split; [done|].
      constructor; [by eexists|done].
Qed.

Lemma embed_texts_trace E texts (b : Z) tr o tr' :
  embed_texts E texts b tr = (o, tr') ->
  exists calls, tr' = tr ++ calls
                /\ Forall (fun ev => exists batch, ev = EmbedCall batch) calls.
Proof.
  unfold embed_texts. destruct texts as [|t texts].
  { unfold mlift. intros [= <- <-]. exists []. by rewrite app_nil_r. }
  unfold mbind at 1, mlift at 1.
  destruct (range0 (length (t :: texts)) b) as [starts|e|].
  - unfold mbind at 1.
    match goal with
    | |- context [mfold ?body starts [] tr] =>
        destruct (mfold body starts [] tr) as [o2 tr2] eqn:Hloop
    end.
    apply embed_loop_trace in Hloop as (calls & -> & Hcalls).
    destruct o2; unfold mlift; intros [= <- <-]; by exists calls.
  - intros [= <- <-]. exists []. by rewrite app_nil_r.
  - intros [= <- <-]. exists []. by rewrite app_nil_r.
Qed.

Lemma retrieve_trace E self query k tr o tr' :
  retrieve E self query k tr = (o, tr') ->
  exists calls, tr' = tr ++ calls
                /\ Forall (fun ev => exists batch, ev = EmbedCall batch) calls.
Proof.
  unfold retrieve. unfold mbind at 1.
  destruct (embed_texts E [query] 64 tr) as [o1 tr1] eqn:Hemb.
  apply embed_texts_trace in Hemb as (calls & -> & Hcalls).
  destruct o1 as [vectors|e|]; [|intros [= <- <-]; by exists calls..].
  unfold mbind at 1, mlift at 1.
  destruct (getitem vectors 0) as [query_vec|e|]; [|intros [= <- <-]; by exists calls..].
  unfold mbind at 1, mlift at 1.
  destruct (cosine_similarity query_vec (embeddings self)) as [sims|e|];
    [|intros [= <- <-]; by exists calls..].
  unfold mlift. intros [= <- <-]. by exists calls.
Qed.

Lemma call_chat_eq E who req tr :
  call_chat E who req tr
  = (of_env (chat_completions_create E tr req), tr ++ [ChatCall who req]).
Proof. reflexivity. Qed.

(** ** The revision gate of [run_pipeline] *)

(** What a run that returned went through. *)
Lemma run_pipeline_inv E RAG query k tr run tr' :
  run_pipeline E RAG query k tr = (Return run, tr') ->
  exists (retrieved : list doc) (before : list event),
    pr_retrieved_docs run = map text retrieved
    /\ pr_query run = query
    /\ (exists mid, before = tr ++ mid /\ calls_of Revision mid = 0%nat)
    /\ (exists hist reqc,
           chat_completions_create E hist reqc = inr (pr_critic_feedback run))
    /\ if needs_revision E (pr_critic_feedback run)
       then revise_answer E query (map text retrieved) (pr_draft_answer run)
              (pr_critic_feedback run) before
            = (Return (pr_final_answer run), tr')
            /\ exists reqr, tr' = before ++ [ChatCall Revision reqr]
       else pr_final_answer run = pr_draft_answer run /\ tr' = before.
Proof.
  unfold run_pipeline. unfold mbind at 1.
  destruct (retrieve E RAG query k tr) as [[retrieved|e|] t1] eqn:Hret;
    [|intros [=]..].
  destruct (retrieve_trace _ _ _ _ _ _ _ Hret) as (calls & -> & Hcalls).
  unfold mbind at 1, generate_plan. rewrite call_chat_eq.
  destruct (chat_completions_create E (tr ++ calls) _) as [e|plan];
    cbn [of_env]; [intros [=]|].
  unfold mbind at 1, generate_draft_answer. rewrite call_chat_eq.
  destruct (chat_completions_create E _ _) as [e|draft];
    cbn [of_env]; [intros [=]|].
  unfold mbind at 1, evaluate_answer. rewrite call_chat_eq.
  destruct (chat_completions_create E _ _) as [e|critic] eqn:Hcritic;
    cbn [of_env]; [intros [=]|].
  unfold mbind at 1.
  match goal with
  | |- context [(if needs_revision E critic then _ else _) ?b] =>
      set (before := b)
  end.
  assert (Hbefore : exists mid, before = tr ++ mid /\ calls_of Revision mid = 0%nat).
  { unfold before. rewrite <- !app_assoc. eexists. split; [reflexivity|].
    rewrite calls_of_app, (calls_of_embed _ _ Hcalls). reflexivity. }
  destruct (needs_revision E critic) eqn:Hneeds.
  - destruct (revise_answer E query (map text retrieved) draft critic before)
      as [[final|e|] t5] eqn:Hrev; [|intros [=]..].
    unfold mret. intros [= <- <-].
    exists retrieved, before.
    cbn [pr_retrieved_docs pr_query pr_draft_answer pr_critic_feedback pr_final_answer].
    split; [done|]. split; [done|]. split; [exact Hbefore|].
    split; [by eexists _, _|]. rewrite Hneeds. split; [exact Hrev|].
    unfold revise_answer in Hrev. rewrite call_chat_eq in Hrev.
    injection Hrev as _ <-. by eexists.
  - unfold mret. intros [= <- <-].
    exists retrieved, before.
    cbn [pr_retrieved_docs pr_query pr_draft_answer pr_critic_feedback pr_final_answer].
    split; [done|]. split; [done|]. split; [exact Hbefore|].
    split; [by eexists _, _|]. rewrite Hneeds. done.
Qed.

(** ** Substrings and upper case *)

Lemma starts_with_app p rest : Py.starts_with p (p ++ rest) = true.
Proof. induction p as [|a p IH]; [done|]. simpl. by rewrite N.eqb_refl, IH. Qed.

Lemma starts_with_inv p s :
  Py.starts_with p s = true -> exists rest, s = p ++ rest.
Proof.
  revert s. induction p as [|a p IH]; intros s; simpl.
  - intros _. by exists s.
  - destruct s as [|b s]; [done|]. intros H.
    apply andb_true_iff in H as [Hab Hrest]. apply N.eqb_eq in Hab as ->.
    apply IH in Hrest as [rest ->]. by exists rest.
Qed.

Lemma contains_unfold needle hay :
  Py.contains needle hay =
  Py.starts_with needle hay
  || match hay with [] => false | _ :: r => Py.contains needle r end.
Proof. destruct hay; reflexivity. Qed.

Lemma contains_intro needle pre post :
  Py.contains needle (pre ++ needle ++ post) = true.
Proof.
  induction pre as [|c pre IH].
  - rewrite contains_unfold. cbn [app]. by rewrite starts_with_app.
  - rewrite contains_unfold. cbn [app]. rewrite IH. apply orb_true_r.
Qed.

Lemma contains_inv needle hay :
  Py.contains needle hay = true -> exists pre post, hay = pre ++ needle ++ post.
Proof.
  induction hay as [|c hay IH]; rewrite contains_unfold; intros H;
    apply orb_true_iff in H as [H|H].
  - apply starts_with_inv in H as [rest ->]. by exists [], rest.
  - done.
  - apply starts_with_inv in H as [rest ->]. by exists [], rest.
  - apply IH in H as (pre & post & ->). by exists (c :: pre), post.
Qed.

Lemma upper_app E a b : upper E (a ++ b) = upper E a ++ upper E b.
Proof. unfold upper. apply flat_map_app. Qed.

Lemma upper_ascii E s :
  Forall (fun c => (c < 128)%N) s -> upper E s = map ascii_upper s.
Proof.
  induction 1 as [|c s Hc _ IH]; [done|].
  unfold upper in *. cbn [flat_map map]. rewrite IH. f_equal.
  unfold upper_char, ascii_upper.
  destruct ((97 <=? c) && (c <=? 122))%N; [done|].
  apply N.ltb_lt in Hc. by rewrite Hc.
Qed.

Lemma map_app_split {A B} (f : A -> B) l x y z :
  map f l = x ++ y ++ z ->
  exists a b c, l = a ++ b ++ c /\ map f a = x /\ map f b = y /\ map f c = z.
Proof.
  intros H. apply map_eq_app in H as (a & r & -> & Ha & Hr).
  apply map_eq_app in Hr as (b & c & -> & Hb & Hc). by exists a, b, c.
Qed.

Lemma mentions_marker_needs_revision E critic :
  mentions_marker critic -> needs_revision E critic = true.
Proof.
  intros (pre & mid & post & -> & Hascii & Hmid).
  unfold needs_revision. rewrite !upper_app, (upper_ascii E mid Hascii), Hmid.
  apply contains_intro.
Qed.

Lemma needs_revision_mentions_marker E critic :
  Forall (fun c => (c < 128)%N) critic ->
  needs_revision E critic = true -> mentions_marker critic.
Proof.
  intros Hascii. unfold needs_revision. rewrite (upper_ascii E critic Hascii).
  intros H. apply contains_inv in H as (x & z & H).
  apply map_app_split in H as (a & b & c & -> & _ & Hb & _).
  exists a, b, c. split; [done|]. split; [|done].
  apply Forall_app in Hascii as [_ Hascii]. by apply Forall_app in Hascii as [Hascii _].
Qed.

Lemma run_pipeline_returns E RAG query k tr :
  chat_always_answers E ->
  (exists docs tr1, retrieve E RAG query k tr = (Return docs, tr1)) ->
  exists run tr', run_pipeline E RAG query k tr = (Return run, tr').
Proof.
  intros Hchat (docs & tr1 & Hret).
  unfold run_pipeline. unfold mbind at 1. rewrite Hret.
  unfold mbind at 1, generate_plan. rewrite call_chat_eq.
  match goal with
  | |- context [chat_completions_create E ?h ?r] =>
      destruct (Hchat h r) as [plan ->]
  end. cbn [of_env].
  unfold mbind at 1, generate_draft_answer. rewrite call_chat_eq.
  match goal with
  | |- context [chat_completions_create E ?h ?r] =>
      destruct (Hchat h r) as [draft ->]
  end. cbn [of_env].
  unfold mbind at 1, evaluate_answer. rewrite call_chat_eq.
  match goal with
  | |- context [chat_completions_create E ?h ?r] =>
      destruct (Hchat h r) as [critic ->]
  end. cbn [of_env].
  unfold mbind at 1.
  destruct (needs_revision E critic).
  - unfold revise_answer. rewrite call_chat_eq.
    match goal with
    | |- context [chat_completions_create E ?h ?r] =>
        destruct (Hchat h r) as [final ->]
    end. cbn [of_env]. unfold mret. by eexists _, _.
  - unfold mret. by eexists _, _.
Qed.

(** C1. For every environment, retriever, query and [k]: when
    [run_pipeline] returns, the trace grows by the calls of the run, and
    [final_answer] equals [draft_answer] with no call of the revision stage
    if and only if ["VERDICT: REVISE"] is not in the upper-cased critic
    output; when it is, the revision stage is called once, as the last call
    of the run, and [final_answer] is what it returned. The test fires on
    every critic output that contains the marker in some case, and for an
    ASCII output on no other. The run does return when retrieval returns
    and the chat service answers. *)
Theorem run_pipeline_revision_gate
    (E : Env) (RAG : SimpleRAG) (query : list N) (k : Z) (tr : list event) :
  (forall run tr',
      run_pipeline E RAG query k tr = (Return run, tr') ->
      exists new,
        tr' = tr ++ new
        /\ ((pr_final_answer run = pr_draft_answer run
             /\ calls_of Revision new = 0%nat)
            <-> needs_revision E (pr_critic_feedback run) = false)
        /\ (needs_revision E (pr_critic_feedback run) = true ->
            calls_of Revision new = 1%nat
            /\ exists before reqr,
                tr' = before ++ [ChatCall Revision reqr]
                /\ revise_answer E (pr_query run) (pr_retrieved_docs run)
                     (pr_draft_answer run) (pr_critic_feedback run) before
                   = (Return (pr_final_answer run), tr')))
  /\ (forall critic, mentions_marker critic -> needs_revision E critic = true)
  /\ (forall critic,
         Forall (fun c => (c < 128)%N) critic ->
         needs_revision E critic = true -> mentions_marker critic)
  /\ (chat_always_answers E ->
      (exists docs tr1, retrieve E RAG query k tr = (Return docs, tr1)) ->
      exists run tr', run_pipeline E RAG query k tr = (Return run, tr')).
Proof.
  split; [|split; [|split]].
  - intros run tr' Hrun.
    apply run_pipeline_inv in Hrun
      as (retrieved & before & Hdocs & Hq & (mid & -> & Hmid) & _ & Hgate).
    destruct (needs_revision E (pr_critic_feedback run)) eqn:Hneeds.
    + destruct Hgate as [Hrev [reqr ->]].
      exists (mid ++ [ChatCall Revision reqr]).
      assert (Hcount : calls_of Revision (mid ++ [ChatCall Revision reqr]) = 1%nat)
        by (rewrite calls_of_app, Hmid; reflexivity).
      split; [by rewrite app_assoc|]. split.
      * split; [intros [_ H0]; rewrite Hcount in H0; discriminate|discriminate].
      * intros _. split; [exact Hcount|].
        exists (tr ++ mid), reqr. split; [reflexivity|].
        by rewrite Hq, Hdocs.
    + destruct Hgate as [Hfinal ->]. exists mid.
      split; [reflexivity|]. split; [by split|discriminate].
  - intros critic. apply mentions_marker_needs_revision.
  - intros critic. apply needs_revision_mentions_marker.
  - apply run_pipeline_returns.
Qed.

Lemma run_pipeline_revision_gate_witness :
  (exists run tr',
      run_pipeline example_env example_index (Py.lit "What is responsible AI?") 1 []
        = (Return run, tr')
      /\ pr_final_answer run = pr_draft_answer run
      /\ calls_of Revision tr' = 0%nat)
  /\ (exists run tr',
         run_pipeline revising_env example_index (Py.lit "What is responsible AI?") 1 []
           = (Return run, tr')
         /\ calls_of Revision tr' = 1%nat).
Proof.
  split.
  - destruct (run_pipeline_revision_gate example_env example_index
                (Py.lit "What is responsible AI?") 1 []) as (Hgate & _ & _ & Hreturns).
    destruct Hreturns as (run & tr' & Hrun).
    + intros h req. by eexists.
    + eexists _, _. vm_compute. reflexivity.
    + exists run, tr'. split; [exact Hrun|].
      destruct (Hgate run tr' Hrun) as (new & -> & [_ Hno] & _).
      apply Hno. revert Hrun. vm_compute. intros [= <- _]. reflexivity.
  - destruct (run_pipeline_revision_gate revising_env example_index
                (Py.lit "What is responsible AI?") 1 []) as (Hgate & _ & _ & Hreturns).
    destruct Hreturns as (run & tr' & Hrun).
    + intros h req. unfold revising_env. cbn [chat_completions_create].
      destruct (decide _); by eexists.
    + eexists _, _. vm_compute. reflexivity.
    + exists run, tr'. split; [exact Hrun|].
      destruct (Hgate run tr' Hrun) as (new & -> & _ & Hyes).
      apply Hyes. revert Hrun. vm_compute. intros [= <- _]. reflexivity.
Defined.

(** ** Finding the braces *)










(** ** The critic parser *)

Lemma parse_critic_json_returns E text :
  exists v, parse_critic_json E text = Return v.
Proof.
  unfold parse_critic_json. destruct text as [|c text]; [by eexists|].
  destruct (json_loads E (c :: text)) as [e|v]; cbn [of_env try_except]; [|by eexists].
  destruct (brace_snippet (c :: text)) as [snippet|]; [|by eexists].
  destruct (json_loads E snippet) as [e'|v]; cbn [of_env try_except]; by eexists.
Qed.

Lemma py_get_dict d key : exists v, py_get (JDict d) key = Return v.
Proof. by eexists. Qed.

(** ** What [JSONResponse] renders *)

Lemma docs_floats_finite docs :
  Forall doc_renders docs -> forallb floats_finite (map doc_json docs) = true.
Proof.
  induction 1 as [|d docs (Hf & _ & _) _ IH]; [done|].
  cbn [map forallb]. rewrite IH. cbn. by rewrite Hf.
Qed.

Lemma docs_strings_encodable docs :
  Forall doc_renders docs -> forallb strings_encodable (map doc_json docs) = true.
Proof.
  induction 1 as [|d docs (_ & Ht & Hs) _ IH]; [done|].
  cbn [map forallb]. rewrite IH.
  cbn [doc_json strings_encodable forallb fst snd]. rewrite Ht, Hs. reflexivity.
Qed.

Lemma docs_not_finite docs :
  Exists (fun d => is_finite (similarity d) = false) docs ->
  forallb floats_finite (map doc_json docs) = false.
Proof.
  induction 1 as [d docs Hd|d docs _ IH]; cbn [map forallb].
  - cbn. by rewrite Hd.
  - rewrite IH. apply andb_false_r.
Qed.

Lemma clamp_finite x :
  is_finite (py_max2 (S754_zero false) (py_min2 f32_one x)) = true.
Proof.
  unfold py_max2, py_min2.
  destruct (SFltb x f32_one) eqn:H1.
  - destruct (SFltb (S754_zero false) x) eqn:H2; [|done].
    destruct x as [s|s| |s m e]; try done. by destruct s.
  - by destruct (SFltb (S754_zero false) f32_one).
Qed.

Lemma evidence_json_renders docs : json_renders (evidence_json docs).
Proof.
  unfold evidence_json, compute_evidence_score.
  destruct docs as [|d docs]; [done|]. cbn [map].
  split; [apply clamp_finite|done].
Qed.

Lemma py_get_renders v key r :
  json_renders v -> py_get v key = Return r -> json_renders r.
Proof.
  intros [Hf Hs]. destruct v; try discriminate. cbn [py_get].
  intros [= <-].
  destruct (list_find _ d) as [[i kv]|] eqn:Hfind; [|done].
  apply list_find_Some in Hfind as (Hkv & _ & _).
  apply list_elem_of_lookup_2 in Hkv. apply list_elem_of_In in Hkv.
  cbn [floats_finite strings_encodable] in Hf, Hs.
  rewrite forallb_forall in Hf, Hs.
  specialize (Hf kv Hkv). specialize (Hs kv Hkv).
  apply andb_prop in Hs as [_ Hs]. done.
Qed.

Lemma critic_fields_falsy v : truthy v = false -> critic_fields v = Return None.
Proof. intros H. unfold critic_fields. by rewrite H. Qed.

Lemma critic_fields_non_object v :
  truthy v = true -> (forall d, v <> JDict d) -> critic_fields v = Raise AttributeError.
Proof.
  intros H Hnot. unfold critic_fields. rewrite H.
  destruct v; try reflexivity. by destruct (Hnot d).
Qed.

Lemma critic_fields_object d :
  truthy (JDict d) = true ->
  exists m, critic_fields (JDict d) = Return (Some m)
            /\ py_get (JDict d) (Py.lit "overall_score") = Return (overall_score m)
            /\ py_get (JDict d) (Py.lit "grounding_score") = Return (grounding_score m)
            /\ py_get (JDict d) (Py.lit "safety_score") = Return (safety_score m)
            /\ py_get (JDict d) (Py.lit "hallucination_risk") = Return (hallucination_risk m)
            /\ py_get (JDict d) (Py.lit "issues") = Return (issues m)
            /\ py_get (JDict d) (Py.lit "suggestions") = Return (suggestions m)
            /\ py_get (JDict d) (Py.lit "summary") = Return (critic_summary m).
Proof.
  intros H. unfold critic_fields. rewrite H. cbn [py_get obind].
  eexists. split; [reflexivity|]. cbn [overall_score grounding_score safety_score
    hallucination_risk issues suggestions critic_summary]. done.
Qed.

Lemma critic_meta_items_render v m :
  json_renders v -> critic_fields v = Return m ->
  forallb (fun kv => floats_finite (snd kv)) (critic_meta_items m) = true
  /\ forallb (fun kv => encodable (fst kv) && strings_encodable (snd kv))
             (critic_meta_items m) = true.
Proof.
  intros Hv. unfold critic_fields. destruct (truthy v); [|by intros [= <-]].
  destruct (py_get v (Py.lit "overall_score")) as [a| |] eqn:Ha; try discriminate.
  destruct (py_get v (Py.lit "grounding_score")) as [b| |] eqn:Hb; try discriminate.
  destruct (py_get v (Py.lit "safety_score")) as [c| |] eqn:Hc; try discriminate.
  destruct (py_get v (Py.lit "hallucination_risk")) as [h| |] eqn:Hh; try discriminate.
  destruct (py_get v (Py.lit "issues")) as [e| |] eqn:He; try discriminate.
  destruct (py_get v (Py.lit "suggestions")) as [f| |] eqn:Hf; try discriminate.
  destruct (py_get v (Py.lit "summary")) as [g| |] eqn:Hg; try discriminate.
  cbn [obind]. intros [= <-].
  destruct (py_get_renders _ _ _ Hv Ha) as [Fa Sa].
  destruct (py_get_renders _ _ _ Hv Hb) as [Fb Sb].
  destruct (py_get_renders _ _ _ Hv Hc) as [Fc Sc].
  destruct (py_get_renders _ _ _ Hv Hh) as [Fh Sh].
  destruct (py_get_renders _ _ _ Hv He) as [Fe Se].
  destruct (py_get_renders _ _ _ Hv Hf) as [Ff Sf].
  destruct (py_get_renders _ _ _ Hv Hg) as [Fg Sg].
  cbn [critic_meta_items forallb fst snd overall_score grounding_score safety_score
       hallucination_risk issues suggestions critic_summary].
  rewrite Fa, Fb, Fc, Fh, Fe, Ff, Fg, Sa, Sb, Sc, Sh, Se, Sf, Sg.
  split; vm_compute; reflexivity.
Qed.

(** The response of the responsible branch renders when its parts do. *)
Lemma responsible_content_renders docs texts plan critic_text safe_answer parsed meta :
  Forall doc_renders docs ->
  encodable plan = true -> encodable critic_text = true ->
  encodable safe_answer = true ->
  (truthy parsed = true -> json_renders parsed) ->
  critic_fields parsed = Return meta ->
  JSONResponse (responsible_content
                  (responsible_result docs texts plan critic_text safe_answer parsed meta))
  = Return tt.
Proof.
  intros Hdocs Hplan Hcritic Hsafe Hparsed Hmeta.
  assert (Hitems : forallb (fun kv => floats_finite (snd kv)) (critic_meta_items meta) = true
                   /\ forallb (fun kv => encodable (fst kv) && strings_encodable (snd kv))
                              (critic_meta_items meta) = true).
  { destruct (truthy parsed) eqn:Ht.
    - apply (critic_meta_items_render parsed); [by apply Hparsed|done].
    - rewrite (critic_fields_falsy _ Ht) in Hmeta. by injection Hmeta as <-. }
  destruct Hitems as [Hif His].
  assert (Hc : json_renders (if truthy parsed
                             then parsed else JStr critic_text)).
  { destruct (truthy parsed); [by apply Hparsed|by split]. }
  destruct Hc as [Hcf Hcs].
  destruct (evidence_json_renders docs) as [Hef Hes].
  unfold JSONResponse.
  assert (Hff : floats_finite
                  (responsible_content
                     (responsible_result docs texts plan critic_text safe_answer parsed meta))
                = true).
  { cbn [responsible_content responsible_result floats_finite forallb snd app
         rr_retrieved rr_plan rr_critic rr_critic_raw rr_safe_answer rr_answer
         rr_num_sources rr_critic_meta].
    rewrite (docs_floats_finite _ Hdocs), Hef, Hif.
    destruct (truthy parsed); by rewrite Hcf. }
  assert (Hse : strings_encodable
                  (responsible_content
                     (responsible_result docs texts plan critic_text safe_answer parsed meta))
                = true).
  { cbn [responsible_content responsible_result strings_encodable forallb fst snd app
         rr_retrieved rr_plan rr_critic rr_critic_raw rr_safe_answer rr_answer
         rr_num_sources rr_critic_meta].
    rewrite (docs_strings_encodable _ Hdocs), Hes, His, Hplan, Hcritic, Hsafe.
    destruct (truthy parsed); rewrite Hcs; vm_compute; reflexivity. }
  by rewrite Hff, Hse.
Qed.

(** A similarity that is NaN or infinite makes the rendering raise. *)
Lemma responsible_content_not_finite docs texts plan critic_text safe_answer parsed meta :
  Exists (fun d => is_finite (similarity d) = false) docs ->
  JSONResponse (responsible_content
                  (responsible_result docs texts plan critic_text safe_answer parsed meta))
  = Raise ValueError.
Proof.
  intros Hdocs. unfold JSONResponse.
  assert (Hff : floats_finite
                  (responsible_content
                     (responsible_result docs texts plan critic_text safe_answer parsed meta))
                = false).
  { cbn [responsible_content responsible_result floats_finite forallb snd
         rr_retrieved]. by rewrite (docs_not_finite _ Hdocs). }
  by rewrite Hff.
Qed.

(** The part after the critic call, step by step. *)
Lemma respond_after_critic_eq E query docs texts plan draft_text critic_text tr parsed :
  parse_critic_json E critic_text = Return parsed ->
  respond_after_critic E query docs texts plan draft_text critic_text tr
  = (match chat_completions_create E tr
             (safe_rewrite_request E query texts draft_text parsed critic_text) with
     | inl e => Raise e
     | inr safe_answer =>
         (meta <- critic_fields parsed ;;
          _ <- JSONResponse
                 (responsible_content
                    (responsible_result docs texts plan critic_text safe_answer
                                        parsed meta)) ;;
          Return (responsible_result docs texts plan critic_text safe_answer
                                     parsed meta))%outcome
     end,
     tr ++ [ChatCall SafeRewrite
              (safe_rewrite_request E query texts draft_text parsed critic_text)]).
Proof.
  intros Hparsed. unfold respond_after_critic.
  unfold mbind at 1, mlift at 1. rewrite Hparsed.
  unfold mbind at 1. rewrite call_chat_eq.
  destruct (chat_completions_create E tr _) as [e|safe]; cbn [of_env]; [done|].
  unfold mbind at 1, mlift at 1.
  destruct (critic_fields parsed) as [meta|e|]; cbn [obind]; [|done..].
  unfold mbind, mlift, mret.
  by destruct (JSONResponse _) as [[]|e|].
Qed.




(** ** Two further facts on the responsible branch of [run_query] *)

(** When the whole critic output parses as a JSON value that counts as true
    and is not an object, the parser returns it as it is, and the branch
    then raises [AttributeError] at [critic_parsed.get], after the
    safe-rewrite call. *)
Lemma respond_after_critic_non_object
    (E : Env) (query : list N) (docs : list doc) (texts : list (list N))
    (plan draft_text critic_text : list N) (tr : list event) (v : json) :
  chat_always_answers E ->
  critic_text <> [] ->
  json_loads E critic_text = inr v ->
  truthy v = true ->
  (forall d, v <> JDict d) ->
  parse_critic_json E critic_text = Return v
  /\ exists req,
      respond_after_critic E query docs texts plan draft_text critic_text tr
      = (Raise AttributeError, tr ++ [ChatCall SafeRewrite req]).
Proof.
  intros Hchat Hne Hv Htruthy Hnot.
  assert (Hparse : parse_critic_json E critic_text = Return v).
  { unfold parse_critic_json. destruct critic_text; [done|]. by rewrite Hv. }
  split; [exact Hparse|].
  rewrite (respond_after_critic_eq _ _ _ _ _ _ _ _ _ Hparse).
  destruct (Hchat tr (safe_rewrite_request E query texts draft_text v critic_text))
    as [safe ->].
  rewrite critic_fields_non_object by done. by eexists.
Qed.

Lemma respond_after_critic_non_object_witness :
  parse_critic_json true_critic_env (Py.lit "true") = Return (JBool true)
  /\ exists req,
      respond_after_critic true_critic_env (Py.lit "q") [] [] [] [] (Py.lit "true") []
      = (Raise AttributeError, [] ++ [ChatCall SafeRewrite req]).
Proof.
  apply (respond_after_critic_non_object true_critic_env (Py.lit "q") [] [] [] []
           (Py.lit "true") [] (JBool true)).
  - intros h r. unfold true_critic_env. cbn [chat_completions_create].
    destruct (decide _); by eexists.
  - discriminate.
  - reflexivity.
  - reflexivity.
  - discriminate.
Defined.


(** The responsible branch of [run_query] asks for the safe rewrite on
    every run, whatever the critic says: a returned response comes with
    exactly one safe-rewrite call, the last of the run, and no call of the
    revision stage. *)
Lemma run_query_responsible_always_rewrites
    (E : Env) (rag : SimpleRAG) (query : list N) (tr : list event)
    (resp : responsible_response) (tr' : list event) :
  run_query_responsible E rag query tr = (Return resp, tr') ->
  exists new req,
    tr' = tr ++ new ++ [ChatCall SafeRewrite req]
    /\ calls_of SafeRewrite (new ++ [ChatCall SafeRewrite req]) = 1%nat
    /\ calls_of Revision (new ++ [ChatCall SafeRewrite req]) = 0%nat
    /\ rr_answer resp = rr_safe_answer resp.
Proof.
  unfold run_query_responsible. unfold mbind at 1.
  destruct (retrieve E rag query 3 tr) as [[docs|e|] t1] eqn:Hret; [|intros [=]..].
  destruct (retrieve_trace _ _ _ _ _ _ _ Hret) as (calls & -> & Hcalls).
  unfold mbind at 1, generate_plan. rewrite call_chat_eq.
  destruct (chat_completions_create E _ _) as [e|plan]; cbn [of_env]; [intros [=]|].
  unfold mbind at 1. rewrite call_chat_eq.
  destruct (chat_completions_create E _ _) as [e|draft]; cbn [of_env]; [intros [=]|].
  unfold mbind at 1, evaluate_answer. rewrite call_chat_eq.
  destruct (chat_completions_create E _ _) as [e|critic]; cbn [of_env]; [intros [=]|].
  destruct (parse_critic_json_returns E critic) as [parsed Hparsed].
  rewrite (respond_after_critic_eq _ _ _ _ _ _ _ _ _ Hparsed).
  destruct (chat_completions_create E _ _) as [e|safe]; [intros [=]|].
  destruct (critic_fields parsed) as [meta|e|]; cbn [obind]; [|intros [=]..].
  destruct (JSONResponse _) as [[]|e|]; cbn [obind]; [|intros [=]..].
  intros [= <- <-].
  match goal with
  | |- exists new req,
        ((((tr ++ calls) ++ [?p]) ++ [?d]) ++ [?c]) ++ [ChatCall SafeRewrite ?r] = _ /\ _ =>
      exists (calls ++ [p; d; c]), r
  end.
  split; [by rewrite <- !app_assoc|].
  cbn [rr_answer rr_safe_answer].
  rewrite !calls_of_app, !(calls_of_embed _ _ Hcalls). done.
Qed.

Lemma run_query_responsible_always_rewrites_witness :
  exists new req,
    snd (run_query_responsible revising_env example_index (Py.lit "q") [])
    = [] ++ new ++ [ChatCall SafeRewrite req]
    /\ calls_of SafeRewrite (new ++ [ChatCall SafeRewrite req]) = 1%nat
    /\ calls_of Revision (new ++ [ChatCall SafeRewrite req]) = 0%nat.
Proof.
  pose (run := run_query_responsible revising_env example_index (Py.lit "q") []).
  destruct (run_query_responsible_always_rewrites revising_env example_index
              (Py.lit "q") []
              (match fst run with
               | Return r => r
               | _ => {| rr_retrieved := []; rr_plan := []; rr_critic := inr [];
                         rr_critic_raw := []; rr_safe_answer := []; rr_answer := [];
                         rr_num_sources := 0; rr_critic_meta := None |}
               end)
              (snd run))
    as (new & req & Htr & Hone & Hzero & _).
  - vm_compute. reflexivity.
  - exists new, req. split; [exact Htr|]. split; [exact Hone|exact Hzero].
Defined.

(* ===================================================================== *)
(** * Part III — further properties of the code                           *)
(* ===================================================================== *)

(** ** The windows of [split_into_chunks] *)

Lemma window_count_lt n max_words overlap i :
  overlap < max_words ->
  (i < window_count n max_words overlap)%nat <->
  Z.of_nat i * (max_words - overlap) < Z.of_nat n.
Proof.
  intros Hs. unfold window_count.
  set (s := max_words - overlap). assert (0 < s) by (unfold s; lia).
  assert (Hq : 0 <= (Z.of_nat n + s - 1) / s) by (apply Z.div_pos; lia).
  pose proof (Z.div_mod (Z.of_nat n + s - 1) s ltac:(lia)) as Hdm.
  pose proof (Z.mod_pos_bound (Z.of_nat n + s - 1) s ltac:(lia)) as Hm.
  split; intros Hi.
  - assert (Z.of_nat i < (Z.of_nat n + s - 1) / s) by lia. nia.
  - assert (Z.of_nat i < (Z.of_nat n + s - 1) / s); [|lia]. nia.
Qed.

Lemma window_count_le n max_words overlap :
  overlap < max_words -> (window_count n max_words overlap <= n)%nat.
Proof.
  intros Hs.
  destruct (decide (window_count n max_words overlap <= n)%nat) as [|Hgt]; [done|].
  assert (Hn : (n < window_count n max_words overlap)%nat) by lia.
  apply window_count_lt in Hn; [|done]. nia.
Qed.

(** The loop started at the [i]-th window appends the remaining windows. *)
Lemma chunk_loop_windows words max_words overlap :
  overlap < max_words ->
  forall fuel i chunks,
    (window_count (length words) max_words overlap - i <= fuel)%nat ->
    chunk_loop fuel words max_words overlap (Z.of_nat i * (max_words - overlap)) chunks
    = Some (chunks ++
            map (fun j => Py.strip (Py.join [Py.SPACE] (window words max_words overlap j)))
                (seq i (window_count (length words) max_words overlap - i))).
Proof.
  intros Hs. induction fuel as [|fuel IH]; intros i chunks Hf.
  - rewrite chunk_loop_unfold.
    destruct (Z.ltb_spec (Z.of_nat i * (max_words - overlap)) (Py.len words)) as [Hlt|Hge].
    + apply (window_count_lt (length words) _ _ i Hs) in Hlt. lia.
    + replace (_ - i)%nat with 0%nat by lia. simpl. by rewrite app_nil_r.
  - rewrite (chunk_loop_unfold (S fuel)).
    destruct (Z.ltb_spec (Z.of_nat i * (max_words - overlap)) (Py.len words)) as [Hlt|Hge].
    + apply (window_count_lt (length words) _ _ i Hs) in Hlt.
      replace (Z.of_nat i * (max_words - overlap) + max_words - overlap)
        with (Z.of_nat (S i) * (max_words - overlap)) by lia.
      rewrite IH by lia.
      replace (window_count (length words) max_words overlap - i)%nat
        with (S (window_count (length words) max_words overlap - S i)) by lia.
      simpl seq. rewrite map_cons, <- app_assoc. reflexivity.
    + assert (~ (i < window_count (length words) max_words overlap)%nat).
      { rewrite window_count_lt by done. unfold Py.len in Hge. lia. }
      replace (_ - i)%nat with 0%nat by lia. simpl. by rewrite app_nil_r.
Qed.

Lemma slice_lookup {A} (l : list A) (a b : Z) (k : nat) :
  0 <= a -> 0 <= b ->
  Py.slice l a b !! k =
  if decide (a + Z.of_nat k < b) then l !! (Z.to_nat a + k)%nat else None.
Proof.
  intros Ha Hb. unfold Py.slice, Py.clamp.
  destruct (Z.ltb_spec a 0); [lia|]. destruct (Z.ltb_spec b 0); [lia|].
  set (n := length l).
  destruct (decide (k < Z.to_nat (Z.min b (Z.of_nat n)) - Z.to_nat (Z.min a (Z.of_nat n)))%nat)
    as [Hk|Hk].
  - rewrite lookup_take_lt by done. rewrite lookup_drop.
    destruct (decide (a + Z.of_nat k < b)) as [Hab|Hab]; [|lia].
    f_equal. lia.
  - rewrite lookup_take_ge by lia.
    destruct (decide (a + Z.of_nat k < b)) as [Hab|Hab]; [|done].
    symmetry. apply lookup_ge_None. fold n. lia.
Qed.

Lemma window_lookup words max_words overlap i k :
  0 <= overlap < max_words ->
  window words max_words overlap i !! k =
  if decide (Z.of_nat k < max_words)
  then words !! (i * Z.to_nat (max_words - overlap) + k)%nat else None.
Proof.
  intros Hs. unfold window. rewrite slice_lookup by nia.
  destruct (decide (Z.of_nat k < max_words)), (decide (_ + Z.of_nat k < _ + max_words));
    try lia; [|done].
  f_equal. nia.
Qed.

Lemma window_words text max_words overlap i :
  Forall is_word (window (Py.split text) max_words overlap i).
Proof. apply slice_Forall, split_words. Qed.

(** Splitting a chunk gives back the words of its window. *)
Lemma window_chunk_split text max_words overlap i :
  Py.split (Py.strip (Py.join [Py.SPACE] (window (Py.split text) max_words overlap i)))
  = window (Py.split text) max_words overlap i.
Proof. rewrite split_strip. apply split_join_words, window_words. Qed.

Lemma window_nonempty words max_words overlap i :
  0 <= overlap < max_words ->
  (i < window_count (length words) max_words overlap)%nat ->
  window words max_words overlap i <> [].
Proof.
  intros Hs Hi Hnil.
  apply window_count_lt in Hi; [|lia].
  pose proof (window_lookup words max_words overlap i 0 Hs) as Hl.
  rewrite Hnil in Hl. destruct (decide (Z.of_nat 0 < max_words)); [|lia].
  simpl in Hl. symmetry in Hl. apply lookup_ge_None in Hl. nia.
Qed.

(** The long case of [split_into_chunks] in closed form. *)
Lemma split_into_chunks_closed_form text max_words overlap fuel :
  overlap < max_words ->
  max_words < Z.of_nat (word_count text) ->
  (window_count (word_count text) max_words overlap <= fuel)%nat ->
  split_into_chunks fuel text max_words overlap
  = Some (map (fun j => Py.strip (Py.join [Py.SPACE]
                                   (window (Py.split text) max_words overlap j)))
              (seq 0 (window_count (word_count text) max_words overlap))).
Proof.
  intros Hs Hlong Hf. unfold split_into_chunks, word_count in *.
  destruct (Py.split text) as [|w ws] eqn:Hw.
  - (* no word: the long case then has a negative maximum, and no window *)
    assert (H0 : window_count (length (@nil (list N))) max_words overlap = 0%nat).
    { unfold window_count. simpl length. simpl Z.of_nat.
      rewrite Z.div_small by lia. done. }
    by rewrite H0.
  - destruct (Z.leb_spec (Py.len (w :: ws)) max_words) as [Hle|_].
    { unfold Py.len in Hle. lia. }
    pose proof (chunk_loop_windows (w :: ws) max_words overlap Hs fuel 0 []) as H.
    simpl Z.of_nat in H. rewrite Z.mul_0_l, Nat.sub_0_r in H.
    rewrite H by lia. done.
Qed.

Lemma window_overlap words max_words overlap i :
  0 <= overlap < max_words ->
  Py.slice (window words max_words overlap i) (max_words - overlap) max_words
  = Py.slice (window words max_words overlap (S i)) 0 overlap.
Proof.
  intros Hs. apply list_eq. intros k.
  rewrite !slice_lookup by lia. rewrite !window_lookup by done.
  repeat case_decide; try lia; try done.
  f_equal. lia.
Qed.

Lemma window_covers words max_words overlap j w :
  0 <= overlap < max_words ->
  words !! j = Some w ->
  exists i, (i < window_count (length words) max_words overlap)%nat
            /\ w ∈ window words max_words overlap i.
Proof.
  intros Hs Hj.
  set (s := Z.to_nat (max_words - overlap)).
  assert (Hs0 : (0 < s)%nat) by (unfold s; lia).
  exists (j / s)%nat.
  pose proof (Nat.div_mod_eq j s) as Hdm.
  pose proof (Nat.mod_upper_bound j s ltac:(lia)) as Hm.
  apply lookup_lt_Some in Hj as Hlt.
  split.
  - apply window_count_lt; [lia|]. unfold s in *. nia.
  - apply (list_elem_of_lookup_2 _ (j mod s)%nat).
    rewrite window_lookup by done. fold s.
    case_decide; [|unfold s in *; lia].
    rewrite <- Hj. f_equal. lia.
Qed.

(** X3. For [0 <= overlap < max_words] and a text of more than [max_words]
    words, [split_into_chunks] returns (one iteration per word is enough)
    one chunk per window start [0, s, 2s, ...] below the number of words,
    with [s = max_words - overlap]: that is the number of words divided by
    [s], rounded up. Chunk [i] is not empty, has no outer whitespace, and
    its words are [words[i*s : i*s + max_words]]; the words of a chunk from
    position [max_words - overlap] on are the first [overlap] words of the
    next chunk; and every word of the text is in some chunk. *)
Theorem split_into_chunks_windows (text : list N) (max_words overlap : Z) :
  0 <= overlap < max_words ->
  max_words < Z.of_nat (word_count text) ->
  exists chunks,
    (forall extra,
        split_into_chunks (word_count text + extra) text max_words overlap = Some chunks)
    /\ length chunks = window_count (word_count text) max_words overlap
    /\ (forall i c,
           chunks !! i = Some c ->
           c <> [] /\ Py.strip c = c
           /\ Py.split c = window (Py.split text) max_words overlap i)
    /\ (forall i c1 c2,
           chunks !! i = Some c1 -> chunks !! S i = Some c2 ->
           Py.slice (Py.split c1) (max_words - overlap) max_words
           = Py.slice (Py.split c2) 0 overlap)
    /\ (forall w, w ∈ Py.split text -> exists c, c ∈ chunks /\ w ∈ Py.split c).
Proof.
  intros Hs Hlong.
  set (m := window_count (word_count text) max_words overlap).
  set (chunk := fun j => Py.strip (Py.join [Py.SPACE]
                                     (window (Py.split text) max_words overlap j))).
  assert (Hlook : forall i c, map chunk (seq 0 m) !! i = Some c ->
                              (i < m)%nat /\ c = chunk i).
  { intros i c Hi. rewrite list_lookup_fmap in Hi.
    destruct (seq 0 m !! i) as [j|] eqn:Hj; [|done].
    apply lookup_seq in Hj as [-> ?]. simpl in Hi. by injection Hi as <-. }
  exists (map chunk (seq 0 m)). split_and!.
  - intros extra. apply split_into_chunks_closed_form; [lia|done|].
    pose proof (window_count_le (word_count text) max_words overlap). lia.
  - by rewrite length_map, length_seq.
  - intros i c Hi. apply Hlook in Hi as [Hi ->]. unfold chunk.
    split_and!.
    + intros Hnil.
      pose proof (window_chunk_split text max_words overlap i) as Hw.
      rewrite Hnil in Hw.
      by apply (window_nonempty (Py.split text) max_words overlap i Hs).
    + apply strip_idemp.
    + apply window_chunk_split.
  - intros i c1 c2 H1 H2. apply Hlook in H1 as [_ ->]. apply Hlook in H2 as [_ ->].
    unfold chunk. rewrite !window_chunk_split. by apply window_overlap.
  - intros w Hw. apply list_elem_of_lookup in Hw as [j Hj].
    destruct (window_covers _ max_words overlap j w Hs Hj) as (i & Hi & Hin).
    exists (chunk i). split.
    + apply (list_elem_of_lookup_2 _ i). rewrite list_lookup_fmap.
      by rewrite lookup_seq_lt.
    + unfold chunk. by rewrite window_chunk_split.
Qed.

(** Five words, three per chunk, one shared: the chunks are
    [a b c], [c d e] and [e]. *)
Lemma split_into_chunks_windows_witness :
  exists chunks,
    split_into_chunks 5 (Py.lit "a b c d e") 3 1 = Some chunks
    /\ length chunks = 3%nat
    /\ (forall w, w ∈ Py.split (Py.lit "a b c d e") ->
                  exists c, c ∈ chunks /\ w ∈ Py.split c).
Proof.
  destruct (split_into_chunks_windows (Py.lit "a b c d e") 3 1)
    as (chunks & Hrun & Hlen & _ & _ & Hcover).
  - lia.
  - vm_compute. reflexivity.
  - exists chunks. split; [exact (Hrun 0%nat)|]. split; [exact Hlen|exact Hcover].
Defined.

(** ** The chunks of a loaded corpus *)

Lemma split_go_nil s acc :
  Py.split_go acc s = [] -> acc = [] /\ Forall (fun c => Py.is_space c = true) s.
Proof.
  revert acc. induction s as [|c s IH]; intros acc; simpl.
  - destruct acc; [done|discriminate].
  - destruct (Py.is_space c) eqn:Hc.
    + destruct acc; [|discriminate]. intros H. apply IH in H as [_ H].
      split; [done|]. by constructor.
    + intros H. apply IH in H as [H _]. discriminate.
Qed.

Lemma rstrip_blank s :
  Forall (fun c => Py.is_space c = true) s -> Py.rstrip s = [].
Proof. induction 1 as [|c s Hc _ IH]; [done|]. simpl. by rewrite IH, Hc. Qed.

Lemma split_nil_strip s : Py.split s = [] -> Py.strip s = [].
Proof.
  intros H. apply split_go_nil in H as [_ H].
  unfold Py.strip. by rewrite rstrip_blank.
Qed.

Lemma stripped_nonempty_words c :
  c <> [] -> Py.strip c = c -> (1 <= word_count c)%nat.
Proof.
  intros Hne Hs. unfold word_count.
  destruct (Py.split c) eqn:Hsp; [|simpl; lia].
  apply split_nil_strip in Hsp. congruence.
Qed.

Lemma strip_nonempty s : (0 < word_count s)%nat -> Py.strip s <> [].
Proof.
  intros Hw Hnil. rewrite <- word_count_strip, Hnil in Hw.
  unfold word_count in Hw. simpl in Hw. lia.
Qed.

Lemma para_chunks_nonempty para cs :
  para_chunks para = Some cs ->
  Forall (fun c => c <> [] /\ Py.strip c = c) cs.
Proof.
  unfold para_chunks. intros Hc.
  destruct (decide (word_count para = 0%nat)) as [H0|H0].
  - unfold split_into_chunks, word_count in *.
    destruct (Py.split para); [|done]. injection Hc as <-. constructor.
  - destruct (decide (Z.of_nat (word_count para) <= 200)) as [Hle|Hgt].
    + rewrite split_into_chunks_short in Hc by lia. injection Hc as <-.
      constructor; [|constructor]. split; [apply strip_nonempty; lia|apply strip_idemp].
    + rewrite split_into_chunks_closed_form in Hc; [|lia|lia|].
      2:{ apply window_count_le. lia. }
      injection Hc as <-. apply Forall_forall. intros c Hin.
      apply list_elem_of_fmap in Hin as (j & -> & Hj).
      apply elem_of_seq in Hj. split; [|apply strip_idemp].
      intros Hnil.
      pose proof (window_chunk_split para 200 40 j) as Hw. rewrite Hnil in Hw.
      apply (window_nonempty (Py.split para) 200 40 j); [lia| |done].
      unfold word_count in Hj. lia.
Qed.

Lemma filter_Forall_id {A} (P : A -> Prop) `{!forall x, Decision (P x)} (l : list A) :
  Forall P l -> filter P l = l.
Proof.
  induction 1 as [|x l Hx _ IH]; [done|].
  rewrite filter_cons_True by done. by rewrite IH.
Qed.

Lemma para_chunk_list_all para cs :
  para_chunks para = Some cs -> para_chunk_list para = cs.
Proof.
  intros Hc. unfold para_chunk_list. rewrite Hc.
  apply filter_Forall_id. apply para_chunks_nonempty in Hc.
  eapply Forall_impl; [exact Hc|]. by intros c [? _].
Qed.

Lemma file_chunks_nonempty content :
  Forall (fun c => c <> [] /\ Py.strip c = c) (file_chunks content).
Proof.
  unfold file_chunks. apply Forall_flat_map, Forall_forall. intros p _.
  destruct (para_chunks_returns p) as [cs Hc].
  rewrite (para_chunk_list_all p cs Hc). by apply para_chunks_nonempty in Hc.
Qed.

Lemma load_corpus_chunk_props fs path chunks ids :
  load_corpus fs path = Return (chunks, ids) ->
  Forall (fun c => c <> [] /\ Py.strip c = c /\ (1 <= word_count c <= 200)%nat) chunks.
Proof.
  intros H. apply load_corpus_returns_inv in H as (_ & contents & _ & -> & _).
  apply Forall_flat_map, Forall_forall. intros content _.
  pose proof (file_chunks_nonempty content) as Hne.
  pose proof (file_chunks_bounded content) as Hb.
  rewrite Forall_forall in *. intros c Hin.
  destruct (Hne c Hin) as [H1 H2]. specialize (Hb c Hin).
  split_and!; try done. by apply stripped_nonempty_words.
Qed.

(** X4. With the parameters [load_corpus] passes (200 words, overlap 40),
    [split_into_chunks] never returns an empty chunk, so the guard
    [if not chunk: continue] of [load_corpus] skips nothing; and every
    chunk of a loaded corpus is a non-empty string without outer whitespace
    that has at least one and at most 200 words. *)
Theorem corpus_chunks_nonempty :
  (forall para cs,
      para_chunks para = Some cs -> filter (fun c => c <> []) cs = cs)
  /\ (forall fs path chunks ids,
         load_corpus fs path = Return (chunks, ids) ->
         Forall (fun c => c <> [] /\ Py.strip c = c
                          /\ (1 <= word_count c <= 200)%nat) chunks).
Proof.
  split.
  - intros para cs Hc. pose proof (para_chunk_list_all para cs Hc) as H.
    unfold para_chunk_list in H. by rewrite Hc in H.
  - intros fs path chunks ids. apply load_corpus_chunk_props.
Qed.

Lemma corpus_chunks_nonempty_witness :
  Forall (fun c => c <> [] /\ Py.strip c = c /\ (1 <= word_count c <= 200)%nat)
         (texts example_index).
Proof.
  destruct corpus_chunks_nonempty as [_ H].
  apply (H example_fs (Py.lit "data") (texts example_index) (sources example_index)).
  vm_compute. reflexivity.
Defined.

(** ** The calls of [embed_texts] and of the retriever *)

Lemma range0_batches {A} (l : list A) (b : Z) :
  0 < b ->
  exists starts,
    range0 (length l) b = Return starts
    /\ map (fun s => Py.slice l s (s + b)) starts = batches l b.
Proof.
  intros Hb. unfold range0.
  destruct (Z.eqb_spec b 0); [lia|]. destruct (Z.ltb_spec b 0); [lia|].
  eexists. split; [done|]. rewrite map_map. unfold batches.
  apply map_ext. intros i. by apply slice_batch.
Qed.

Lemma batches_concat {A} (l : list A) (b : Z) : 0 < b -> concat (batches l b) = l.
Proof.
  intros Hb. destruct (range0_batches l b Hb) as (starts & Hr & <-).
  by apply batches_cover.
Qed.

Lemma batches_lookup {A} (l : list A) (b : Z) i batch :
  0 < b ->
  batches l b !! i = Some batch ->
  batch = take (Z.to_nat b) (drop (i * Z.to_nat b) l)
  /\ batch <> [] /\ Z.of_nat (length batch) <= b.
Proof.
  intros Hb. unfold batches. rewrite list_lookup_fmap.
  destruct (seq _ _ !! i) as [j|] eqn:Hj; [|done].
  apply lookup_seq in Hj as [-> Hi]. simpl. intros [= <-]. split_and!.
  - done.
  - assert (Hlt : Z.of_nat i * b < Z.of_nat (length l)).
    { pose proof (Z.div_mod (Z.of_nat (length l) + b - 1) b ltac:(lia)) as Hdm.
      pose proof (Z.mod_pos_bound (Z.of_nat (length l) + b - 1) b Hb) as Hmod.
      assert (Z.of_nat i < (Z.of_nat (length l) + b - 1) / b) by lia. nia. }
    intros Hnil. apply (f_equal length) in Hnil.
    rewrite length_take, length_drop in Hnil. simpl in Hnil. nia.
  - rewrite length_take. lia.
Qed.

Lemma batches_nonempty {A} (l : list A) (b : Z) :
  0 < b -> l <> [] -> batches l b <> [].
Proof.
  intros Hb Hne Hnil. apply Hne.
  rewrite <- (batches_concat l b Hb). by rewrite Hnil.
Qed.

(** The calls of the loop of [embed_texts]: one per start, in order, up to
    the first failure. *)
Lemma embed_loop_calls E texts (b : Z) starts :
  forall acc tr o tr',
    mfold (fun all_vectors start =>
             (batch_vectors <- call_embeddings E (Py.slice texts start (start + b)) ;;
              mret (all_vectors ++ batch_vectors))%M)
          starts acc tr = (o, tr') ->
    exists n,
      tr' = tr ++ map (fun s => EmbedCall (Py.slice texts s (s + b))) (take n starts)
      /\ (starts <> [] -> (0 < n)%nat)
      /\ (forall res, o = Return res -> take n starts = starts).
Proof.
  induction starts as [|s starts IH]; intros acc tr o tr'.
  - simpl. unfold mret. intros [= <- <-]. exists 0%nat. by rewrite app_nil_r.
  - cbn [mfold]. unfold mbind at 1. unfold mbind at 1, call_embeddings at 1.
    destruct (embeddings_create E tr EMBED_MODEL (Py.slice texts s (s + b)))
      as [e|vs]; cbn [of_env].
    + intros [= <- <-]. exists 1%nat. split_and!; [done|lia|done].
    + unfold mret at 1. intros Hrest. apply IH in Hrest as (n & -> & _ & Hall).
      exists (S n). cbn [take map]. rewrite <- app_assoc. split_and!; [done|lia|].
      intros res Hres. by rewrite (Hall res Hres).
Qed.

Lemma embed_texts_calls E texts (b : Z) tr o tr' :
  0 < b -> texts <> [] ->
  embed_texts E texts b tr = (o, tr') ->
  exists n,
    tr' = tr ++ map EmbedCall (take n (batches texts b))
    /\ (0 < n)%nat
    /\ (forall M, o = Return M -> take n (batches texts b) = batches texts b).
Proof.
  intros Hb Hne. unfold embed_texts. destruct texts as [|t texts]; [done|].
  destruct (range0_batches (t :: texts) b Hb) as (starts & Hr & Hbs).
  unfold mbind at 1, mlift at 1. rewrite Hr. unfold mbind at 1.
  match goal with
  | |- context [mfold ?body starts [] tr] =>
      destruct (mfold body starts [] tr) as [o2 tr2] eqn:Hloop
  end.
  apply embed_loop_calls in Hloop as (n & -> & Hpos & Hall).
  assert (Hst : starts <> []).
  { intros ->. simpl in Hbs. symmetry in Hbs. by apply batches_nonempty in Hbs. }
  assert (Htake : map (fun s => EmbedCall (Py.slice (t :: texts) s (s + b))) (take n starts)
                  = map EmbedCall (take n (batches (t :: texts) b))).
  { rewrite <- Hbs, !firstn_map, map_map. done. }
  rewrite Htake.
  intros Hfin. exists n. split_and!.
  - destruct o2; unfold mlift in Hfin; by injection Hfin as <- <-.
  - by apply Hpos.
  - intros M ->. destruct o2 as [res|e|]; unfold mlift in Hfin; try done.
    rewrite <- Hbs, firstn_map. by rewrite (Hall res eq_refl).
Qed.

(** X5. When [embed_texts] returns, with a positive batch size, the
    embedding service has been called once per batch and nothing else:
    the batches are the consecutive pieces [texts[i*b : i*b + b]] of the
    list, none is empty, none has more than [batch_size] texts, there are
    [len(texts) / batch_size] of them rounded up, and put end to end they
    are the list of texts: each text is sent once, in order. *)
Theorem embed_texts_batches
    (E : Env) (texts : list (list N)) (b : Z) (tr : list event)
    (M : list (list spec_float)) (tr' : list event) :
  0 < b ->
  embed_texts E texts b tr = (Return M, tr') ->
  exists bs,
    tr' = tr ++ map EmbedCall bs
    /\ concat bs = texts
    /\ length bs = Z.to_nat ((Z.of_nat (length texts) + b - 1) / b)
    /\ (forall i batch,
           bs !! i = Some batch ->
           batch = take (Z.to_nat b) (drop (i * Z.to_nat b) texts)
           /\ batch <> [] /\ Z.of_nat (length batch) <= b).
Proof.
  intros Hb Hrun.
  assert (Hne : texts <> []) by (intros ->; discriminate Hrun).
  apply embed_texts_calls in Hrun as (n & -> & _ & Hall); [|done..].
  rewrite (Hall M eq_refl). exists (batches texts b). split_and!.
  - done.
  - by apply batches_concat.
  - unfold batches. by rewrite length_map, length_seq.
  - intros i batch. by apply batches_lookup.
Qed.

(** Three texts in batches of two: two calls. *)
Lemma embed_texts_batches_witness :
  exists bs,
    snd (embed_texts example_env [Py.lit "a"; Py.lit "b"; Py.lit "c"] 2 [])
    = [] ++ map EmbedCall bs
    /\ concat bs = [Py.lit "a"; Py.lit "b"; Py.lit "c"]
    /\ length bs = 2%nat.
Proof.
  pose (run := embed_texts example_env [Py.lit "a"; Py.lit "b"; Py.lit "c"] 2 []).
  destruct (embed_texts_batches example_env [Py.lit "a"; Py.lit "b"; Py.lit "c"] 2 []
              (match fst run with Return M => M | _ => [] end) (snd run))
    as (bs & Htr & Hcat & Hlen & _).
  - lia.
  - vm_compute. reflexivity.
  - exists bs. split; [exact Htr|]. split; [exact Hcat|exact Hlen].
Defined.

(** X6. [embed_texts] leaves the embedding service alone exactly when the
    list of texts is empty or the batch size is not positive. An empty list
    raises [ValueError] (the guard of the function); a batch size of 0
    raises [ValueError] (from [range]); a negative batch size raises
    nothing: the loop body never runs and an empty array is returned, not
    one row per text. In every other case at least one call is made, even
    when the service fails. *)
Theorem embed_texts_no_call
    (E : Env) (texts : list (list N)) (b : Z) (tr : list event) :
  (texts = [] -> embed_texts E texts b tr = (Raise ValueError, tr))
  /\ (texts <> [] -> b = 0 -> embed_texts E texts b tr = (Raise ValueError, tr))
  /\ (texts <> [] -> b < 0 -> embed_texts E texts b tr = (Return [], tr))
  /\ (snd (embed_texts E texts b tr) = tr <-> texts = [] \/ b <= 0).
Proof.
  assert (H1 : texts = [] -> embed_texts E texts b tr = (Raise ValueError, tr)).
  { by intros ->. }
  assert (H2 : texts <> [] -> b = 0 -> embed_texts E texts b tr = (Raise ValueError, tr)).
  { intros Hne ->. by destruct texts. }
  assert (H3 : texts <> [] -> b < 0 -> embed_texts E texts b tr = (Return [], tr)).
  { intros Hne Hb. destruct texts as [|t texts]; [done|].
    unfold embed_texts, range0.
    destruct (Z.eqb_spec b 0); [lia|]. destruct (Z.ltb_spec b 0); [|lia]. done. }
  split_and!; try done. split.
  - intros Hsnd. destruct texts as [|t texts]; [by left|]. right.
    destruct (decide (b <= 0)) as [|Hpos]; [done|]. exfalso.
    destruct (embed_texts E (t :: texts) b tr) as [o tr'] eqn:Hrun.
    apply embed_texts_calls in Hrun as (n & -> & Hn & _); [|lia|done].
    simpl in Hsnd. rewrite <- (app_nil_r tr) in Hsnd at 2.
    apply app_inv_head in Hsnd.
    pose proof (batches_nonempty (t :: texts) b ltac:(lia) ltac:(done)) as Hbs.
    destruct (batches (t :: texts) b); [done|]. destruct n; [lia|]. done.
  - intros [->|Hb]; [done|].
    destruct (decide (texts = [])) as [->|Hne]; [done|].
    destruct (decide (b = 0)) as [->|]; [by rewrite H2|]. rewrite H3; [done|done|lia].
Qed.

Lemma embed_texts_no_call_witness :
  embed_texts example_env [Py.lit "a"] (-1) [] = (Return [], []).
Proof.
  destruct (embed_texts_no_call example_env [Py.lit "a"] (-1) []) as (_ & _ & H & _).
  apply H; [discriminate|lia].
Defined.

Lemma embed_texts_single E query tr :
  embed_texts E [query] 64 tr
  = (match embeddings_create E tr EMBED_MODEL [query] with
     | inl e => Raise e
     | inr vs => np_array_f32 vs
     end, tr ++ [EmbedCall [query]]).
Proof.
  unfold embed_texts.
  assert (Hr : range0 (length [query]) 64 = Return [0]) by reflexivity.
  unfold mbind at 1, mlift at 1. rewrite Hr.
  cbn [mfold]. unfold mbind, mret, call_embeddings, mlift.
  change (Py.slice [query] 0 (0 + 64)) with [query].
  by destruct (embeddings_create E tr EMBED_MODEL [query]) as [e|vs].
Qed.

Lemma retrieve_calls E self query k tr :
  snd (retrieve E self query k tr) = tr ++ [EmbedCall [query]].
Proof.
  unfold retrieve. unfold mbind at 1. rewrite embed_texts_single.
  destruct (match embeddings_create E tr EMBED_MODEL [query] with
            | inl e => Raise e | inr vs => np_array_f32 vs end) as [vectors|e|]; [|done..].
  unfold mbind at 1, mlift at 1.
  destruct (getitem vectors 0) as [query_vec|e|]; [|done..].
  unfold mbind at 1, mlift at 1.
  destruct (cosine_similarity query_vec (embeddings self)) as [sims|e|]; [|done..].
  done.
Qed.

Lemma retrieve_eq E self query k tr :
  retrieve E self query k tr
  = (fst (retrieve E self query k tr), tr ++ [EmbedCall [query]]).
Proof.
  rewrite <- (retrieve_calls E self query k tr).
  by destruct (retrieve E self query k tr).
Qed.

Lemma np_array_f32_not_diverge rows : np_array_f32 rows <> Diverge.
Proof.
  unfold np_array_f32. destruct rows; [done|]. by destruct (forallb _ _).
Qed.

Lemma cosine_similarity_not_diverge q d : cosine_similarity q d <> Diverge.
Proof.
  unfold cosine_similarity. destruct d; [done|]. by destruct (forallb _ _).
Qed.

Lemma result_loop_not_diverge self sims idxs acc :
  ofold (append_result self sims) idxs acc <> Diverge.
Proof.
  revert acc. induction idxs as [|i idxs IH]; intros acc; [done|].
  cbn [ofold]. unfold append_result at 1, getitem.
  destruct (texts self !! i); [|done]. destruct (sims !! i); [|done].
  destruct (sources self !! i); [|done]. cbn [obind]. apply IH.
Qed.

Lemma retrieve_not_diverge E self query k tr :
  fst (retrieve E self query k tr) <> Diverge.
Proof.
  unfold retrieve. unfold mbind at 1. rewrite embed_texts_single.
  destruct (embeddings_create E tr EMBED_MODEL [query]) as [e|vs]; [done|].
  destruct (np_array_f32 vs) as [vectors|e|] eqn:Hv;
    [|done|by apply np_array_f32_not_diverge in Hv].
  unfold mbind at 1, mlift at 1. unfold getitem at 1.
  destruct (vectors !! 0%nat) as [query_vec|]; [|done].
  unfold mbind at 1, mlift at 1.
  destruct (cosine_similarity query_vec (embeddings self)) as [sims|e|] eqn:Hc;
    [|done|by apply cosine_similarity_not_diverge in Hc].
  unfold mlift. simpl. apply result_loop_not_diverge.
Qed.

Lemma retrieve_service_failure E self query k tr e :
  embeddings_create E tr EMBED_MODEL [query] = inl e ->
  fst (retrieve E self query k tr) = Raise e.
Proof.
  intros He. unfold retrieve. unfold mbind at 1. rewrite embed_texts_single, He. done.
Qed.

(** The result of [retrieve] depends on the calls made before only through
    the answer of the embedding service for the query. *)
Lemma retrieve_depends_on_answer E self query k tr1 tr2 :
  embeddings_create E tr1 EMBED_MODEL [query]
  = embeddings_create E tr2 EMBED_MODEL [query] ->
  fst (retrieve E self query k tr1) = fst (retrieve E self query k tr2).
Proof.
  intros Heq. unfold retrieve, mbind, mlift. rewrite !embed_texts_single, Heq.
  destruct (match embeddings_create E tr2 EMBED_MODEL [query] with
            | inl e => Raise e | inr vs => np_array_f32 vs end) as [vectors|e|]; [|done..].
  destruct (getitem vectors 0) as [query_vec|e|]; [|done..].
  destruct (cosine_similarity query_vec (embeddings self)) as [sims|e|]; done.
Qed.

(** X7. Whatever the index, the query, [k] and the outcome, [retrieve]
    talks to the outside once: one call of the embedding service, with the
    query as its only text. It makes no chat call; the corpus is not
    embedded again. It ends (returns or raises), and a failure of the
    embedding call is the exception it raises. *)
Theorem retrieve_one_embedding_call
    (E : Env) (self : SimpleRAG) (query : list N) (k : Z) (tr : list event) :
  snd (retrieve E self query k tr) = tr ++ [EmbedCall [query]]
  /\ (forall who, calls_of who (snd (retrieve E self query k tr)) = calls_of who tr)
  /\ fst (retrieve E self query k tr) <> Diverge
  /\ (forall e, embeddings_create E tr EMBED_MODEL [query] = inl e ->
                fst (retrieve E self query k tr) = Raise e).
Proof.
  split_and!.
  - apply retrieve_calls.
  - intros who. rewrite retrieve_calls, calls_of_app. unfold calls_of at 2. simpl. lia.
  - apply retrieve_not_diverge.
  - intros e. apply retrieve_service_failure.
Qed.

Lemma built_index_texts_nonempty E fs path tr0 tr1 self :
  SimpleRAG_init E fs path tr0 = (Return self, tr1) -> texts self <> [].
Proof.
  intros Hinit. apply SimpleRAG_init_inv in Hinit as [_ Hemb].
  intros Hnil. rewrite Hnil in Hemb. discriminate Hemb.
Qed.

(** X8. An index that [SimpleRAG.__init__] has built is never empty: it
    holds at least one chunk, and every chunk is a non-empty text of 1 to
    200 words. Building it costs one embedding call per batch of at most
    64 chunks, the batches being the chunks in corpus order, each chunk
    sent once. *)
Theorem built_index_nonempty
    (E : Env) (fs : FileSystem) (path : list N) (tr0 tr1 : list event)
    (self : SimpleRAG) :
  SimpleRAG_init E fs path tr0 = (Return self, tr1) ->
  texts self <> []
  /\ Forall (fun c => c <> [] /\ (1 <= word_count c <= 200)%nat) (texts self)
  /\ exists bs,
      tr1 = tr0 ++ map EmbedCall bs
      /\ concat bs = texts self
      /\ Forall (fun batch => (1 <= length batch <= 64)%nat) bs.
Proof.
  intros Hinit.
  pose proof (built_index_texts_nonempty _ _ _ _ _ _ Hinit) as Hne.
  apply SimpleRAG_init_inv in Hinit as [Hload Hemb].
  split_and!; [done| |].
  - apply load_corpus_chunk_props in Hload.
    eapply Forall_impl; [exact Hload|]. by intros c (? & _ & ?).
  - apply embed_texts_calls in Hemb as (n & -> & _ & Hall); [|lia|done].
    rewrite (Hall _ eq_refl). exists (batches (texts self) 64). split_and!.
    + done.
    + by apply batches_concat.
    + apply Forall_forall. intros batch Hin.
      apply list_elem_of_lookup in Hin as [i Hi].
      apply batches_lookup in Hi as (_ & Hne' & Hle); [|lia].
      destruct batch; [done|]. simpl in *. lia.
Qed.

Lemma built_index_nonempty_witness :
  Forall (fun c => c <> [] /\ (1 <= word_count c <= 200)%nat) (texts example_index)
  /\ exists bs,
      snd (SimpleRAG_init example_env example_fs (Py.lit "data") [])
      = [] ++ map EmbedCall bs
      /\ concat bs = texts example_index.
Proof.
  destruct (built_index_nonempty example_env example_fs (Py.lit "data") []
              (snd (SimpleRAG_init example_env example_fs (Py.lit "data") []))
              example_index)
    as (_ & Hall & bs & Htr & Hcat & _).
  - vm_compute. reflexivity.
  - split; [exact Hall|]. exists bs. split; [exact Htr|exact Hcat].
Defined.

Lemma argsort_length E v :
  argsort_contract (np_argsort E) -> length (np_argsort E v) = length v.
Proof.
  intros Hc. destruct (Hc v) as [Hp _].
  apply Permutation_length in Hp. by rewrite length_seq in Hp.
Qed.

Lemma slice_negative_stop {A} (l : list A) (k : Z) :
  k < 0 -> Py.slice l 0 k = Py.slice l 0 (Z.max 0 (Z.of_nat (length l) + k)).
Proof.
  intros Hk. unfold Py.slice, Py.clamp.
  destruct (Z.ltb_spec k 0); [|lia].
  destruct (Z.ltb_spec (Z.max 0 (Z.of_nat (length l) + k)) 0); [lia|].
  f_equal. lia.
Qed.

Lemma negative_k_counts_from_the_end E self query (k : Z) tr :
  argsort_contract (np_argsort E) ->
  k < 0 ->
  retrieve E self query k tr
  = retrieve E self query (Z.max 0 (Z.of_nat (length (embeddings self)) + k)) tr.
Proof.
  intros Hc Hk. unfold retrieve, mbind, mlift.
  destruct (embed_texts E [query] 64 tr) as [[vectors|e|] tr1]; [|done..].
  destruct (getitem vectors 0) as [query_vec|e|]; [|done..].
  destruct (cosine_similarity query_vec (embeddings self)) as [sims|e|] eqn:Hs; [|done..].
  apply cosine_similarity_length in Hs.
  rewrite (slice_negative_stop _ k Hk).
  by rewrite argsort_length, length_map, Hs.
Qed.

(** X9. A negative [k] is no error for [retrieve]: the slice [[:k]] drops
    the last [-k] entries of the ranking, so the call behaves as with
    [k = max(0, n + k)], where [n] is the number of stored embeddings; on
    an index with one embedding and one distinct source per chunk it
    returns the [n + k] most similar chunks (none when [n + k <= 0]). *)
Theorem retrieve_negative_k
    (E : Env) (self : SimpleRAG) (query : list N) (k : Z) (tr : list event) :
  argsort_contract (np_argsort E) ->
  k < 0 ->
  retrieve E self query k tr
  = retrieve E self query (Z.max 0 (Z.of_nat (length (embeddings self)) + k)) tr
  /\ (NoDup (sources self) ->
      length (sources self) = length (texts self) ->
      length (embeddings self) = length (texts self) ->
      forall res tr',
        retrieve E self query k tr = (Return res, tr') ->
        length res = Z.to_nat (Z.of_nat (length (texts self)) + k)).
Proof.
  intros Hc Hk. split; [by apply negative_k_counts_from_the_end|].
  intros Hnd Hls Hle res tr' Hrun.
  rewrite negative_k_counts_from_the_end in Hrun by done.
  apply retrieve_result_properties in Hrun as (Hlen & _); try done; [|lia].
  rewrite Hlen, Hle. lia.
Qed.

(** Three chunks, [k = -1]: the two most similar. *)
Lemma retrieve_negative_k_witness :
  retrieve example_env example_index (Py.lit "fair?") (-1) []
  = retrieve example_env example_index (Py.lit "fair?") 2 [].
Proof.
  destruct (retrieve_negative_k example_env example_index (Py.lit "fair?") (-1) [])
    as [Heq _].
  - apply argsort_stable_contract.
  - lia.
  - exact Heq.
Defined.

(** ** The calls of [run_pipeline] *)

(** One chat call: the request is logged, the answer of the service is the
    outcome. *)
Ltac chat_step E e v :=
  rewrite call_chat_eq;
  match goal with
  | |- context [chat_completions_create E ?h ?r] =>
      let H := fresh "Hchat" in
      destruct (chat_completions_create E h r) as [e|v] eqn:H
  end; cbn [of_env].

Lemma run_pipeline_stages E RAG query k tr run tr' :
  run_pipeline E RAG query k tr = (Return run, tr') ->
  exists retrieved rp rd rc rest,
    retrieve E RAG query k tr = (Return retrieved, tr ++ [EmbedCall [query]])
    /\ pr_retrieved_docs run = map text retrieved
    /\ pr_sources run = map source retrieved
    /\ generate_plan E query (pr_retrieved_docs run) (tr ++ [EmbedCall [query]])
       = (Return (pr_plan run), tr ++ [EmbedCall [query]; ChatCall Planner rp])
    /\ generate_draft_answer E query (pr_retrieved_docs run) (pr_plan run)
         (tr ++ [EmbedCall [query]; ChatCall Planner rp])
       = (Return (pr_draft_answer run),
          tr ++ [EmbedCall [query]; ChatCall Planner rp; ChatCall Draft rd])
    /\ evaluate_answer E query (pr_retrieved_docs run) (pr_draft_answer run)
         (tr ++ [EmbedCall [query]; ChatCall Planner rp; ChatCall Draft rd])
       = (Return (pr_critic_feedback run),
          tr ++ [EmbedCall [query]; ChatCall Planner rp; ChatCall Draft rd;
                 ChatCall Critic rc])
    /\ temperature rc = Some 0 /\ top_p rc = Some 0
    /\ temperature rp = None /\ temperature rd = None
    /\ tr' = tr ++ [EmbedCall [query]; ChatCall Planner rp; ChatCall Draft rd;
                    ChatCall Critic rc] ++ rest
    /\ (rest = [] \/ exists rr, rest = [ChatCall Revision rr]).
Proof.
  unfold run_pipeline. unfold mbind at 1. rewrite retrieve_eq.
  destruct (fst (retrieve E RAG query k tr)) as [retrieved|e|] eqn:Hret;
    [|intros [=]..].
  unfold mbind at 1. unfold generate_plan at 1. rewrite call_chat_eq.
  match goal with
  | |- context [chat_completions_create E ?h ?r] =>
      set (rp := r); destruct (chat_completions_create E h rp) as [e|plan] eqn:Hplan
  end; cbn [of_env]; [intros [=]|].
  unfold mbind at 1. unfold generate_draft_answer at 1. rewrite call_chat_eq.
  match goal with
  | |- context [chat_completions_create E ?h ?r] =>
      set (rd := r); destruct (chat_completions_create E h rd) as [e|draft] eqn:Hdraft
  end; cbn [of_env]; [intros [=]|].
  unfold mbind at 1. unfold evaluate_answer at 1. rewrite call_chat_eq.
  match goal with
  | |- context [chat_completions_create E ?h ?r] =>
      set (rc := r); destruct (chat_completions_create E h rc) as [e|critic] eqn:Hcritic
  end; cbn [of_env]; [intros [=]|].
  unfold mbind at 1.
  repeat rewrite <- app_assoc in Hdraft. repeat rewrite <- app_assoc in Hcritic.
  repeat rewrite <- app_assoc. cbn [app] in Hdraft, Hcritic |- *.
  assert (Hstages :
    generate_plan E query (map text retrieved) (tr ++ [EmbedCall [query]])
    = (Return plan, tr ++ [EmbedCall [query]; ChatCall Planner rp])
    /\ generate_draft_answer E query (map text retrieved) plan
         (tr ++ [EmbedCall [query]; ChatCall Planner rp])
       = (Return draft, tr ++ [EmbedCall [query]; ChatCall Planner rp; ChatCall Draft rd])
    /\ evaluate_answer E query (map text retrieved) draft
         (tr ++ [EmbedCall [query]; ChatCall Planner rp; ChatCall Draft rd])
       = (Return critic, tr ++ [EmbedCall [query]; ChatCall Planner rp; ChatCall Draft rd;
                                ChatCall Critic rc])).
  { unfold generate_plan, generate_draft_answer, evaluate_answer.
    rewrite !call_chat_eq. fold rp rd rc.
    rewrite Hplan, Hdraft, Hcritic. cbn [of_env].
    rewrite <- !app_assoc. done. }
  destruct Hstages as (Hs1 & Hs2 & Hs3).
  destruct (needs_revision E critic).
  - unfold revise_answer. rewrite call_chat_eq.
    match goal with
    | |- context [chat_completions_create E ?h ?r] =>
        destruct (chat_completions_create E h r) as [e|final]
    end; cbn [of_env]; [intros [=]|].
    unfold mret. intros [= <- <-].
    cbn [pr_retrieved_docs pr_sources pr_plan pr_draft_answer pr_critic_feedback].
    eexists retrieved, rp, rd, rc, [_].
    rewrite <- !app_assoc. cbn [app].
    split_and!; try done. right. by eexists.
  - unfold mret. intros [= <- <-].
    cbn [pr_retrieved_docs pr_sources pr_plan pr_draft_answer pr_critic_feedback].
    exists retrieved, rp, rd, rc, [].
    split_and!; try done. by left.
Qed.

(** X10. A run of [run_pipeline] that returns has made, in this order: one
    embedding call for the query (the retrieval), the planner call, the
    draft call, the critic call, and then the revision call exactly when
    the critic feedback asks for a revision. The four chat requests are
    the ones written out below: each names the chat model and its own
    system prompt and carries the query and the numbered texts of the
    retrieved chunks; the draft request also carries the plan, the critic
    request the draft, the revision request the draft and the critic
    feedback. The critic request alone fixes [temperature] and [top_p], to
    0; the three others leave both unset. The fields [plan],
    [draft_answer] and [critic_feedback] of the result are what the chat
    service answered to the first three requests; [final_answer] is its
    answer to the revision request, or the draft when no revision is
    asked. The fields [retrieved_docs] and [sources] are the texts and the
    source ids of the retrieved chunks, position by position. *)
Theorem run_pipeline_call_sequence
    (E : Env) (RAG : SimpleRAG) (query : list N) (k : Z) (tr : list event)
    (run : pipeline_run) (tr' : list event) :
  run_pipeline E RAG query k tr = (Return run, tr') ->
  exists retrieved,
    let docs := map text retrieved in
    let documents :=
      Py.join [Py.NL; Py.NL]
        (imap (fun i d => Py.lit "Document " ++ Py.str_of_nat (i + 1)
                          ++ Py.lit ": " ++ d) docs) in
    let h1 := tr ++ [EmbedCall [query]] in
    let rp :=
      {| model := CHAT_MODEL; temperature := None; top_p := None;
         system_content := PLANNER_SYSTEM_PROMPT E;
         user_content :=
           Py.lit "User question:" ++ [Py.NL] ++ query ++ [Py.NL; Py.NL]
           ++ Py.lit "Retrieved documents:" ++ [Py.NL] ++ documents |} in
    let rd :=
      {| model := CHAT_MODEL; temperature := None; top_p := None;
         system_content := DRAFT_SYSTEM_PROMPT E;
         user_content :=
           Py.lit "User question:" ++ [Py.NL] ++ query ++ [Py.NL; Py.NL]
           ++ Py.lit "Retrieved documents:" ++ [Py.NL] ++ documents
           ++ [Py.NL; Py.NL]
           ++ Py.lit "Plan:" ++ [Py.NL] ++ pr_plan run ++ [Py.NL; Py.NL]
           ++ Py.lit "Now follow the plan and write a draft answer grounded in the documents." |} in
    let rc :=
      {| model := CHAT_MODEL; temperature := Some 0; top_p := Some 0;
         system_content := CRITIC_SYSTEM_PROMPT E;
         user_content :=
           Py.lit "User question:" ++ [Py.NL] ++ query ++ [Py.NL; Py.NL]
           ++ Py.lit "Retrieved documents:" ++ [Py.NL] ++ documents
           ++ [Py.NL; Py.NL]
           ++ Py.lit "Draft answer:" ++ [Py.NL] ++ pr_draft_answer run |} in
    let rr :=
      {| model := CHAT_MODEL; temperature := None; top_p := None;
         system_content := REVISION_SYSTEM_PROMPT E;
         user_content :=
           Py.lit "User question:" ++ [Py.NL] ++ query ++ [Py.NL; Py.NL]
           ++ Py.lit "Retrieved documents (ground truth):" ++ [Py.NL]
           ++ documents ++ [Py.NL; Py.NL]
           ++ Py.lit "Draft answer:" ++ [Py.NL] ++ pr_draft_answer run
           ++ [Py.NL; Py.NL]
           ++ Py.lit "Critic feedback:" ++ [Py.NL] ++ pr_critic_feedback run
           ++ [Py.NL; Py.NL]
           ++ Py.lit "Please produce a revised final answer that follows the critic's feedback and stays grounded in the retrieved documents." |} in
    retrieve E RAG query k tr = (Return retrieved, h1)
    /\ pr_query run = query
    /\ pr_retrieved_docs run = docs
    /\ pr_sources run = map source retrieved
    /\ chat_completions_create E h1 rp = inr (pr_plan run)
    /\ chat_completions_create E (h1 ++ [ChatCall Planner rp]) rd
       = inr (pr_draft_answer run)
    /\ chat_completions_create E (h1 ++ [ChatCall Planner rp; ChatCall Draft rd]) rc
       = inr (pr_critic_feedback run)
    /\ (if needs_revision E (pr_critic_feedback run)
        then chat_completions_create E
               (h1 ++ [ChatCall Planner rp; ChatCall Draft rd; ChatCall Critic rc]) rr
             = inr (pr_final_answer run)
             /\ tr' = h1 ++ [ChatCall Planner rp; ChatCall Draft rd;
                             ChatCall Critic rc; ChatCall Revision rr]
        else pr_final_answer run = pr_draft_answer run
             /\ tr' = h1 ++ [ChatCall Planner rp; ChatCall Draft rd;
                             ChatCall Critic rc]).
Proof.
  unfold run_pipeline. unfold mbind at 1. rewrite retrieve_eq.
  destruct (fst (retrieve E RAG query k tr)) as [retrieved|e|] eqn:Hret;
    [|intros [=]..].
  unfold mbind at 1. unfold generate_plan at 1. rewrite call_chat_eq.
  match goal with
  | |- context [chat_completions_create E ?h ?r] =>
      destruct (chat_completions_create E h r) as [e|plan] eqn:Hplan
  end; cbn [of_env]; [intros [=]|].
  unfold mbind at 1. unfold generate_draft_answer at 1. rewrite call_chat_eq.
  match goal with
  | |- context [chat_completions_create E ?h ?r] =>
      destruct (chat_completions_create E h r) as [e|draft] eqn:Hdraft
  end; cbn [of_env]; [intros [=]|].
  unfold mbind at 1. unfold evaluate_answer at 1. rewrite call_chat_eq.
  match goal with
  | |- context [chat_completions_create E ?h ?r] =>
      destruct (chat_completions_create E h r) as [e|critic] eqn:Hcritic
  end; cbn [of_env]; [intros [=]|].
  unfold mbind at 1.
  rewrite <- app_assoc in Hcritic. cbn [app] in Hcritic.
  destruct (needs_revision E critic) eqn:Hneeds.
  - unfold revise_answer. rewrite call_chat_eq.
    match goal with
    | |- context [chat_completions_create E ?h ?r] =>
        destruct (chat_completions_create E h r) as [e|final] eqn:Hfinal
    end; cbn [of_env]; [intros [=]|].
    unfold mret. intros [= <- <-].
    rewrite <- !(app_assoc (tr ++ [EmbedCall [query]])) in Hfinal.
    cbn [app] in Hfinal.
    exists retrieved. cbv zeta.
    cbn [pr_query pr_retrieved_docs pr_sources pr_plan pr_draft_answer
         pr_critic_feedback pr_final_answer].
    rewrite Hneeds. unfold docs_text in *.
    split; [done|].
    split_and!; try done.
    rewrite <- !(app_assoc (tr ++ [EmbedCall [query]])). done.
  - unfold mret. intros [= <- <-].
    exists retrieved. cbv zeta.
    cbn [pr_query pr_retrieved_docs pr_sources pr_plan pr_draft_answer
         pr_critic_feedback pr_final_answer].
    rewrite Hneeds. unfold docs_text in *.
    split; [done|].
    split_and!; try done.
    rewrite <- !(app_assoc (tr ++ [EmbedCall [query]])). done.
Qed.

Lemma run_pipeline_call_sequence_witness :
  exists rp rd rc rr,
    snd (run_pipeline revising_env example_index (Py.lit "What is responsible AI?") 1 [])
    = [EmbedCall [Py.lit "What is responsible AI?"]; ChatCall Planner rp;
       ChatCall Draft rd; ChatCall Critic rc; ChatCall Revision rr]
    /\ temperature rc = Some 0 /\ top_p rc = Some 0
    /\ temperature rp = None /\ top_p rp = None
    /\ temperature rd = None /\ top_p rd = None
    /\ temperature rr = None /\ top_p rr = None.
Proof.
  pose (run := run_pipeline revising_env example_index
                 (Py.lit "What is responsible AI?") 1 []).
  destruct (run_pipeline_call_sequence revising_env example_index
              (Py.lit "What is responsible AI?") 1 []
              (match fst run with
               | Return r => r
               | _ => {| pr_query := []; pr_retrieved_docs := []; pr_sources := [];
                         pr_plan := []; pr_draft_answer := [];
                         pr_critic_feedback := []; pr_final_answer := [] |}
               end)
              (snd run))
    as (retrieved & H).
  - vm_compute. reflexivity.
  - cbv zeta in H. destruct H as (_ & _ & _ & _ & _ & _ & _ & Hrev).
    change (needs_revision revising_env _) with true in Hrev.
    destruct Hrev as [_ Htr].
    eexists _, _, _, _. split; [exact Htr|].
    repeat (split; [reflexivity|]). reflexivity.
Defined.

Lemma run_pipeline_outcome E RAG query k tr o tr' :
  run_pipeline E RAG query k tr = (o, tr') ->
  o <> Diverge
  /\ forall e,
      o = Raise e ->
      (retrieve E RAG query k tr = (Raise e, tr')
       /\ forall who, calls_of who tr' = calls_of who tr)
      \/ exists hist who req,
          tr' = hist ++ [ChatCall who req]
          /\ chat_completions_create E hist req = inl e.
Proof.
  unfold run_pipeline. unfold mbind at 1. rewrite retrieve_eq.
  pose proof (retrieve_not_diverge E RAG query k tr) as Hnd.
  destruct (fst (retrieve E RAG query k tr)) as [retrieved|e0|] eqn:Hret; [| |done].
  2:{ intros [= <- <-]. split; [done|]. intros e [= <-]. left. split; [done|].
      intros who. rewrite calls_of_app. unfold calls_of at 2. simpl. lia. }
  unfold mbind at 1. unfold generate_plan at 1. chat_step E e plan.
  { intros [= <- <-]. split; [done|]. intros e' [= <-]. right. by eexists _, _, _. }
  unfold mbind at 1. unfold generate_draft_answer at 1. chat_step E e draft.
  { intros [= <- <-]. split; [done|]. intros e' [= <-]. right. by eexists _, _, _. }
  unfold mbind at 1. unfold evaluate_answer at 1. chat_step E e critic.
  { intros [= <- <-]. split; [done|]. intros e' [= <-]. right. by eexists _, _, _. }
  unfold mbind at 1.
  destruct (needs_revision E critic).
  - unfold revise_answer. chat_step E e final.
    { intros [= <- <-]. split; [done|]. intros e' [= <-]. right. by eexists _, _, _. }
    unfold mret. intros [= <- <-]. split; [done|]. intros e' [=].
  - unfold mret. intros [= <- <-]. split; [done|]. intros e' [=].
Qed.

(** X11. [run_pipeline] catches nothing and always ends. When it raises,
    the exception is either the one [retrieve] raised, no chat call having
    been made, or the one the chat service raised on the last call of the
    run: the first failing stage ends the run, and no later stage is
    called. *)
Theorem run_pipeline_failure
    (E : Env) (RAG : SimpleRAG) (query : list N) (k : Z) (tr : list event) :
  fst (run_pipeline E RAG query k tr) <> Diverge
  /\ forall e tr',
      run_pipeline E RAG query k tr = (Raise e, tr') ->
      (retrieve E RAG query k tr = (Raise e, tr')
       /\ forall who, calls_of who tr' = calls_of who tr)
      \/ exists hist who req,
          tr' = hist ++ [ChatCall who req]
          /\ chat_completions_create E hist req = inl e.
Proof.
  split.
  - destruct (run_pipeline E RAG query k tr) as [o tr'] eqn:Hrun.
    by apply run_pipeline_outcome in Hrun as [? _].
  - intros e tr' Hrun. apply run_pipeline_outcome in Hrun as [_ H]. by apply H.
Qed.

(** With the chat service down, the run ends on the planner call. *)
Lemma run_pipeline_failure_witness :
  exists hist who req,
    snd (run_pipeline failing_chat_env example_index (Py.lit "q") 1 [])
    = hist ++ [ChatCall who req]
    /\ chat_completions_create failing_chat_env hist req = inl (OtherError "APIError").
Proof.
  destruct (run_pipeline_failure failing_chat_env example_index (Py.lit "q") 1 [])
    as [_ H].
  destruct (H (OtherError "APIError")
              (snd (run_pipeline failing_chat_env example_index (Py.lit "q") 1 [])))
    as [[Hr _]|Hc].
  - vm_compute. reflexivity.
  - vm_compute in Hr. discriminate Hr.
  - exact Hc.
Defined.

(** ** The evidence score *)

Lemma SFltb_asym a b : SFltb a b = true -> SFltb b a = false.
Proof.
  intros H. assert (Hlt : np_lt a b = true) by (unfold np_lt; by rewrite H).
  apply np_lt_asym in Hlt. unfold np_lt in Hlt. by apply orb_false_elim in Hlt as [? _].
Qed.

Lemma SFltb_not_nan a b : SFltb a b = true -> is_nan a = false /\ is_nan b = false.
Proof. destruct a, b; simpl; try done. Qed.

Lemma py_max_first first rest :
  Forall (fun y => SFltb first y = false) rest -> py_max first rest = first.
Proof.
  unfold py_max. induction 1 as [|y rest Hy _ IH]; [done|].
  simpl. unfold py_max2 at 2. by rewrite Hy.
Qed.

Lemma clamp_in_range x :
  let s := py_max2 (S754_zero false) (py_min2 f32_one x) in
  is_nan s = false /\ SFltb s (S754_zero false) = false /\ SFltb f32_one s = false.
Proof.
  unfold py_max2, py_min2.
  destruct (SFltb x f32_one) eqn:H1.
  - destruct (SFltb (S754_zero false) x) eqn:H0; [|done].
    split_and!.
    + by apply SFltb_not_nan in H1 as [? _].
    + by apply SFltb_asym.
    + by apply SFltb_asym.
  - done.
Qed.

Lemma evidence_score_first d rest :
  Forall (fun d' => SFltb (similarity d) (similarity d') = false) rest ->
  compute_evidence_score (d :: rest)
  = Some (py_max2 (S754_zero false) (py_min2 f32_one (similarity d))).
Proof.
  intros Hall. simpl. f_equal. f_equal. f_equal.
  apply py_max_first. by rewrite Forall_fmap.
Qed.

(** X12. [compute_evidence_score] on a list of retrieval results: the
    score is missing exactly when the list is empty; a score is never NaN,
    never below 0 and never above 1; when no later result is more similar
    than the first one, as in a ranking, the score is the similarity of the
    first result cut to the interval from 0 to 1; and when the similarity
    of the first result is NaN the score is 1.0, the highest there is:
    Python's [max] keeps a leading NaN, and [min(1.0, NaN)] is 1.0. *)
Theorem compute_evidence_score_range (docs : list doc) :
  (compute_evidence_score docs = None <-> docs = [])
  /\ (forall s,
         compute_evidence_score docs = Some s ->
         is_nan s = false
         /\ SFltb s (S754_zero false) = false
         /\ SFltb f32_one s = false)
  /\ (forall d rest,
         docs = d :: rest ->
         Forall (fun d' => SFltb (similarity d) (similarity d') = false) rest ->
         compute_evidence_score docs
         = Some (py_max2 (S754_zero false) (py_min2 f32_one (similarity d))))
  /\ (forall d rest,
         docs = d :: rest ->
         is_nan (similarity d) = true ->
         compute_evidence_score docs = Some f32_one).
Proof.
  split_and!.
  - destruct docs; simpl; split; done.
  - intros s. destruct docs as [|d rest]; [done|]. simpl. intros [= <-].
    apply clamp_in_range.
  - intros d rest ->. apply evidence_score_first.
  - intros d rest -> Hnan. simpl.
    destruct (similarity d) eqn:Hs; try done.
    rewrite py_max_first; [done|].
    apply Forall_forall. by intros y _.
Qed.

Lemma compute_evidence_score_range_witness :
  compute_evidence_score [nan_doc; nan_doc] = Some f32_one.
Proof.
  destruct (compute_evidence_score_range [nan_doc; nan_doc]) as (_ & _ & _ & H).
  apply (H nan_doc [nan_doc]); reflexivity.
Defined.

(** ** The branches of [run_query] *)

Lemma run_query_responsible_trace E rag query tr o tr' :
  run_query_responsible E rag query tr = (o, tr') ->
  exists calls, tr' = tr ++ EmbedCall [query] :: calls.
Proof.
  unfold run_query_responsible. unfold mbind at 1. rewrite retrieve_eq.
  destruct (fst (retrieve E rag query 3 tr)) as [docs|e|];
    [|intros [= <- <-]; by exists []..].
  unfold mbind at 1. unfold generate_plan at 1. chat_step E e plan.
  { intros [= <- <-]. rewrite <- app_assoc. by eexists. }
  unfold mbind at 1. chat_step E e draft.
  { intros [= <- <-]. rewrite <- !app_assoc. by eexists. }
  unfold mbind at 1. unfold evaluate_answer at 1. chat_step E e critic.
  { intros [= <- <-]. rewrite <- !app_assoc. by eexists. }
  destruct (parse_critic_json_returns E critic) as [parsed Hparsed].
  rewrite (respond_after_critic_eq _ _ _ _ _ _ _ _ _ Hparsed).
  intros [= <- <-]. rewrite <- !app_assoc. by eexists.
Qed.

(** X13. [run_query] answers with an error (status 400) in two cases
    only, and calls no service in either: an empty query, whatever the
    mode, with the message [Empty query]; and, for a query that is not
    empty, a mode other than [baseline], [rag] and [responsible], with the
    message [Invalid mode specified]. A failure of a service is never
    turned into an error response. With a known mode and a query that is
    not empty the first thing the function does is a service call: in
    baseline mode a single chat call whose user message is the query, with
    no retrieval; in the two other modes the embedding call for the
    query. *)
Theorem run_query_error_responses
    (E : Env) (rag : SimpleRAG) (query mode : list N) (tr : list event) :
  (query = [] ->
   run_query E rag query mode tr
   = (Return (ErrorResponse (Py.lit "Empty query") 400), tr))
  /\ (query <> [] -> ~ known_mode mode ->
      run_query E rag query mode tr
      = (Return (ErrorResponse (Py.lit "Invalid mode specified") 400), tr))
  /\ (forall msg code tr',
         run_query E rag query mode tr = (Return (ErrorResponse msg code), tr') ->
         code = 400 /\ tr' = tr /\ (query = [] \/ ~ known_mode mode))
  /\ (query <> [] -> known_mode mode ->
      exists first rest,
        snd (run_query E rag query mode tr) = tr ++ first :: rest
        /\ (mode = Py.lit "baseline" ->
            rest = [] /\ exists req, first = ChatCall Draft req /\ user_content req = query)
        /\ (mode <> Py.lit "baseline" -> first = EmbedCall [query])).
Proof.
  unfold known_mode. split_and!.
  - by intros ->.
  - intros Hq Hm. unfold run_query. destruct query; [done|].
    repeat case_decide; try done; exfalso; apply Hm; auto.
  - intros msg code tr'. unfold run_query. destruct query as [|c q].
    { intros H. vm_compute in H. injection H as <- <- <-. auto. }
    case_decide as Hb.
    { unfold mbind, mlift, mret. rewrite call_chat_eq.
      destruct (chat_completions_create E _ _); cbn [of_env]; [done|].
      by destruct (JSONResponse _) as [[]|e|]. }
    case_decide as Hr.
    { unfold mbind at 1.
      destruct (retrieve E rag (c :: q) 3 tr) as [[docs|e|] t1]; [|done..].
      unfold mbind, mlift, mret. rewrite call_chat_eq.
      destruct (chat_completions_create E _ _); cbn [of_env]; [done|].
      by destruct (JSONResponse _) as [[]|e|]. }
    case_decide as Hp.
    { unfold mbind.
      by destruct (run_query_responsible E rag (c :: q) tr) as [[r|e|] t1]. }
    intros H. vm_compute in H. injection H as <- <- <-.
    split_and!; try done. right. intuition congruence.
  - intros Hq Hm. unfold run_query. destruct query as [|c q]; [done|].
    case_decide as Hb.
    { unfold mbind, mlift, mret. rewrite call_chat_eq.
      eexists _, [].
      split.
      { destruct (chat_completions_create E _ _); cbn [of_env]; [done|].
        by destruct (JSONResponse _) as [[]|e|]. }
      split; [|done]. intros _. split; [done|]. by eexists. }
    case_decide as Hr.
    { unfold mbind at 1. rewrite retrieve_eq.
      destruct (fst (retrieve E rag (c :: q) 3 tr)) as [docs|e|].
      - unfold mbind, mlift, mret. rewrite call_chat_eq.
        eexists _, [_]. split.
        + destruct (chat_completions_create E _ _); cbn [of_env];
            [simpl; by rewrite <- app_assoc|].
          destruct (JSONResponse _) as [[]|e|]; simpl; by rewrite <- app_assoc.
        + split; [done|]. done.
      - by exists (EmbedCall [c :: q]), [].
      - by exists (EmbedCall [c :: q]), []. }
    case_decide as Hp; [|intuition congruence].
    unfold mbind.
    destruct (run_query_responsible E rag (c :: q) tr) as [o t1] eqn:Hrun.
    apply run_query_responsible_trace in Hrun as [calls ->].
    exists (EmbedCall [c :: q]), calls. split; [by destruct o|]. done.
Qed.

(** An empty query with an unknown mode: the empty query is reported. *)
Lemma run_query_error_responses_witness :
  run_query example_env example_index [] (Py.lit "fast") []
  = (Return (ErrorResponse (Py.lit "Empty query") 400), []).
Proof.
  destruct (run_query_error_responses example_env example_index [] (Py.lit "fast") [])
    as (H & _).
  apply H. reflexivity.
Defined.

Lemma retrieve_texts_from_index E self query k tr res tr' :
  retrieve E self query k tr = (Return res, tr') ->
  Forall (fun d => text d ∈ texts self) res.
Proof.
  intros Hrun. apply retrieve_inv in Hrun as (vectors & qv & sims & _ & _ & _ & Hloop).
  apply result_loop_inv in Hloop as (new & -> & Hall). simpl.
  induction Hall as [|idx d idxs ds (Ht & _ & _) _ IH]; constructor; [|done].
  by apply list_elem_of_lookup_2 in Ht.
Qed.

Lemma get_doc_text_nonempty E d : text d <> [] -> get_doc_text E d = text d.
Proof. unfold get_doc_text. by destruct (text d). Qed.

Lemma built_index_doc_texts E fs path tr0 tr1 self query k tr res tr' :
  SimpleRAG_init E fs path tr0 = (Return self, tr1) ->
  retrieve E self query k tr = (Return res, tr') ->
  map (get_doc_text E) res = map text res
  /\ Forall (fun d => text d ∈ texts self /\ text d <> []
                      /\ (1 <= word_count (text d) <= 200)%nat) res.
Proof.
  intros Hinit Hrun.
  apply SimpleRAG_init_inv in Hinit as [Hload _].
  apply load_corpus_chunk_props in Hload.
  apply retrieve_texts_from_index in Hrun.
  rewrite Forall_forall in Hload. rewrite Forall_forall in Hrun.
  assert (Hall : Forall (fun d => text d ∈ texts self /\ text d <> []
                      /\ (1 <= word_count (text d) <= 200)%nat) res).
  { apply Forall_forall. intros d Hd. specialize (Hrun d Hd).
    destruct (Hload _ Hrun) as (? & _ & ?). done. }
  split; [|done].
  apply map_ext_in. intros d Hd. apply get_doc_text_nonempty.
  rewrite Forall_forall in Hall. apply Hall. by apply list_elem_of_In.
Qed.

(** X14. On an index that [SimpleRAG.__init__] has built, the text that
    [get_doc_text] extracts from a result of [retrieve] is the chunk text
    itself: the fallback to [str(doc)] is never taken, because no chunk of
    a loaded corpus is empty. So the branches of [run_query] and
    [run_pipeline] build their prompts from the same texts; each one is a
    chunk of the index, of 1 to 200 words. *)
Theorem retrieved_doc_text_is_chunk
    (E : Env) (fs : FileSystem) (path : list N) (tr0 tr1 : list event)
    (self : SimpleRAG) (query : list N) (k : Z) (tr : list event)
    (res : list doc) (tr' : list event) :
  SimpleRAG_init E fs path tr0 = (Return self, tr1) ->
  retrieve E self query k tr = (Return res, tr') ->
  map (get_doc_text E) res = map text res
  /\ Forall (fun d => text d ∈ texts self /\ text d <> []
                      /\ (1 <= word_count (text d) <= 200)%nat) res.
Proof.
  intros Hinit Hrun.
  destruct (built_index_doc_texts _ _ _ _ _ _ _ _ _ _ _ Hinit Hrun) as [Heq Hall].
  by split.
Qed.

Lemma retrieved_doc_text_is_chunk_witness :
  exists res,
    fst (retrieve example_env example_index (Py.lit "fair?") 2 []) = Return res
    /\ map (get_doc_text example_env) res = map text res.
Proof.
  pose (run := retrieve example_env example_index (Py.lit "fair?") 2 []).
  destruct (retrieved_doc_text_is_chunk example_env example_fs (Py.lit "data") []
              (snd (SimpleRAG_init example_env example_fs (Py.lit "data") []))
              example_index (Py.lit "fair?") 2 []
              (match fst run with Return r => r | _ => [] end) (snd run))
    as [Heq _].
  - vm_compute. reflexivity.
  - vm_compute. reflexivity.
  - eexists. split; [vm_compute; reflexivity|exact Heq].
Defined.

(** X15. The rag branch of [run_query] on a built index, with a sort that
    meets numpy's contract and an embedding service that answers one vector
    per text: a returned response lists at least one retrieved chunk,
    namely [min(3, corpus size)] of them, and [num_sources] is that number;
    the evidence score is never missing: it is the similarity of the first
    (most similar) result cut to the interval from 0 to 1; the run has made
    the embedding call for the query and then one chat call, whose user
    message is the chunk texts joined by blank lines, followed by the
    question. *)
Theorem run_query_rag_response
    (E : Env) (fs : FileSystem) (path : list N) (tr0 tr1 : list event)
    (rag : SimpleRAG) (query : list N) (tr : list event)
    (resp : query_response) (tr' : list event) :
  argsort_contract (np_argsort E) ->
  one_vector_per_text E ->
  SimpleRAG_init E fs path tr0 = (Return rag, tr1) ->
  query <> [] ->
  run_query E rag query (Py.lit "rag") tr = (Return resp, tr') ->
  exists d docs answer req,
    resp = RagResponse (d :: docs) answer
             (Some (py_max2 (S754_zero false) (py_min2 f32_one (similarity d))))
             (length (d :: docs))
    /\ retrieve E rag query 3 tr = (Return (d :: docs), tr ++ [EmbedCall [query]])
    /\ length (d :: docs) = Nat.min 3 (length (texts rag))
    /\ tr' = tr ++ [EmbedCall [query]; ChatCall Draft req]
    /\ chat_completions_create E (tr ++ [EmbedCall [query]]) req = inr answer
    /\ user_content req
       = Py.join [Py.NL; Py.NL] (map text (d :: docs))
         ++ [Py.NL; Py.NL] ++ Py.lit "Question: " ++ query.
Proof.
  intros Hsort Hone Hinit Hq. unfold run_query.
  destruct query as [|c q]; [done|]. clear Hq. set (query := c :: q).
  case_decide as Hb; [discriminate Hb|]. case_decide as Hr; [|done].
  unfold mbind at 1. rewrite retrieve_eq.
  destruct (fst (retrieve E rag query 3 tr)) as [docs|e|] eqn:Hret; [|intros [=]..].
  assert (Hrun : retrieve E rag query 3 tr = (Return docs, tr ++ [EmbedCall [query]])).
  { by rewrite retrieve_eq, Hret. }
  destruct (built_index_doc_texts _ _ _ _ _ _ _ _ _ _ _ Hinit Hrun) as [Htexts _].
  destruct (built_index_aligned _ _ _ _ _ _ Hone Hinit) as (Hnd & Hls & Hle).
  pose proof (built_index_texts_nonempty _ _ _ _ _ _ Hinit) as Hne.
  destruct (retrieve_result_properties E rag query 3 tr _ _ Hsort Hnd Hls Hle
              ltac:(lia) Hrun)
    as (Hlen & _ & Hrank & _).
  destruct docs as [|d rest].
  { simpl in Hlen. destruct (texts rag); [done|]. simpl in Hlen. lia. }
  unfold mbind, mlift, mret. rewrite call_chat_eq.
  match goal with
  | |- context [chat_completions_create E ?h ?r] =>
      set (req := r); destruct (chat_completions_create E h req) as [e|answer] eqn:Hchat
  end; cbn [of_env]; [intros [=]|].
  destruct (JSONResponse _) as [[]|e|]; [|intros [=]..].
  intros [= <- <-].
  exists d, rest, answer, req. split_and!.
  - f_equal.
    + apply evidence_score_first. apply Forall_forall. intros d' Hd'.
      apply list_elem_of_lookup in Hd' as [j Hj].
      destruct (Hrank 0%nat (S j) d d') as [Hlt _]; [lia|done|done|done].
    + by rewrite length_map.
  - done.
  - exact Hlen.
  - by rewrite <- app_assoc.
  - done.
  - unfold req. cbn [user_content]. by rewrite Htexts.
Qed.

Lemma run_query_rag_response_witness :
  exists d docs answer req,
    fst (run_query example_env example_index (Py.lit "fair?") (Py.lit "rag") [])
    = Return (RagResponse (d :: docs) answer
                (Some (py_max2 (S754_zero false) (py_min2 f32_one (similarity d))))
                (length (d :: docs)))
    /\ length (d :: docs) = 3%nat
    /\ snd (run_query example_env example_index (Py.lit "fair?") (Py.lit "rag") [])
       = [] ++ [EmbedCall [Py.lit "fair?"]; ChatCall Draft req].
Proof.
  pose (run := run_query example_env example_index (Py.lit "fair?") (Py.lit "rag") []).
  destruct (run_query_rag_response example_env example_fs (Py.lit "data") []
              (snd (SimpleRAG_init example_env example_fs (Py.lit "data") []))
              example_index (Py.lit "fair?") []
              (match fst run with
               | Return r => r
               | _ => ErrorResponse [] 0
               end)
              (snd run))
    as (d & docs & answer & req & Hresp & _ & Hlen & Htr & _).
  - apply argsort_stable_contract.
  - intros tr m batch vs [= <-]. by rewrite length_map.
  - vm_compute. reflexivity.
  - discriminate.
  - vm_compute. reflexivity.
  - exists d, docs, answer, req. split; [|split; [exact Hlen|exact Htr]].
    rewrite <- Hresp. vm_compute. reflexivity.
Defined.

Lemma respond_after_critic_fields E query docs texts plan draft_text critic_text
    tr resp tr' :
  respond_after_critic E query docs texts plan draft_text critic_text tr
  = (Return resp, tr') ->
  rr_retrieved resp = docs
  /\ rr_plan resp = plan
  /\ rr_critic_raw resp = critic_text
  /\ rr_num_sources resp = length texts
  /\ rr_answer resp = rr_safe_answer resp.
Proof.
  destruct (parse_critic_json_returns E critic_text) as [parsed Hparsed].
  rewrite (respond_after_critic_eq _ _ _ _ _ _ _ _ _ Hparsed).
  destruct (chat_completions_create E _ _) as [e|safe]; [intros [=]|].
  destruct (critic_fields parsed) as [meta|e|]; cbn [obind]; [|intros [=]..].
  destruct (JSONResponse _) as [[]|e|]; cbn [obind]; [|intros [=]..].
  by intros [= <- <-].
Qed.

Lemma call_chat_returns E who req tr answer tr' :
  call_chat E who req tr = (Return answer, tr') ->
  chat_completions_create E tr req = inr answer /\ tr' = tr ++ [ChatCall who req].
Proof.
  rewrite call_chat_eq.
  destruct (chat_completions_create E tr req) as [e|a]; cbn [of_env]; [intros [=]|].
  by intros [= -> <-].
Qed.

(** X16. One run of the responsible branch of [run_query], for a query
    that is not empty, when the retrieval returns [docs] and the chat
    service answers the planner, the draft, the critic and the safe-rewrite
    requests with [plan], [draft_text], [critic_text] and [safe_answer],
    [parsed] being what [parse_critic_json] makes of the critic text. The
    run has then made five calls, in this order: the embedding call for the
    query, the planner, the draft, the critic (with [temperature] and
    [top_p] at 0) and the safe rewrite. It returns a response when the
    parsed critic output counts as false or is an object, and everything in
    the response can be rendered as JSON (finite similarities, no surrogate
    in the texts): the response carries the retrieved results as they came,
    [num_sources] is their number, and the answer is the output of the safe
    rewrite. It raises ValueError at [JSONResponse], after the five calls,
    when a retrieved similarity is NaN or infinite, or when the parsed
    critic output is an object that holds such a float. *)
Theorem run_query_responsible_completes
    (E : Env) (rag : SimpleRAG) (query : list N) (tr h1 h2 h3 h4 h5 : list event)
    (docs : list doc) (plan draft_text critic_text safe_answer : list N)
    (parsed : json) :
  query <> [] ->
  retrieve E rag query 3 tr = (Return docs, h1) ->
  generate_plan E query (map (get_doc_text E) docs) h1 = (Return plan, h2) ->
  call_chat E Draft
    (responsible_draft_request query (map (get_doc_text E) docs) plan) h2
  = (Return draft_text, h3) ->
  evaluate_answer E query (map (get_doc_text E) docs) draft_text h3
  = (Return critic_text, h4) ->
  parse_critic_json E critic_text = Return parsed ->
  call_chat E SafeRewrite
    (safe_rewrite_request E query (map (get_doc_text E) docs) draft_text
       parsed critic_text) h4
  = (Return safe_answer, h5) ->
  (exists rp rc,
      h5 = tr ++ [EmbedCall [query]; ChatCall Planner rp;
                  ChatCall Draft
                    (responsible_draft_request query (map (get_doc_text E) docs) plan);
                  ChatCall Critic rc;
                  ChatCall SafeRewrite
                    (safe_rewrite_request E query (map (get_doc_text E) docs)
                       draft_text parsed critic_text)]
      /\ temperature rc = Some 0 /\ top_p rc = Some 0)
  /\ ((truthy parsed = true -> (exists d, parsed = JDict d) /\ json_renders parsed) ->
      Forall doc_renders docs ->
      encodable plan = true -> encodable critic_text = true ->
      encodable safe_answer = true ->
      exists meta,
        critic_fields parsed = Return meta
        /\ run_query E rag query (Py.lit "responsible") tr
           = (Return (ResponsibleResponse
                        {| rr_retrieved := docs;
                           rr_plan := plan;
                           rr_critic := if truthy parsed then inl parsed
                                        else inr critic_text;
                           rr_critic_raw := critic_text;
                           rr_safe_answer := safe_answer;
                           rr_answer := safe_answer;
                           rr_num_sources := length docs;
                           rr_critic_meta := meta |}),
              h5))
  /\ ((truthy parsed = true -> exists d, parsed = JDict d) ->
      Exists (fun d => is_finite (similarity d) = false) docs ->
      run_query E rag query (Py.lit "responsible") tr = (Raise ValueError, h5))
  /\ (forall d, parsed = JDict d -> truthy parsed = true ->
                floats_finite parsed = false ->
      run_query E rag query (Py.lit "responsible") tr = (Raise ValueError, h5)).
Proof.
  intros Hq Hret Hplan Hdraft Hcritic Hparsed Hsafe.
  set (texts := map (get_doc_text E) docs) in *.
  assert (Hrun : run_query E rag query (Py.lit "responsible") tr
                 = match respond_after_critic E query docs texts plan draft_text
                           critic_text h4 with
                   | (Return r, t) => (Return (ResponsibleResponse r), t)
                   | (Raise e, t) => (Raise e, t)
                   | (Diverge, t) => (Diverge, t)
                   end).
  { unfold run_query. destruct query as [|c q]; [done|].
    case_decide as Hb; [discriminate Hb|]. case_decide as Hr; [discriminate Hr|].
    case_decide as Hp; [|done].
    unfold mbind at 1. unfold run_query_responsible.
    unfold mbind at 1. rewrite Hret.
    unfold mbind at 1. fold texts. rewrite Hplan.
    unfold mbind at 1. rewrite Hdraft.
    unfold mbind at 1. rewrite Hcritic. reflexivity. }
  rewrite Hrun, (respond_after_critic_eq _ _ _ _ _ _ _ _ _ Hparsed).
  apply call_chat_returns in Hsafe as [Hsafe ->]. rewrite Hsafe.
  split_and!.
  - rewrite retrieve_eq in Hret. injection Hret as _ <-.
    unfold generate_plan in Hplan. apply call_chat_returns in Hplan as [_ ->].
    apply call_chat_returns in Hdraft as [_ ->].
    unfold evaluate_answer in Hcritic. apply call_chat_returns in Hcritic as [_ ->].
    eexists _, _. split; [by repeat rewrite <- app_assoc|]. done.
  - intros Hobj Hdocs Hp Hc Hs.
    assert (Hmeta : exists meta, critic_fields parsed = Return meta).
    { destruct (truthy parsed) eqn:Ht.
      - destruct (Hobj eq_refl) as [[d ->] _].
        destruct (critic_fields_object d Ht) as (m & Hm & _). by eexists.
      - eexists. by apply critic_fields_falsy. }
    destruct Hmeta as [meta Hmeta]. exists meta. split; [exact Hmeta|].
    rewrite Hmeta. cbn [obind].
    rewrite responsible_content_renders; try done.
    + cbn [obind]. unfold responsible_result, texts. by rewrite length_map.
    + intros Ht. by apply Hobj.
  - intros Hobj Hdocs.
    assert (Hmeta : exists meta, critic_fields parsed = Return meta).
    { destruct (truthy parsed) eqn:Ht.
      - destruct (Hobj eq_refl) as [d ->].
        destruct (critic_fields_object d Ht) as (m & Hm & _). by eexists.
      - eexists. by apply critic_fields_falsy. }
    destruct Hmeta as [meta ->]. cbn [obind].
    by rewrite responsible_content_not_finite.
  - intros d -> Ht Hnf.
    destruct (critic_fields_object d Ht) as (m & -> & _). cbn [obind].
    unfold JSONResponse.
    assert (Hff : floats_finite
                    (responsible_content
                       (responsible_result docs texts plan critic_text safe_answer
                          (JDict d) (Some m))) = false).
    { unfold responsible_result. rewrite Ht.
      cbn [responsible_content floats_finite forallb snd rr_retrieved rr_critic] in *.
      rewrite Hnf. by rewrite !andb_false_r. }
    by rewrite Hff.
Qed.

Lemma run_query_responsible_completes_witness :
  (exists resp h5 meta,
      run_query scoring_critic_env example_index (Py.lit "fair?")
        (Py.lit "responsible") []
      = (Return (ResponsibleResponse resp), h5)
      /\ length h5 = 5%nat
      /\ rr_critic resp = inl (JDict [(Py.lit "overall_score", JInt 4)])
      /\ rr_critic_meta resp = Some meta
      /\ overall_score meta = JInt 4
      /\ critic_summary meta = JNull
      /\ rr_num_sources resp = 3%nat)
  /\ (exists h5,
         run_query example_env zero_row_index (Py.lit "fair?")
           (Py.lit "responsible") []
         = (Raise ValueError, h5)
         /\ length h5 = 5%nat).
Proof.
  split.
  - pose (E := scoring_critic_env). pose (q := Py.lit "fair?").
    pose (r1 := retrieve E example_index q 3 []).
    pose (docs := match fst r1 with Return r => r | _ => [] end).
    pose (texts := map (get_doc_text E) docs).
    pose (r2 := generate_plan E q texts (snd r1)).
    pose (plan := match fst r2 with Return r => r | _ => [] end).
    pose (r3 := call_chat E Draft (responsible_draft_request q texts plan) (snd r2)).
    pose (draft := match fst r3 with Return r => r | _ => [] end).
    pose (r4 := evaluate_answer E q texts draft (snd r3)).
    pose (critic := match fst r4 with Return r => r | _ => [] end).
    pose (parsed := match parse_critic_json E critic with Return v => v | _ => JNull end).
    pose (r5 := call_chat E SafeRewrite
                  (safe_rewrite_request E q texts draft parsed critic) (snd r4)).
    pose (safe := match fst r5 with Return r => r | _ => [] end).
    destruct (run_query_responsible_completes E example_index q []
                (snd r1) (snd r2) (snd r3) (snd r4) (snd r5)
                docs plan draft critic safe parsed)
      as (_ & Hok & _);
      [discriminate|vm_compute; reflexivity..|].
    destruct Hok as (meta & Hmeta & Hrun).
    + intros _. split; [by eexists|]. split; vm_compute; reflexivity.
    + let d := eval vm_compute in docs in change (Forall doc_renders d).
      repeat constructor.
    + vm_compute. reflexivity.
    + vm_compute. reflexivity.
    + vm_compute. reflexivity.
    + vm_compute in Hmeta. injection Hmeta as <-.
      eexists _, _, _. split; [exact Hrun|].
      split; [vm_compute; reflexivity|].
      split; [vm_compute; reflexivity|].
      split; [reflexivity|].
      split; [reflexivity|]. split; [reflexivity|]. vm_compute. reflexivity.
  - pose (E := example_env). pose (q := Py.lit "fair?").
    pose (r1 := retrieve E zero_row_index q 3 []).
    pose (docs := match fst r1 with Return r => r | _ => [] end).
    pose (texts := map (get_doc_text E) docs).
    pose (r2 := generate_plan E q texts (snd r1)).
    pose (plan := match fst r2 with Return r => r | _ => [] end).
    pose (r3 := call_chat E Draft (responsible_draft_request q texts plan) (snd r2)).
    pose (draft := match fst r3 with Return r => r | _ => [] end).
    pose (r4 := evaluate_answer E q texts draft (snd r3)).
    pose (critic := match fst r4 with Return r => r | _ => [] end).
    pose (parsed := match parse_critic_json E critic with Return v => v | _ => JNull end).
    pose (r5 := call_chat E SafeRewrite
                  (safe_rewrite_request E q texts draft parsed critic) (snd r4)).
    destruct (run_query_responsible_completes E zero_row_index q []
                (snd r1) (snd r2) (snd r3) (snd r4) (snd r5)
                docs plan draft critic
                (match fst r5 with Return r => r | _ => [] end) parsed)
      as (_ & _ & Hnan & _);
      [discriminate|vm_compute; reflexivity..|].
    exists (snd r5). split; [|vm_compute; reflexivity].
    apply Hnan.
    + intros Ht. vm_compute in Ht. discriminate Ht.
    + let ds := eval vm_compute in docs in
      change (Exists (fun d => is_finite (similarity d) = false) ds).
      constructor. reflexivity.
Defined.

(** ** compare_systems.py *)

Lemma join_lookup sep (l : list (list N)) i x :
  l !! i = Some x -> exists pre post, Py.join sep l = pre ++ x ++ post.
Proof.
  revert i. induction l as [|w l IH]; intros i Hi; [done|].
  destruct i as [|i]; simpl in Hi.
  - injection Hi as ->. destruct l as [|w' l].
    + exists [], []. simpl. by rewrite app_nil_r.
    + exists [], (sep ++ Py.join sep (w' :: l)). done.
  - destruct (IH i Hi) as (pre & post & Hj).
    destruct l as [|w' l]; [done|].
    exists (w ++ sep ++ pre), post.
    change (Py.join sep (w :: w' :: l)) with (w ++ sep ++ Py.join sep (w' :: l)).
    rewrite Hj. by rewrite <- !app_assoc.
Qed.

Lemma simple_rag_label docs sources i d s :
  docs !! i = Some d -> sources !! i = Some s ->
  exists pre post,
    simple_rag_docs_text docs sources
    = pre ++ (Py.lit "Document " ++ Py.str_of_nat (i + 2) ++ Py.lit " (source="
              ++ s ++ Py.lit "):" ++ [Py.NL] ++ d) ++ post.
Proof.
  intros Hd Hs. unfold simple_rag_docs_text.
  apply (join_lookup _ _ i).
  rewrite list_lookup_imap.
  assert (Hz : zip docs sources !! i = Some (d, s)).
  { apply lookup_zip_with_Some. by exists d, s. }
  rewrite Hz. cbn [fmap option_fmap option_map fst snd].
  replace (i + 1 + 1)%nat with (i + 2)%nat by lia. done.
Qed.

Lemma answer_simple_rag_inv E RAG query k tr r tr' :
  answer_simple_rag E RAG query k tr = (Return r, tr') ->
  exists retrieved req,
    retrieve E RAG query k tr = (Return retrieved, tr ++ [EmbedCall [query]])
    /\ sr_retrieved_docs r = map text retrieved
    /\ sr_sources r = map source retrieved
    /\ tr' = tr ++ [EmbedCall [query]; ChatCall Draft req]
    /\ chat_completions_create E (tr ++ [EmbedCall [query]]) req = inr (sr_answer r)
    /\ user_content req
       = Py.lit "User question:" ++ [Py.NL] ++ query ++ [Py.NL; Py.NL]
         ++ Py.lit "Retrieved documents:" ++ [Py.NL]
         ++ simple_rag_docs_text (map text retrieved) (map source retrieved)
         ++ [Py.NL; Py.NL]
         ++ Py.lit "Now answer the user's question based on the documents above.".
Proof.
  unfold answer_simple_rag. unfold mbind at 1. rewrite retrieve_eq.
  destruct (fst (retrieve E RAG query k tr)) as [retrieved|e|] eqn:Hret; [|intros [=]..].
  unfold mbind. rewrite call_chat_eq.
  match goal with
  | |- context [chat_completions_create E ?h ?r] =>
      set (req := r); destruct (chat_completions_create E h req) as [e|answer] eqn:Hchat
  end; cbn [of_env]; [intros [=]|].
  unfold mret. intros [= <- <-]. exists retrieved, req.
  cbn [sr_retrieved_docs sr_sources sr_answer].
  split_and!; try done. by rewrite <- app_assoc.
Qed.

(** X17. A call of [answer_simple_rag] that returns has made two service
    calls: the embedding call for the query and one chat call; no planner,
    critic or revision request is issued. The lists [retrieved_docs] and
    [sources] of the result are the texts and the source ids of the
    retrieved chunks, position by position. In the prompt the chunk at
    position [i] (counting from 0) is introduced as [Document i+2]: the
    loop counts from 1 and the label adds 1 again, so the labels start at
    [Document 2]. *)
Theorem answer_simple_rag_calls
    (E : Env) (RAG : SimpleRAG) (query : list N) (k : Z) (tr : list event)
    (r : simple_rag_result) (tr' : list event) :
  answer_simple_rag E RAG query k tr = (Return r, tr') ->
  exists retrieved req,
    retrieve E RAG query k tr = (Return retrieved, tr ++ [EmbedCall [query]])
    /\ sr_retrieved_docs r = map text retrieved
    /\ sr_sources r = map source retrieved
    /\ tr' = tr ++ [EmbedCall [query]; ChatCall Draft req]
    /\ chat_completions_create E (tr ++ [EmbedCall [query]]) req = inr (sr_answer r)
    /\ (forall who, who <> Draft -> calls_of who tr' = calls_of who tr)
    /\ (forall i d s,
           sr_retrieved_docs r !! i = Some d -> sr_sources r !! i = Some s ->
           exists pre post,
             user_content req
             = pre ++ (Py.lit "Document " ++ Py.str_of_nat (i + 2)
                       ++ Py.lit " (source=" ++ s ++ Py.lit "):" ++ [Py.NL] ++ d)
                   ++ post).
Proof.
  intros Hrun.
  apply answer_simple_rag_inv in Hrun
    as (retrieved & req & Hret & Hdocs & Hsrc & -> & Hchat & Huser).
  exists retrieved, req. split_and!; try done.
  - intros who Hwho. rewrite calls_of_app. unfold calls_of at 2. simpl.
    destruct who; simpl; try lia. done.
  - intros i d s Hd Hs. rewrite Hdocs in Hd. rewrite Hsrc in Hs.
    destruct (simple_rag_label _ _ i d s Hd Hs) as (pre & post & Hlab).
    rewrite Huser, Hlab.
    exists (Py.lit "User question:" ++ [Py.NL] ++ query ++ [Py.NL; Py.NL]
            ++ Py.lit "Retrieved documents:" ++ [Py.NL] ++ pre),
           (post ++ [Py.NL; Py.NL]
            ++ Py.lit "Now answer the user's question based on the documents above.").
    repeat rewrite <- app_assoc. reflexivity.
Qed.

Lemma answer_simple_rag_calls_witness :
  exists req pre post,
    snd (answer_simple_rag example_env example_index (Py.lit "fair?") 1 [])
    = [] ++ [EmbedCall [Py.lit "fair?"]; ChatCall Draft req]
    /\ user_content req
       = pre ++ (Py.lit "Document " ++ Py.str_of_nat (0 + 2)
                 ++ Py.lit " (source=" ++ Py.lit "b.txt#2" ++ Py.lit "):" ++ [Py.NL]
                 ++ Py.lit "fair and transparent")
             ++ post.
Proof.
  pose (run := answer_simple_rag example_env example_index (Py.lit "fair?") 1 []).
  destruct (answer_simple_rag_calls example_env example_index (Py.lit "fair?") 1 []
              (match fst run with
               | Return r => r
               | _ => {| sr_answer := []; sr_retrieved_docs := []; sr_sources := [] |}
               end)
              (snd run))
    as (retrieved & req & _ & _ & _ & Htr & _ & _ & Hlab).
  - vm_compute. reflexivity.
  - destruct (Hlab 0%nat (Py.lit "fair and transparent") (Py.lit "b.txt#2"))
      as (pre & post & Huser).
    + vm_compute. reflexivity.
    + vm_compute. reflexivity.
    + exists req, pre, post. split; [exact Htr|exact Huser].
Defined.

Lemma built_index_deterministic E embed_one fs path h1 h1' h2 h2' rag1 rag2 :
  pure_embedder E embed_one ->
  SimpleRAG_init E fs path h1 = (Return rag1, h1') ->
  SimpleRAG_init E fs path h2 = (Return rag2, h2') ->
  rag1 = rag2.
Proof.
  intros Hpure H1 H2.
  apply SimpleRAG_init_inv in H1 as [Hl1 He1].
  apply SimpleRAG_init_inv in H2 as [Hl2 He2].
  rewrite Hl1 in Hl2. injection Hl2 as Ht Hs.
  assert (Hne : texts rag1 <> []) by (intros Hnil; rewrite Hnil in He1; discriminate He1).
  destruct (embed_texts_pure E embed_one (texts rag1) 64 h1 Hpure Hne ltac:(lia))
    as [c1 Hc1].
  destruct (embed_texts_pure E embed_one (texts rag1) 64 h2 Hpure Hne ltac:(lia))
    as [c2 Hc2].
  rewrite <- Ht in He2. rewrite Hc1 in He1. rewrite Hc2 in He2.
  injection He1 as He1 _. injection He2 as He2 _.
  rewrite He1 in He2. injection He2 as He.
  destruct rag1, rag2. simpl in *. congruence.
Qed.

(** X18. [compare_systems] runs its three systems on two retrievers: the
    one [compare_systems.py] builds when it is imported and the one
    [answer_pipeline.py] builds. When both were built from the same
    directory and the embedding service is a function of each text alone,
    the two retrievers are equal, and in a comparison that returns, Simple
    RAG and the full pipeline have been given the same retrieved chunks and
    sources. The query is embedded twice, once by each system; the calls
    are: the LLM-only chat call on the bare query, the embedding and chat
    calls of Simple RAG, then the embedding, planner, draft and critic
    calls of the pipeline and at most one revision call. *)
Theorem compare_systems_same_retrieval
    (E : Env) (embed_one : list N -> list spec_float)
    (fs : FileSystem) (path : list N) (h1 h1' h2 h2' : list event)
    (RAG pipeline_RAG : SimpleRAG) (query : list N) (k : Z) (tr : list event)
    (c : comparison) (tr' : list event) :
  pure_embedder E embed_one ->
  SimpleRAG_init E fs path h1 = (Return pipeline_RAG, h1') ->
  SimpleRAG_init E fs path h2 = (Return RAG, h2') ->
  compare_systems E RAG pipeline_RAG query k tr = (Return c, tr') ->
  RAG = pipeline_RAG
  /\ sr_retrieved_docs (cmp_simple_rag c) = pr_retrieved_docs (cmp_full c)
  /\ sr_sources (cmp_simple_rag c) = pr_sources (cmp_full c)
  /\ exists r0 r1 rp rd rc rest,
      tr' = tr ++ [ChatCall Draft r0; EmbedCall [query]; ChatCall Draft r1;
                   EmbedCall [query]; ChatCall Planner rp; ChatCall Draft rd;
                   ChatCall Critic rc] ++ rest
      /\ (rest = [] \/ exists rr, rest = [ChatCall Revision rr])
      /\ user_content r0 = query.
Proof.
  intros Hpure Hp Hr.
  pose proof (built_index_deterministic _ _ _ _ _ _ _ _ _ _ Hpure Hr Hp) as <-.
  clear Hp Hr.
  unfold compare_systems. unfold mbind at 1.
  unfold answer_llm_only. rewrite call_chat_eq.
  match goal with
  | |- context [chat_completions_create E ?h ?r] =>
      set (r0 := r); destruct (chat_completions_create E h r0) as [e|a0]
  end; cbn [of_env]; [intros [=]|].
  unfold mbind at 1.
  destruct (answer_simple_rag E RAG query k (tr ++ [ChatCall Draft r0]))
    as [[sr|e|] t1] eqn:Hsr; [|intros [=]..].
  apply answer_simple_rag_inv in Hsr
    as (ret1 & r1 & Hret1 & Hdocs & Hsrc & -> & _ & _).
  unfold mbind at 1.
  match goal with
  | |- context [run_pipeline E RAG query k ?h] =>
      destruct (run_pipeline E RAG query k h) as [[run|e|] t2] eqn:Hrun;
        [|intros [=]..]
  end.
  apply run_pipeline_stages in Hrun
    as (ret2 & rp & rd & rc & rest & Hret2 & Hdocs2 & Hsrc2 & _ & _ & _ & _ & _ & _ & _
        & -> & Hrest).
  unfold mret. intros [= <- <-]. cbn [cmp_simple_rag cmp_full].
  assert (Hsame : ret1 = ret2).
  { pose proof (retrieve_depends_on_answer E RAG query k
                  (tr ++ [ChatCall Draft r0])
                  ((tr ++ [ChatCall Draft r0]) ++ [EmbedCall [query]; ChatCall Draft r1]))
      as Heq.
    rewrite Hret1, Hret2 in Heq. simpl in Heq.
    assert (Return ret1 = Return ret2) as [= ->]; [|done].
    apply Heq. by rewrite !Hpure. }
  subst ret2. split_and!.
  - done.
  - by rewrite Hdocs, Hdocs2.
  - by rewrite Hsrc, Hsrc2.
  - exists r0, r1, rp, rd, rc, rest. split_and!; try done.
    repeat rewrite <- app_assoc. done.
Qed.

Lemma compare_systems_same_retrieval_witness :
  exists c,
    fst (compare_systems example_env example_index example_index (Py.lit "fair?") 2 [])
    = Return c
    /\ sr_retrieved_docs (cmp_simple_rag c) = pr_retrieved_docs (cmp_full c)
    /\ sr_sources (cmp_simple_rag c) = pr_sources (cmp_full c).
Proof.
  pose (run := compare_systems example_env example_index example_index
                 (Py.lit "fair?") 2 []).
  destruct (compare_systems_same_retrieval example_env example_embedding
              example_fs (Py.lit "data")
              [] (snd (SimpleRAG_init example_env example_fs (Py.lit "data") []))
              [] (snd (SimpleRAG_init example_env example_fs (Py.lit "data") []))
              example_index example_index (Py.lit "fair?") 2 []
              (match fst run with
               | Return c => c
               | _ => {| cmp_llm_only := [];
                         cmp_simple_rag := {| sr_answer := []; sr_retrieved_docs := [];
                                              sr_sources := [] |};
                         cmp_full := {| pr_query := []; pr_retrieved_docs := [];
                                        pr_sources := []; pr_plan := [];
                                        pr_draft_answer := []; pr_critic_feedback := [];
                                        pr_final_answer := [] |} |}
               end)
              (snd run))
    as (_ & Hdocs & Hsrc & _).
  - intros tr m batch. reflexivity.
  - vm_compute. reflexivity.
  - vm_compute. reflexivity.
  - vm_compute. reflexivity.
  - eexists. split; [vm_compute; reflexivity|]. split; [exact Hdocs|exact Hsrc].
Defined.

(** ** scripts/experiment_loan_approval.py *)

(** X19. [simple_trust_metrics] raises [AttributeError] exactly when the
    artifacts have a [critic] entry that is not a dictionary: the default
    [{}] of [artifacts.get] only stands in for a missing key, so a critic
    stored as [None], as in the artifacts the script builds for the
    baseline and rag systems, makes the call fail. When the function
    returns, its result depends on the mode alone: the artifacts are looked
    at and never used. *)
Theorem simple_trust_metrics_behaviour (mode : list N) :
  (forall artifacts,
      (forall d, dict_get artifacts (Py.lit "critic") (JDict []) <> JDict d) ->
      simple_trust_metrics mode artifacts = Raise AttributeError)
  /\ (forall artifacts d,
         dict_get artifacts (Py.lit "critic") (JDict []) = JDict d ->
         exists m, simple_trust_metrics mode artifacts = Return m)
  /\ (forall a1 a2 m1 m2,
         simple_trust_metrics mode a1 = Return m1 ->
         simple_trust_metrics mode a2 = Return m2 ->
         m1 = m2)
  /\ simple_trust_metrics mode baseline_artifacts = Raise AttributeError.
Proof.
  assert (H1 : forall artifacts,
      (forall d, dict_get artifacts (Py.lit "critic") (JDict []) <> JDict d) ->
      simple_trust_metrics mode artifacts = Raise AttributeError).
  { intros artifacts Hno. unfold simple_trust_metrics.
    destruct (dict_get artifacts (Py.lit "critic") (JDict [])) eqn:Hc; try done.
    by destruct (Hno d). }
  split_and!.
  - exact H1.
  - intros artifacts d Hd. unfold simple_trust_metrics. rewrite Hd. cbn [py_get obind].
    repeat case_decide; by eexists.
  - intros a1 a2 m1 m2. unfold simple_trust_metrics.
    destruct (py_get (dict_get a1 _ _) _); [|done..].
    destruct (py_get (dict_get a2 _ _) _); [|done..].
    cbn [obind]. repeat case_decide; congruence.
  - apply H1. intros d. vm_compute. discriminate.
Qed.

(** The artifacts of the baseline system, and artifacts without a critic
    entry. *)
Lemma simple_trust_metrics_behaviour_witness :
  simple_trust_metrics (Py.lit "baseline") baseline_artifacts = Raise AttributeError
  /\ exists m,
      simple_trust_metrics (Py.lit "baseline") [(Py.lit "retrieved_docs", JList [])]
      = Return m.
Proof.
  destruct (simple_trust_metrics_behaviour (Py.lit "baseline")) as (_ & Hret & _ & Hbase).
  split; [exact Hbase|].
  apply (Hret [(Py.lit "retrieved_docs", JList [])] []).
  vm_compute. reflexivity.
Defined.

(** ** Chunks are stable; failures of [embed_texts] *)

Lemma split_into_chunks_more_fuel fuel extra text max_words overlap r :
  split_into_chunks fuel text max_words overlap = Some r ->
  split_into_chunks (fuel + extra) text max_words overlap = Some r.
Proof.
  unfold split_into_chunks. destruct (Py.split text) as [|w ws]; [done|].
  destruct (Py.len (w :: ws) <=? max_words); [done|].
  apply chunk_loop_more_fuel.
Qed.

Lemma split_into_chunks_stripped fuel text max_words overlap chunks :
  0 <= overlap < max_words ->
  split_into_chunks fuel text max_words overlap = Some chunks ->
  Forall (fun c => c <> [] /\ Py.strip c = c) chunks.
Proof.
  intros Hs Hc.
  destruct (decide (word_count text = 0%nat)) as [H0|H0].
  - unfold split_into_chunks, word_count in *.
    destruct (Py.split text); [|done]. injection Hc as <-. constructor.
  - destruct (decide (Z.of_nat (word_count text) <= max_words)) as [Hle|Hgt].
    + rewrite split_into_chunks_short in Hc by lia. injection Hc as <-.
      constructor; [|constructor]. split; [apply strip_nonempty; lia|apply strip_idemp].
    + apply (split_into_chunks_more_fuel _ (word_count text)) in Hc.
      rewrite split_into_chunks_closed_form in Hc; [|lia|lia|].
      2:{ pose proof (window_count_le (word_count text) max_words overlap). lia. }
      injection Hc as <-. apply Forall_forall. intros c Hin.
      apply list_elem_of_fmap in Hin as (j & -> & Hj).
      apply elem_of_seq in Hj. split; [|apply strip_idemp].
      intros Hnil.
      pose proof (window_chunk_split text max_words overlap j) as Hw. rewrite Hnil in Hw.
      apply (window_nonempty (Py.split text) max_words overlap j); [lia| |done].
      unfold word_count in Hj. lia.
Qed.

(** X20. Chunking is stable: for [0 <= overlap < max_words], every chunk
    that [split_into_chunks] returns is given back unchanged, as the only
    chunk, when it is chunked again with the same maximum (and any
    overlap): a chunk has between one and [max_words] words and no outer
    whitespace. *)
Theorem split_into_chunks_idempotent
    (fuel : nat) (text : list N) (max_words overlap : Z) (chunks : list (list N)) :
  0 <= overlap < max_words ->
  split_into_chunks fuel text max_words overlap = Some chunks ->
  Forall (fun c => forall fuel' overlap',
              split_into_chunks fuel' c max_words overlap' = Some [c]) chunks.
Proof.
  intros Hs Hc.
  pose proof (split_into_chunks_stripped _ _ _ _ _ Hs Hc) as Hne.
  pose proof (split_into_chunks_word_bound fuel text max_words overlap chunks
                ltac:(lia) Hc) as Hb.
  rewrite Forall_forall in *. intros c Hin fuel' overlap'.
  destruct (Hne c Hin) as [Hnil Hstrip]. specialize (Hb c Hin).
  rewrite split_into_chunks_short; [by rewrite Hstrip| |done].
  pose proof (stripped_nonempty_words c Hnil Hstrip). lia.
Qed.

Lemma split_into_chunks_idempotent_witness :
  Forall (fun c => forall fuel' overlap',
              split_into_chunks fuel' c 3 overlap' = Some [c])
         [Py.lit "a b c"; Py.lit "c d e"; Py.lit "e"].
Proof.
  apply (split_into_chunks_idempotent 5 (Py.lit "a b c d e") 3 1).
  - lia.
  - vm_compute. reflexivity.
Defined.

(** The loop of [embed_texts] ends; when it raises, the exception is the
    answer of the service to the last batch sent. *)
Lemma embed_loop_failure E texts (b : Z) starts :
  forall acc tr o tr',
    mfold (fun all_vectors start =>
             (batch_vectors <- call_embeddings E (Py.slice texts start (start + b)) ;;
              mret (all_vectors ++ batch_vectors))%M)
          starts acc tr = (o, tr') ->
    o <> Diverge
    /\ forall e, o = Raise e ->
         exists n s,
           starts !! n = Some s
           /\ tr' = tr ++ map (fun s => EmbedCall (Py.slice texts s (s + b)))
                              (take (S n) starts)
           /\ embeddings_create E
                (tr ++ map (fun s => EmbedCall (Py.slice texts s (s + b))) (take n starts))
                EMBED_MODEL (Py.slice texts s (s + b)) = inl e.
Proof.
  induction starts as [|s starts IH]; intros acc tr o tr'.
  - simpl. unfold mret. intros [= <- <-]. split; [done|]. intros e [=].
  - cbn [mfold]. unfold mbind at 1. unfold mbind at 1, call_embeddings at 1.
    destruct (embeddings_create E tr EMBED_MODEL (Py.slice texts s (s + b)))
      as [e0|vs] eqn:Hans; cbn [of_env].
    + intros [= <- <-]. split; [done|]. intros e [= <-].
      exists 0%nat, s. simpl. by rewrite app_nil_r.
    + unfold mret at 1. intros Hrest. apply IH in Hrest as [Hnd Hfail].
      split; [done|]. intros e He.
      destruct (Hfail e He) as (n & s' & Hn & -> & Hans').
      exists (S n), s'. cbn [take map]. rewrite <- !app_assoc in *.
      split_and!; done.
Qed.

Lemma embed_texts_outcome E texts (b : Z) tr o tr' :
  0 < b -> texts <> [] ->
  embed_texts E texts b tr = (o, tr') ->
  o <> Diverge
  /\ forall e, o = Raise e ->
      (exists n batch,
          batches texts b !! n = Some batch
          /\ tr' = tr ++ map EmbedCall (take (S n) (batches texts b))
          /\ embeddings_create E (tr ++ map EmbedCall (take n (batches texts b)))
               EMBED_MODEL batch = inl e)
      \/ (e = ValueError /\ tr' = tr ++ map EmbedCall (batches texts b)).
Proof.
  intros Hb Hne. unfold embed_texts. destruct texts as [|t texts]; [done|].
  destruct (range0_batches (t :: texts) b Hb) as (starts & Hr & Hbs).
  unfold mbind at 1, mlift at 1. rewrite Hr. unfold mbind at 1.
  match goal with
  | |- context [mfold ?body starts [] tr] =>
      destruct (mfold body starts [] tr) as [o2 tr2] eqn:Hloop
  end.
  pose proof Hloop as Hloop2.
  apply embed_loop_failure in Hloop as [Hnd Hfail].
  apply embed_loop_calls in Hloop2 as (n0 & Htr2 & _ & Hfull).
  assert (Hmap : forall n, map (fun s => EmbedCall (Py.slice (t :: texts) s (s + b)))
                             (take n starts)
                           = map EmbedCall (take n (batches (t :: texts) b))).
  { intros n. rewrite <- Hbs, !firstn_map, map_map. done. }
  destruct o2 as [res|e2|]; [| |done].
  - unfold mlift. intros [= <- <-].
    split; [apply np_array_f32_not_diverge|].
    intros e He. right.
    rewrite Htr2, (Hfull res eq_refl).
    split; [|by rewrite <- Hbs, map_map].
    unfold np_array_f32 in He. destruct res; [done|].
    destruct (forallb _ _); [done|]. by injection He as <-.
  - intros [= <- <-]. split; [done|]. intros e [= <-]. left.
    destruct (Hfail e2 eq_refl) as (n & s & Hn & -> & Hans).
    exists n, (Py.slice (t :: texts) s (s + b)).
    rewrite !Hmap in *. split_and!; try done.
    rewrite <- Hbs, list_lookup_fmap, Hn. done.
Qed.

(** X21. [embed_texts] on a non-empty list with a positive batch size
    always ends, and it raises in two ways only. Either the embedding
    service failed on a batch: the exception is the service's, that batch
    is the last one sent, and the batches after it are never sent. Or
    every batch was sent and answered, and the conversion of the collected
    vectors to an array raised [ValueError] (vectors of unequal length). *)
Theorem embed_texts_failure
    (E : Env) (texts : list (list N)) (b : Z) (tr : list event) :
  0 < b -> texts <> [] ->
  fst (embed_texts E texts b tr) <> Diverge
  /\ forall e tr',
      embed_texts E texts b tr = (Raise e, tr') ->
      (exists n batch,
          batches texts b !! n = Some batch
          /\ tr' = tr ++ map EmbedCall (take (S n) (batches texts b))
          /\ embeddings_create E (tr ++ map EmbedCall (take n (batches texts b)))
               EMBED_MODEL batch = inl e)
      \/ (e = ValueError /\ tr' = tr ++ map EmbedCall (batches texts b)).
Proof.
  intros Hb Hne. split.
  - by destruct (embed_texts_outcome E texts b tr _ _ Hb Hne (surjective_pairing _))
      as [? _].
  - intros e tr' Hrun.
    destruct (embed_texts_outcome E texts b tr _ _ Hb Hne Hrun) as [_ H]. by apply H.
Qed.

(** Three texts in batches of one, the service refusing every call but
    the first: the second batch is the last one sent. *)
Lemma embed_texts_failure_witness :
  exists n batch,
    batches [Py.lit "a"; Py.lit "b"; Py.lit "c"] 1 !! n = Some batch
    /\ snd (embed_texts flaky_embedding_env [Py.lit "a"; Py.lit "b"; Py.lit "c"] 1 [])
       = [] ++ map EmbedCall (take (S n) (batches [Py.lit "a"; Py.lit "b"; Py.lit "c"] 1))
    /\ embeddings_create flaky_embedding_env
         ([] ++ map EmbedCall (take n (batches [Py.lit "a"; Py.lit "b"; Py.lit "c"] 1)))
         EMBED_MODEL batch
       = inl (OtherError "RateLimitError").
Proof.
  destruct (embed_texts_failure flaky_embedding_env
              [Py.lit "a"; Py.lit "b"; Py.lit "c"] 1 [])
    as [_ H]; [lia|discriminate|].
  destruct (H (OtherError "RateLimitError")
              (snd (embed_texts flaky_embedding_env
                      [Py.lit "a"; Py.lit "b"; Py.lit "c"] 1 [])))
    as [Hservice|[Hvalue _]].
  - vm_compute. reflexivity.
  - exact Hservice.
  - discriminate Hvalue.
Defined.
